(** * The Trusted Agent Protocol (TAP) signature core of pocketLP

    A shallow embedding of
      - [tap-agent/src/crypto/tapSigner.ts]   (class [TAPSigner]),
      - [tap-agent/src/routes/tapRoutes.ts]   (the [/sign] and [/verify]
        handlers and their two helper functions),
      - [tap-agent/src/visa/visaKeyRegistry.ts] (class [VisaKeyRegistry]),
      - [tap-agent/src/routes/wellKnown.ts]   (the [/.well-known/jwks]
        handler),
      - [tap-agent/src/visa/visaAuth.ts]      (class [VisaAuth]),
    together with the platform functions they call ([btoa], [atob],
    [Buffer#toString('base64')], [bs58], the tweetnacl wrappers, [parseInt],
    [encodeURIComponent], [crypto.timingSafeEqual]), and the properties of
    the signature scheme and of the X-Pay token proved over that embedding.

    Conventions.
      - A JavaScript string is a [list ascii] ([str]), its characters
        being below U+0100; a [Uint8Array] is a [list byte].
      - A call that may throw returns a [completion]: [Return v] or [Throw e].
      - A JavaScript number that holds an integer (a Unix time) is a [Z].
      - Ed25519 itself is an interface ([Ed25519]); tweetnacl's argument
        checks around it are written out. HMAC-SHA256 ([HmacSha256]) and
        [Buffer.from(text, 'base64')] ([BufferBase64]) are interfaces
        too. *)

From Stdlib Require Import ZArith NArith Lia List Ascii String DecimalString DecimalPos.
From Stdlib.Strings Require Import Byte.
From stdpp Require Import base option list gmap strings sorting.
Import ListNotations.

Local Open Scope list_scope.

#[global] Instance byte_eq_decision : EqDecision byte := byte_eq_dec.

(** ** JavaScript values and control flow *)

Abbreviation str := (list ascii).

(** A string literal of the source. *)
Definition lit (s : string) : str := list_ascii_of_string s.

(** The double quote (U+0022) and the line feed (U+000A). *)
Definition DQ : str := ["034"%char].
Definition LF : str := ["010"%char].

Inductive exn : Type :=
| TypeError (msg : string)
| Error (msg : string)
| InvalidCharacterError.

Inductive completion (A : Type) : Type :=
| Return (a : A)
| Throw (e : exn).
Arguments Return {A} a.
Arguments Throw {A} e.

Definition bind {A B} (c : completion A) (k : A -> completion B) : completion B :=
  match c with
  | Return a => k a
  | Throw e => Throw e
  end.

Notation "'let*' x ':=' c 'in' k" := (bind c (fun x => k))
  (at level 10, x pattern, c at level 100, k at level 200).

(** [try { body } catch (error) { handler }] *)
Definition try_catch {A} (body : completion A) (handler : exn -> completion A) : completion A :=
  match body with
  | Return a => Return a
  | Throw e => handler e
  end.

Module JS.

(** [s.replace(/c/g, d)] for single characters [c] and [d]. *)
Definition replace_char (c d : ascii) (s : str) : str :=
  map (fun x => if Ascii.eqb x c then d else x) s.

(** [s.replace(/c/g, '')] *)
Definition remove_char (c : ascii) (s : str) : str :=
  filter (fun x => x <> c) s.

(** [c.repeat(n)] *)
Definition repeat_char (c : ascii) (n : nat) : str := replicate n c.

(** The string a template literal substitutes for a number holding the
    integer [n]: its decimal digits, with a leading minus sign below zero
    (Number::toString for integers of magnitude below 10^21). *)
Definition Number_toString (n : Z) : str :=
  lit (NilZero.string_of_int (Z.to_int n)).

(** [pre] is removed from the front of [s] when [s] starts with it:
    [s.replace(/^pre/, '')] for a literal [pre]. *)
Fixpoint strip_prefix (pre s : str) : option str :=
  match pre, s with
  | [], _ => Some s
  | p :: pre', c :: s' => if Ascii.eqb p c then strip_prefix pre' s' else None
  | _ :: _, [] => None
  end.

Definition replace_prefix (pre s : str) : str :=
  default s (strip_prefix pre s).

(** [s.replace(/c$/, '')]: one trailing [c] is removed. *)
Fixpoint replace_trailing_char (c : ascii) (s : str) : str :=
  match s with
  | [] => []
  | [x] => if Ascii.eqb x c then [] else [x]
  | x :: s' => x :: replace_trailing_char c s'
  end.

(** [s.split(c)] for a single character separator: never empty. *)
Fixpoint split (c : ascii) (s : str) : list str :=
  match s with
  | [] => [[]]
  | x :: s' =>
      if Ascii.eqb x c then [] :: split c s'
      else match split c s' with
           | [] => [[x]]
           | hd :: tl => (x :: hd) :: tl
           end
  end.

End JS.

(** ** Platform functions: base64 ([btoa], [atob], [Buffer]) *)

Module Base64.

Definition alphabet : str :=
  lit "ABCDEFGHIJKLMNOPQRSTUVWXYZabcdefghijklmnopqrstuvwxyz0123456789+/".

Definition char_of_sextet (n : N) : ascii := nth (N.to_nat n) alphabet "A"%char.

Fixpoint index_of (c : ascii) (l : str) : option N :=
  match l with
  | [] => None
  | x :: l' => if Ascii.eqb x c then Some 0%N else N.succ <$> index_of c l'
  end.

Definition sextet_of_char (c : ascii) : option N := index_of c alphabet.

(** Three octets give four sextets; a final group of one or two octets
    gives two or three, the unused low bits being zero. *)
Fixpoint sextets_of_octets (l : list N) : list N :=
  match l with
  | a :: b :: c :: rest =>
      (a / 4 :: (a mod 4) * 16 + b / 16 :: (b mod 16) * 4 + c / 64 :: c mod 64
         :: sextets_of_octets rest)%N
  | [a; b] => [a / 4; (a mod 4) * 16 + b / 16; (b mod 16) * 4]%N
  | [a] => [a / 4; (a mod 4) * 16]%N
  | [] => []
  end.

(** Four sextets give three octets; of a final group of two or three
    sextets the last 4 or 2 bits are discarded. *)
Fixpoint octets_of_sextets (l : list N) : list N :=
  match l with
  | s0 :: s1 :: s2 :: s3 :: rest =>
      (s0 * 4 + s1 / 16 :: (s1 mod 16) * 16 + s2 / 4 :: (s2 mod 4) * 64 + s3
         :: octets_of_sextets rest)%N
  | [s0; s1; s2] => [s0 * 4 + s1 / 16; (s1 mod 16) * 16 + s2 / 4]%N
  | [s0; s1] => [s0 * 4 + s1 / 16]%N
  | _ => []
  end.

(** RFC 4648 base64 with padding, of a string of characters below U+0100. *)
Definition encode (s : str) : str :=
  map char_of_sextet (sextets_of_octets (map N_of_ascii s)) ++
  JS.repeat_char "="%char ((3 - length s mod 3) mod 3).

(** [btoa(s)]. Every character of a [str] is below U+0100, so the
    InvalidCharacterError of [btoa] cannot arise. *)
Definition btoa (s : str) : completion str := Return (encode s).

(** [Buffer.from(bytes).toString('base64')] *)
Definition Buffer_toString_base64 (bytes : list byte) : str :=
  encode (map ascii_of_byte bytes).

Definition is_ascii_whitespace (c : ascii) : bool :=
  bool_decide (c ∈ ["009"; "010"; "012"; "013"; " "]%char).

(** If the data ends with one or two [=], they are removed. *)
Definition remove_padding (data : str) : str :=
  match rev data with
  | c1 :: c2 :: r =>
      if Ascii.eqb c1 "="%char
      then (if Ascii.eqb c2 "="%char then rev r else rev (c2 :: r))
      else data
  | [c1] => if Ascii.eqb c1 "="%char then [] else data
  | [] => data
  end.

(** [atob(data)]: the forgiving-base64 decode of the WHATWG Infra standard. *)
Definition atob (data : str) : completion str :=
  let data := filter (fun c => is_ascii_whitespace c = false) data in
  let data := if (length data mod 4 =? 0)%nat then remove_padding data else data in
  if (length data mod 4 =? 1)%nat then Throw InvalidCharacterError
  else match mapM sextet_of_char data with
       | None => Throw InvalidCharacterError
       | Some sextets => Return (map ascii_of_N (octets_of_sextets sextets))
       end.

Definition octet (n : N) : Prop := (n < 256)%N.
Definition sextet (n : N) : Prop := (n < 64)%N.

(** The characters [encode] puts before the padding. *)
Definition b64char (c : ascii) : Prop := exists k, sextet k /\ c = char_of_sextet k.

(** The sextets of a string, as characters: [encode] without its padding. *)
Definition body (s : str) : str :=
  map char_of_sextet (sextets_of_octets (map N_of_ascii s)).

(** What the two replacements of [base64UrlEncode] do to one character
    ([+] and [/] become [-] and [_]), and the two of [base64UrlDecode]. *)
Definition url_char (c : ascii) : ascii :=
  let c1 := if Ascii.eqb c "+"%char then "-"%char else c in
  if Ascii.eqb c1 "/"%char then "_"%char else c1.

Definition unurl_char (c : ascii) : ascii :=
  let c1 := if Ascii.eqb c "-"%char then "+"%char else c in
  if Ascii.eqb c1 "_"%char then "/"%char else c1.

(** Base64url without padding, as RFC 4648 (section 5) has it: the sextets
    of the bytes, each written with the URL-safe alphabet. *)
Definition url_alphabet : str :=
  lit "ABCDEFGHIJKLMNOPQRSTUVWXYZabcdefghijklmnopqrstuvwxyz0123456789-_".

Definition base64url_nopad (bytes : list byte) : str :=
  map (fun k => nth (N.to_nat k) url_alphabet "A"%char)
    (sextets_of_octets (map Byte.to_N bytes)).

End Base64.

(** ** Library functions: [bs58] *)

Module Bs58.

Definition alphabet : str :=
  lit "123456789ABCDEFGHJKLMNPQRSTUVWXYZabcdefghijkmnopqrstuvwxyz".

Definition char_of_digit (n : N) : ascii := nth (N.to_nat n) alphabet "1"%char.

Definition digit_of_char (c : ascii) : option N := Base64.index_of c alphabet.

(** The digits of [n] in base [b], most significant first; none for zero.
    One division more than the binary logarithm of [n] is enough for any
    base from 2 on. *)
Fixpoint to_digits_fuel (fuel : nat) (b n : N) (acc : list N) : list N :=
  match fuel with
  | O => acc
  | S fuel' =>
      if (n =? 0)%N then acc
      else to_digits_fuel fuel' b (n / b)%N ((n mod b)%N :: acc)
  end.

Definition to_digits (b n : N) : list N :=
  to_digits_fuel (S (N.to_nat (N.log2 n))) b n [].

(** [fuel] divisions are enough to write [n]. *)
Definition enough (fuel : nat) (n : N) : Prop :=
  n = 0%N \/ (N.to_nat (N.log2 n) < fuel)%nat.

(** Digits below the base, the first of them not zero. *)
Definition normal (b : N) (ds : list N) : Prop :=
  Forall (fun d => (d < b)%N) ds /\ head ds <> Some 0%N.

Definition from_digits (b : N) (ds : list N) : N :=
  fold_left (fun acc d => (acc * b + d)%N) ds 0%N.

Fixpoint leading_zeroes (ds : list N) : nat :=
  match ds with
  | 0%N :: ds' => S (leading_zeroes ds')
  | _ => O
  end.

Definition byte_of_N (n : N) : byte := default x00 (Byte.of_N n).

(** [bs58.encode(bytes)]: one ['1'] per leading zero byte, then the
    big-endian number the bytes spell, in base 58. *)
Definition encode (bytes : list byte) : str :=
  let octets := map Byte.to_N bytes in
  JS.repeat_char "1"%char (leading_zeroes octets) ++
  map char_of_digit (to_digits 58 (from_digits 256 octets)).

(** [bs58.decode(string)]: throws on a character outside the alphabet. *)
Definition decode (s : str) : completion (list byte) :=
  match mapM digit_of_char s with
  | None => Throw (Error "Non-base58 character")
  | Some ds =>
      Return (replicate (leading_zeroes ds) x00 ++
              map byte_of_N (to_digits 256 (from_digits 58 ds)))
  end.

End Bs58.

(** ** Library functions: tweetnacl *)

(** The Ed25519 primitives of tweetnacl: [crypto_sign m sk] is the signed
    message (signature, then [m]); [crypto_sign_open sm pk] tells whether
    [sm] opens under [pk]. *)
Class Ed25519 : Type := {
  crypto_sign : list byte -> list byte -> list byte;
  crypto_sign_open : list byte -> list byte -> bool
}.

Record KeyPair : Type := { publicKey : list byte; secretKey : list byte }.

Module nacl.

Definition crypto_sign_BYTES : nat := 64.
Definition crypto_sign_PUBLICKEYBYTES : nat := 32.
Definition crypto_sign_SECRETKEYBYTES : nat := 64.

(** [nacl.sign.keyPair.fromSecretKey(secretKey)] *)
Definition sign_keyPair_fromSecretKey (sk : list byte) : completion KeyPair :=
  if (length sk =? crypto_sign_SECRETKEYBYTES)%nat
  then Return {| publicKey := resize crypto_sign_PUBLICKEYBYTES x00 (drop 32 sk);
                 secretKey := sk |}
  else Throw (Error "bad secret key size").

(** [nacl.sign.detached(msg, secretKey)]: the first 64 bytes of the signed
    message. *)
Definition sign_detached `{Ed25519} (msg sk : list byte) : completion (list byte) :=
  if (length sk =? crypto_sign_SECRETKEYBYTES)%nat
  then Return (resize crypto_sign_BYTES x00 (crypto_sign msg sk))
  else Throw (Error "bad secret key size").

(** [nacl.sign.detached.verify(msg, sig, publicKey)] *)
Definition sign_detached_verify `{Ed25519} (msg sig pk : list byte) : completion bool :=
  if negb (length sig =? crypto_sign_BYTES)%nat then Throw (Error "bad signature size")
  else if negb (length pk =? crypto_sign_PUBLICKEYBYTES)%nat
       then Throw (Error "bad public key size")
       else Return (crypto_sign_open (sig ++ msg) pk).

End nacl.

(** [new TextEncoder().encode(s)]: UTF-8, for code points below U+0100. *)
Definition TextEncoder_encode (s : str) : list byte :=
  flat_map (fun c =>
    let n := N_of_ascii c in
    if (n <? 128)%N then [byte_of_ascii c]
    else [Bs58.byte_of_N (192 + n / 64); Bs58.byte_of_N (128 + n mod 64)]) s.

(** A value used as a condition: [undefined] and the empty string are falsy. *)
Definition truthy (o : option str) : bool :=
  match o with
  | Some (_ :: _) => true
  | _ => false
  end.

(** ** tapSigner.ts *)

Inductive Tag : Type := agent_browser_auth | agent_payer_auth.

Definition Tag_string (t : Tag) : str :=
  match t with
  | agent_browser_auth => lit "agent-browser-auth"
  | agent_payer_auth => lit "agent-payer-auth"
  end.

(** [TAPRequestData] and [TAPSignature] of shared/types.ts. *)
Record TAPRequestData : Type := {
  authority : str;
  path : str;
  method : str;
  keyId : str;
  nonce : str;
  tag : Tag
}.

Record TAPSignature : Type := {
  Signature_Input : str;
  Signature : str
}.

Module TAPSigner.

Record t : Type := { keyPair : KeyPair; keyId : str }.

Definition generateKeyId (kp : KeyPair) : str := Bs58.encode (publicKey kp).

(** [new TAPSigner(privateKeyBase58?, keyId?)]; [fresh] is the key pair
    [nacl.sign.keyPair()] draws when no private key is given. *)
Definition new (fresh : KeyPair) (privateKeyBase58 keyId : option str) : completion t :=
  if truthy privateKeyBase58 then
    let* privateKey := Bs58.decode (default [] privateKeyBase58) in
    let* kp := nacl.sign_keyPair_fromSecretKey privateKey in
    Return {| keyPair := kp;
              keyId := if truthy keyId then default [] keyId else generateKeyId kp |}
  else
    Return {| keyPair := fresh; keyId := generateKeyId fresh |}.

Definition getPublicKey (this : t) : str := Bs58.encode (publicKey (keyPair this)).

Definition getKeyId (this : t) : str := keyId this.

(** The [Signature-Input] template literal of [signTAPRequest]. *)
Definition signatureInput (created : Z) (keyId : str) (expires : Z) (nonce tag : str) : str :=
  lit "sig2=(" ++ DQ ++ lit "@authority" ++ DQ ++ lit " " ++ DQ ++ lit "@path" ++ DQ ++ lit ");" ++
  lit "created=" ++ JS.Number_toString created ++ lit ";" ++
  lit "keyid=" ++ DQ ++ keyId ++ DQ ++ lit ";" ++
  lit "expires=" ++ JS.Number_toString expires ++ lit ";" ++
  lit "nonce=" ++ DQ ++ nonce ++ DQ ++ lit ";" ++
  lit "tag=" ++ DQ ++ tag ++ DQ.

Definition createSignatureBase
  (authority path : str) (created : Z) (keyid : str) (expires : Z) (nonce tag : str) : str :=
  (DQ ++ lit "@authority" ++ DQ ++ lit ": " ++ authority ++ LF) ++
  (DQ ++ lit "@path" ++ DQ ++ lit ": " ++ path ++ LF) ++
  (DQ ++ lit "@signature-params" ++ DQ ++ lit ": sig2=(" ++
     DQ ++ lit "@authority" ++ DQ ++ lit " " ++ DQ ++ lit "@path" ++ DQ ++ lit ");") ++
  (lit "created=" ++ JS.Number_toString created ++ lit ";") ++
  (lit "keyid=" ++ DQ ++ keyid ++ DQ ++ lit ";") ++
  (lit "expires=" ++ JS.Number_toString expires ++ lit ";") ++
  (lit "nonce=" ++ DQ ++ nonce ++ DQ ++ lit ";") ++
  (lit "tag=" ++ DQ ++ tag ++ DQ).

Definition base64UrlEncode (data : list byte) : completion str :=
  let* b64 := Base64.btoa (map ascii_of_byte data) in
  Return (JS.remove_char "="%char
            (JS.replace_char "/"%char "_"%char (JS.replace_char "+"%char "-"%char b64))).

(** [now] is the reading of [Date.now()], in milliseconds. *)
Definition signTAPRequest `{Ed25519} (this : t) (now : Z) (requestData : TAPRequestData)
  : completion TAPSignature :=
  let created := (now / 1000)%Z in
  let expires := (created + 480)%Z in
  let signatureInput_ :=
    signatureInput created (keyId this) expires (nonce requestData)
      (Tag_string (tag requestData)) in
  let signatureBase :=
    createSignatureBase (authority requestData) (path requestData) created (keyId this)
      expires (nonce requestData) (Tag_string (tag requestData)) in
  let* signature :=
    nacl.sign_detached (TextEncoder_encode signatureBase) (secretKey (keyPair this)) in
  let* signatureB64 := base64UrlEncode signature in
  Return {| Signature_Input := signatureInput_;
            Signature := lit "sig2=:" ++ signatureB64 ++ lit ":" |}.

Definition base64UrlDecode (data : str) : completion (list byte) :=
  let base64 := JS.replace_char "_"%char "/"%char (JS.replace_char "-"%char "+"%char data) in
  let padding := JS.repeat_char "="%char ((4 - length base64 mod 4) mod 4) in
  let* binaryString := Base64.atob (base64 ++ padding) in
  Return (map byte_of_ascii binaryString).

(** [publicKey] is [None] when the argument is omitted. *)
Definition verifySignature `{Ed25519} (this : t) (signatureBase signature : str)
  (publicKey_ : option (list byte)) : completion bool :=
  try_catch
    (let* sigBytes := base64UrlDecode signature in
     let pubKey := default (publicKey (keyPair this)) publicKey_ in
     nacl.sign_detached_verify (TextEncoder_encode signatureBase) sigBytes pubKey)
    (fun _ => Return false).

End TAPSigner.

(** ** tapRoutes.ts *)

Module TapRoutes.

(** The nonce of the [/sign] and [/purchase] handlers,
    [crypto.randomBytes(64).toString('base64')], for the bytes drawn. *)
Definition nonce_of (randomBytes : list byte) : str :=
  Base64.Buffer_toString_base64 randomBytes.

(** The call of the [/verify] handler:
    [tapSigner.verifySignature(signatureBase,
       signature.replace(/^sig2=:/, '').replace(/:$/, ''), pubKeyBytes)] *)
Definition verify `{Ed25519} (tapSigner : TAPSigner.t) (signatureBase signature : str)
  (pubKeyBytes : list byte) : completion bool :=
  TAPSigner.verifySignature tapSigner signatureBase
    (JS.replace_trailing_char ":"%char (JS.replace_prefix (lit "sig2=:") signature))
    (Some pubKeyBytes).

(** The character class [\w]. *)
Definition is_word (c : ascii) : bool :=
  let n := N_of_ascii c in
  ((65 <=? n) && (n <=? 90) || (97 <=? n) && (n <=? 122) ||
   (48 <=? n) && (n <=? 57) || (n =? 95))%N.

(** The longest prefix of [s] whose characters satisfy [p], and the rest. *)
Fixpoint span (p : ascii -> bool) (s : str) : str * str :=
  match s with
  | [] => ([], [])
  | c :: s' =>
      if p c then let '(u, v) := span p s' in (c :: u, v)
      else ([], s)
  end.

Definition not_semicolon (c : ascii) : bool := negb (Ascii.eqb c ";"%char).

(** A match of [/(\w+)=([^;]+)/] that starts at the first character of [s].
    Both repetitions are greedy; a shorter [\w+] would be followed by a word
    character instead of [=], so there is nothing to backtrack to. *)
Definition match_at (s : str) : option str :=
  let '(key, s1) := span is_word s in
  match key, s1 with
  | _ :: _, c :: s2 =>
      if Ascii.eqb c "="%char then
        let '(value, _) := span not_semicolon s2 in
        match value with
        | _ :: _ => Some (key ++ lit "=" ++ value)
        | [] => None
        end
      else None
  | _, _ => None
  end.

(** [s.match(/(\w+)=([^;]+)/g)]: the matches from left to right, each
    search starting where the previous match ended. [skip] is the number of
    characters of the last match still to be passed. No match at all (the
    [null] of JavaScript) is the empty list. *)
Fixpoint global_match (skip : nat) (s : str) : list str :=
  match s with
  | [] => []
  | _ :: s' =>
      match skip with
      | S k => global_match k s'
      | O =>
          match match_at s with
          | Some m => m :: global_match (length m - 1) s'
          | None => global_match 0 s'
          end
      end
  end.

(** [params[key] = v] on a plain object: the assignment to [__proto__] of a
    string is ignored. *)
Definition set_property (key v : str) (params : gmap str str) : gmap str str :=
  if decide (key = lit "__proto__") then params else <[key := v]> params.

(** The body of the [forEach] callback. *)
Definition parse_match (params : gmap str str) (m : str) : completion (gmap str str) :=
  match JS.split "="%char m with
  | key :: value :: _ => Return (set_property key (JS.remove_char "034"%char value) params)
  | _ => Throw (TypeError "Cannot read properties of undefined (reading 'replace')")
  end.

Fixpoint forEach (matches : list str) (params : gmap str str) : completion (gmap str str) :=
  match matches with
  | [] => Return params
  | m :: rest => let* params' := parse_match params m in forEach rest params'
  end.

Definition parseSignatureInput (signatureInput : str) : completion (gmap str str) :=
  forEach (global_match 0 signatureInput) ∅.

(** [${params.name}]: a property that is not there reads [undefined]. *)
Definition property (params : gmap str str) (name : string) : str :=
  default (lit "undefined") (params !! lit name).

Definition createSignatureBase (authority path : str) (params : gmap str str) : str :=
  (DQ ++ lit "@authority" ++ DQ ++ lit ": " ++ authority ++ LF) ++
  (DQ ++ lit "@path" ++ DQ ++ lit ": " ++ path ++ LF) ++
  (DQ ++ lit "@signature-params" ++ DQ ++ lit ": sig2=(" ++
     DQ ++ lit "@authority" ++ DQ ++ lit " " ++ DQ ++ lit "@path" ++ DQ ++ lit ");") ++
  (lit "created=" ++ property params "created" ++ lit ";") ++
  (lit "keyid=" ++ DQ ++ property params "keyid" ++ DQ ++ lit ";") ++
  (lit "expires=" ++ property params "expires" ++ lit ";") ++
  (lit "nonce=" ++ DQ ++ property params "nonce" ++ DQ ++ lit ";") ++
  (lit "tag=" ++ DQ ++ property params "tag" ++ DQ).

End TapRoutes.

(** ** visaKeyRegistry.ts *)

(** A JavaScript [Map] with string keys: the entries in insertion order. *)
Module JSMap.

Fixpoint set {V} (k : str) (v : V) (m : list (str * V)) : list (str * V) :=
  match m with
  | [] => [(k, v)]
  | (k', v') :: m' => if decide (k' = k) then (k, v) :: m' else (k', v') :: set k v m'
  end.

Definition values {V} (m : list (str * V)) : list V := map snd m.

End JSMap.

Module VisaKeyRegistry.

Record JWK : Type := {
  kty : str;
  kid : str;
  use : str;
  alg : str;
  x : option str;
  n : option str;
  e : option str;
  crv : option str
}.

Record JWKS : Type := { keys : list JWK }.

(** The [visaClient] field is the remote service; its one call that
    matters here is an argument of [rotateKey]. *)
Record t : Type := {
  tapSigner : TAPSigner.t;
  registeredKeys : list (str * JWK)
}.

Definition new (tapSigner : TAPSigner.t) : t :=
  {| tapSigner := tapSigner; registeredKeys := [] |}.

Definition base64urlEncode (bytes : list byte) : str :=
  let base64 := Base64.Buffer_toString_base64 bytes in
  JS.remove_char "="%char
    (JS.replace_char "/"%char "_"%char (JS.replace_char "+"%char "-"%char base64)).

Definition ed25519ToJWK (publicKeyBase58 keyId : str) : completion JWK :=
  let* publicKeyBytes := Bs58.decode publicKeyBase58 in
  let x := base64urlEncode publicKeyBytes in
  Return {| kty := lit "OKP"; kid := keyId; use := lit "sig"; alg := lit "EdDSA";
            crv := Some (lit "Ed25519"); x := Some x; n := None; e := None |}.

(** [registerWithVisa()]: [registerAgent] is the awaited call of the Visa
    client, given the key id and the JWK it is sent. The registration and
    the registry after the call; when a call throws, the error is logged
    and thrown again, and the registry is as before. *)
Definition registerWithVisa {R} (registerAgent : str -> JWK -> completion R) (this : t)
  : completion (R * t) :=
  try_catch
    (let publicKey := TAPSigner.getPublicKey (tapSigner this) in
     let keyId := TAPSigner.getKeyId (tapSigner this) in
     let* jwk := ed25519ToJWK publicKey keyId in
     let* registration := registerAgent keyId jwk in
     Return (registration,
             {| tapSigner := tapSigner this;
                registeredKeys := JSMap.set keyId jwk (registeredKeys this) |}))
    (fun error => Throw error).

(** [getJWKS()]: the result and the registry after the call. *)
Definition getJWKS (this : t) : completion (JWKS * t) :=
  let publicKey := TAPSigner.getPublicKey (tapSigner this) in
  let keyId := TAPSigner.getKeyId (tapSigner this) in
  let* currentJWK := ed25519ToJWK publicKey keyId in
  let registeredKeys' := JSMap.set keyId currentJWK (registeredKeys this) in
  Return ({| keys := JSMap.values registeredKeys' |},
          {| tapSigner := tapSigner this; registeredKeys := registeredKeys' |}).

(** [rotateKey(newSigner)]: [updateAgentKey] is the awaited call of the Visa
    client. The result and the registry after the call; when the call
    throws, the registry is as before. *)
Definition rotateKey {R} (updateAgentKey : str -> JWK -> completion R)
  (this : t) (newSigner : TAPSigner.t) : completion (R * t) :=
  let newPublicKey := TAPSigner.getPublicKey newSigner in
  let newKeyId := TAPSigner.getKeyId newSigner in
  let* newJWK := ed25519ToJWK newPublicKey newKeyId in
  let* result := updateAgentKey newKeyId newJWK in
  Return (result,
          {| tapSigner := newSigner;
             registeredKeys := JSMap.set newKeyId newJWK (registeredKeys this) |}).

(** The JWK of the key a signer holds. *)
Definition jwk_of (signer : TAPSigner.t) : JWK :=
  {| kty := lit "OKP"; kid := TAPSigner.getKeyId signer; use := lit "sig";
     alg := lit "EdDSA"; crv := Some (lit "Ed25519");
     x := Some (Base64.base64url_nopad (publicKey (TAPSigner.keyPair signer)));
     n := None; e := None |}.

End VisaKeyRegistry.

(** ** Notions the statements use *)

(** The public key [pk] matches the secret key [sk]: what [sk] signs
    verifies under [pk]. *)
Definition key_matches `{Ed25519} (pk sk : list byte) : Prop :=
  forall msg sig,
    nacl.sign_detached msg sk = Return sig ->
    nacl.sign_detached_verify msg sig pk = Return true.

(** The three lines of the canonical signature base, as section 4.1 of the
    specification writes them. *)
Definition canonical_lines
  (authority path : str) (created : Z) (keyId : str) (expires : Z) (nonce tag : str)
  : list str :=
  [ DQ ++ lit "@authority" ++ DQ ++ lit ": " ++ authority;
    DQ ++ lit "@path" ++ DQ ++ lit ": " ++ path;
    DQ ++ lit "@signature-params" ++ DQ ++ lit ": " ++
      (lit "sig2=(" ++ DQ ++ lit "@authority" ++ DQ ++ lit " " ++ DQ ++ lit "@path" ++ DQ ++ lit ")" ++
       lit ";created=" ++ JS.Number_toString created ++
       lit ";keyid=" ++ DQ ++ keyId ++ DQ ++
       lit ";expires=" ++ JS.Number_toString expires ++
       lit ";nonce=" ++ DQ ++ nonce ++ DQ ++
       lit ";tag=" ++ DQ ++ tag ++ DQ) ].

(** The lines with one separator between each two of them. *)
Fixpoint join (sep : str) (lines : list str) : str :=
  match lines with
  | [] => []
  | [l] => l
  | l :: rest => l ++ sep ++ join sep rest
  end.

(** A stand-in for Ed25519 with the interface of the class, used to run the
    model on concrete inputs: the signature is the public half of the secret
    key and a checksum of the message. It has none of the security of
    Ed25519. *)
Module Standin.

Definition checksum (msg : list byte) : byte :=
  Bs58.byte_of_N (fold_right (fun b acc => (Byte.to_N b + acc) mod 256)%N 0%N msg).

Definition signature_of (pk msg : list byte) : list byte :=
  resize 64 x00 (resize 32 x00 pk ++ [checksum msg]).

Definition ed25519 : Ed25519 := {|
  crypto_sign := fun msg sk => signature_of (drop 32 sk) msg ++ msg;
  crypto_sign_open := fun sm pk => bool_decide (take 64 sm = signature_of pk (drop 64 sm))
|}.

End Standin.

(** The parameters of a [Signature-Input] value as (name, raw value)
    pairs, in the order [signTAPRequest] writes them. *)
Definition signature_fields (created keyId expires nonce tag : str) : list (str * str) :=
  [ (lit "sig2", lit "(" ++ DQ ++ lit "@authority" ++ DQ ++ lit " " ++ DQ ++ lit "@path" ++ DQ ++ lit ")");
    (lit "created", created);
    (lit "keyid", DQ ++ keyId ++ DQ);
    (lit "expires", expires);
    (lit "nonce", DQ ++ nonce ++ DQ);
    (lit "tag", DQ ++ tag ++ DQ) ].

(** The value a list of parameters spells: each written [name=value], with
    [;] between them. *)
Definition render_field (f : str * str) : str := f.1 ++ "="%char :: f.2.

Definition render_fields (fs : list (str * str)) : str :=
  join (lit ";") (map render_field fs).

(** A parameter the parser reads back as written: a name of word
    characters other than [__proto__], and a value that is not empty and has
    neither [;] nor [=]. *)
Definition plain_field (f : str * str) : Prop :=
  f.1 <> [] /\ Forall (fun c => TapRoutes.is_word c = true) f.1 /\
  f.1 <> lit "__proto__" /\
  f.2 <> [] /\ (";"%char ∉ f.2) /\ ("="%char ∉ f.2).

(** A string with none of the characters [;], [=] and the double quote. *)
Definition plain (s : str) : Prop :=
  (";"%char ∉ s) /\ ("="%char ∉ s) /\ ("034"%char ∉ s).

(** The part of [s] before its first [c] (all of [s] when it has none):
    the first element of [s.split(c)]. *)
Definition before (c : ascii) (s : str) : str := hd [] (JS.split c s).

(** The characters of a rendered integer. *)
Definition numeral_char (c : ascii) : Prop := c ∈ lit "0123456789-".

(** What the [forEach] of the parser leaves in [params] for parameters it
    reads back as written. *)
Definition assign (params : gmap str str) (f : str * str) : gmap str str :=
  <[f.1 := JS.remove_char "034"%char f.2]> params.

(** ** Concrete inputs *)

Module Sample.

Definition secretKeyA : list byte := replicate 32 x07 ++ replicate 32 x2a.
Definition secretKeyB : list byte := replicate 32 x09 ++ replicate 32 x51.

Definition keyPairA : KeyPair :=
  {| publicKey := drop 32 secretKeyA; secretKey := secretKeyA |}.
Definition keyPairB : KeyPair :=
  {| publicKey := drop 32 secretKeyB; secretKey := secretKeyB |}.

Definition signerA : TAPSigner.t :=
  {| TAPSigner.keyPair := keyPairA; TAPSigner.keyId := TAPSigner.generateKeyId keyPairA |}.
Definition signerB : TAPSigner.t :=
  {| TAPSigner.keyPair := keyPairB; TAPSigner.keyId := TAPSigner.generateKeyId keyPairB |}.

(** 2023-11-14T22:13:20.123Z *)
Definition now : Z := 1700000000123.

Definition request : TAPRequestData :=
  {| authority := lit "merchant.example"; path := lit "/checkout"; method := lit "POST";
     keyId := TAPSigner.getKeyId signerA; nonce := lit "AAAA"; tag := agent_payer_auth |}.

Definition base : str :=
  TAPSigner.createSignatureBase (authority request) (path request) 1700000000
    (keyId request) 1700000480 (nonce request) (Tag_string (tag request)).

(** The parameters of a [Signature-Input] value, last one first. *)
Definition reversed_fields : list (str * str) :=
  rev (signature_fields (JS.Number_toString 1700000000) (lit "kid-1")
         (JS.Number_toString 1700000480) (lit "AAAA") (Tag_string agent_payer_auth)).

(** The parameters as an object. *)
Definition params : gmap str str :=
  list_to_map
    [ (lit "tag", lit "agent-payer-auth"); (lit "nonce", lit "AAAA");
      (lit "expires", lit "1700000480"); (lit "keyid", lit "kid-1");
      (lit "created", lit "1700000000") ].

(** A registry that has served its key set once, and the same registry
    after a rotation to [signerB] that the Visa client accepted. *)
Definition served : completion (VisaKeyRegistry.JWKS * VisaKeyRegistry.t) :=
  VisaKeyRegistry.getJWKS (VisaKeyRegistry.new signerA).

Definition rotated : completion (VisaKeyRegistry.JWKS * VisaKeyRegistry.t) :=
  let* first := served in
  let* second := VisaKeyRegistry.rotateKey (fun _ _ => Return tt) first.2 signerB in
  VisaKeyRegistry.getJWKS second.2.

End Sample.

(** ** tapRoutes.ts: the handlers of [/sign] and [/verify] *)

(** [Buffer.from(text, 'base64')] of Node. *)
Class BufferBase64 : Type := Buffer_from_base64 : str -> list byte.

(** What a handler sends: [res.status(status).json(body)]; [res.json(body)]
    sends the status 200. *)
Record Response (B : Type) : Type := { status : nat; json : B }.
Arguments status {B} _.
Arguments json {B} _.

Module Handlers.

(** The bodies [/sign] sends: [{ error }] or
    [{ signature, keyId, nonce, publicKey }]. *)
Inductive SignBody : Type :=
| SignError (error : str)
| SignResult (signature : TAPSignature) (keyId nonce publicKey : str).

(** [tapSigner.signTAPRequest({ authority, path, method: 'GET', keyId,
    nonce, tag })] as the handler calls it. The [tag] is the string the
    body carries, whatever it is: its declared type is not checked when
    the program runs. The steps are those of [TAPSigner.signTAPRequest],
    which signs with the key id of the signer. *)
Definition signTAPRequest_call `{Ed25519} (this : TAPSigner.t) (now : Z)
  (authority path nonce tag : str) : completion TAPSignature :=
  let created := (now / 1000)%Z in
  let expires := (created + 480)%Z in
  let signatureInput_ :=
    TAPSigner.signatureInput created (TAPSigner.keyId this) expires nonce tag in
  let signatureBase :=
    TAPSigner.createSignatureBase authority path created (TAPSigner.keyId this) expires
      nonce tag in
  let* signature :=
    nacl.sign_detached (TextEncoder_encode signatureBase)
      (secretKey (TAPSigner.keyPair this)) in
  let* signatureB64 := TAPSigner.base64UrlEncode signature in
  Return {| Signature_Input := signatureInput_;
            Signature := lit "sig2=:" ++ signatureB64 ++ lit ":" |}.

(** [router.post('/sign', ...)]: the fields of [req.body], strings or not
    there, the reading of the clock and the bytes [crypto.randomBytes]
    gives. *)
Definition post_sign `{Ed25519} (tapSigner : TAPSigner.t) (now : Z) (randomBytes : list byte)
  (authority_ path_ tag_ : option str) : Response SignBody :=
  let attempt : completion (Response SignBody) :=
    if negb (truthy authority_) || negb (truthy path_) || negb (truthy tag_) then
      Return {| status := 400;
                json := SignError (lit "Missing required fields: authority, path, tag") |}
    else
      let nonce_ := TapRoutes.nonce_of randomBytes in
      let* signature :=
        signTAPRequest_call tapSigner now (default [] authority_) (default [] path_)
          nonce_ (default [] tag_) in
      Return {| status := 200;
                json := SignResult signature (TAPSigner.getKeyId tapSigner) nonce_
                          (TAPSigner.getPublicKey tapSigner) |}
  in
  match attempt with
  | Return response => response
  | Throw _ => {| status := 500; json := SignError (lit "Failed to sign request") |}
  end.

(** The bodies [/verify] sends: [{ error }] or
    [{ valid, keyId, timestamp, expires }], a property that is [undefined]
    being left out. *)
Inductive VerifyBody : Type :=
| VerifyError (error : str)
| VerifyResult (valid : bool) (keyId timestamp expires : option str).

(** [router.post('/verify', ...)]: the fields of [req.body], strings or not
    there. *)
Definition post_verify `{Ed25519} {buffer : BufferBase64} (tapSigner : TAPSigner.t)
  (signatureInput signature authority_ path_ publicKey_ : option str) : Response VerifyBody :=
  let attempt : completion (Response VerifyBody) :=
    if negb (truthy signatureInput) || negb (truthy signature) ||
       negb (truthy authority_) || negb (truthy path_) then
      Return {| status := 400;
                json := VerifyError (lit "Missing required verification fields") |}
    else
      let* params := TapRoutes.parseSignatureInput (default [] signatureInput) in
      let signatureBase :=
        TapRoutes.createSignatureBase (default [] authority_) (default [] path_) params in
      let pubKeyBytes :=
        if truthy publicKey_ then Buffer_from_base64 (default [] publicKey_)
        else Buffer_from_base64 (TAPSigner.getPublicKey tapSigner) in
      let* isValid :=
        TapRoutes.verify tapSigner signatureBase (default [] signature) pubKeyBytes in
      Return {| status := 200;
                json := VerifyResult isValid (params !! lit "keyid") (params !! lit "created")
                          (params !! lit "expires") |}
  in
  match attempt with
  | Return response => response
  | Throw _ => {| status := 500; json := VerifyError (lit "Failed to verify signature") |}
  end.

End Handlers.

(** ** routes/wellKnown.ts: the handler of [/.well-known/jwks] *)

Module WellKnown.

Inductive JwksBody : Type :=
| JwksError (error : str)
| JwksResult (jwks : VisaKeyRegistry.JWKS).

(** [router.get('/.well-known/jwks', ...)]: what is sent, the
    [Cache-Control] header when one is set, and the registry after the
    call. *)
Definition get_jwks (keyRegistry : VisaKeyRegistry.t)
  : Response JwksBody * option str * VisaKeyRegistry.t :=
  match VisaKeyRegistry.getJWKS keyRegistry with
  | Return (jwks, keyRegistry') =>
      ({| status := 200; json := JwksResult jwks |},
       Some (lit "public, max-age=3600"), keyRegistry')
  | Throw _ =>
      ({| status := 500; json := JwksError (lit "Failed to retrieve public keys") |},
       None, keyRegistry)
  end.

End WellKnown.

(** ** Platform functions: [parseInt], [encodeURIComponent], [crypto] *)

Module Builtin.

(** The characters [parseInt] skips at the front: WhiteSpace and
    LineTerminator below U+0100. *)
Definition is_StrWhiteSpaceChar (c : ascii) : bool :=
  let n := N_of_ascii c in
  ((9 <=? n) && (n <=? 13) || (n =? 32) || (n =? 160))%N.

Fixpoint trimStart (s : str) : str :=
  match s with
  | c :: s' => if is_StrWhiteSpaceChar c then trimStart s' else s
  | [] => []
  end.

(** The value of [c] as a digit of the given radix. *)
Definition digit_value (radix : N) (c : ascii) : option N :=
  let n := N_of_ascii c in
  let v := if ((48 <=? n) && (n <=? 57))%N then Some (n - 48)%N
           else if ((97 <=? n) && (n <=? 122))%N then Some (n - 87)%N
           else if ((65 <=? n) && (n <=? 90))%N then Some (n - 55)%N
           else None in
  match v with
  | Some d => if (d <? radix)%N then Some d else None
  | None => None
  end.

(** The digits at the front of [s]. *)
Fixpoint digits_prefix (radix : N) (s : str) : list N :=
  match s with
  | c :: s' =>
      match digit_value radix c with
      | Some d => d :: digits_prefix radix s'
      | None => []
      end
  | [] => []
  end.

Definition sign_of (s : str) : Z :=
  match s with
  | c :: _ => if Ascii.eqb c "-"%char then (-1)%Z else 1%Z
  | [] => 1%Z
  end.

Definition strip_sign (s : str) : str :=
  match s with
  | c :: s' => if Ascii.eqb c "-"%char || Ascii.eqb c "+"%char then s' else s
  | [] => []
  end.

Definition has_hex_prefix (s : str) : bool :=
  match s with
  | c0 :: c1 :: _ => Ascii.eqb c0 "0"%char && (Ascii.eqb c1 "x"%char || Ascii.eqb c1 "X"%char)
  | _ => false
  end.

(** [parseInt(s)] with no radix given; [None] is [NaN]. The result is the
    integer the digits spell, which JavaScript rounds to a double. *)
Definition parseInt (s : str) : option Z :=
  let s1 := trimStart s in
  let sign := sign_of s1 in
  let s2 := strip_sign s1 in
  let radix : N := if has_hex_prefix s2 then 16%N else 10%N in
  let s3 := if has_hex_prefix s2 then drop 2 s2 else s2 in
  match digits_prefix radix s3 with
  | [] => None
  | ds => Some (sign * Z.of_N (Bs58.from_digits radix ds))%Z
  end.

(** The characters [encodeURIComponent] leaves as they are. *)
Definition uri_unreserved (c : ascii) : bool :=
  let n := N_of_ascii c in
  ((65 <=? n) && (n <=? 90) || (97 <=? n) && (n <=? 122) || (48 <=? n) && (n <=? 57))%N ||
  bool_decide (c ∈ lit "-_.!~*'()").

Definition upper_hex_digit (n : N) : ascii := nth (N.to_nat n) (lit "0123456789ABCDEF") "0"%char.

(** [encodeURIComponent(s)]: every other character becomes the bytes of
    its UTF-8 form, each written [%XX]. *)
Definition encodeURIComponent (s : str) : str :=
  flat_map (fun c =>
    if uri_unreserved c then [c]
    else flat_map (fun b => let n := Byte.to_N b in
                            ["%"%char; upper_hex_digit (n / 16); upper_hex_digit (n mod 16)])
           (TextEncoder_encode [c])) s.

End Builtin.

(** HMAC-SHA256 of Node's [crypto]: the digest of a message under a key. *)
Class HmacSha256 : Type := hmac_sha256 : list byte -> list byte -> list byte.

Module crypto.

Definition hex_digit (n : N) : ascii := nth (N.to_nat n) (lit "0123456789abcdef") "0"%char.

(** [digest('hex')] *)
Definition hex (bytes : list byte) : str :=
  flat_map (fun b => let n := Byte.to_N b in [hex_digit (n / 16); hex_digit (n mod 16)]) bytes.

(** [crypto.createHmac('sha256', key).update(message).digest('hex')] for
    a key and a message that are strings. *)
Definition createHmac_sha256_hex `{HmacSha256} (key message : str) : str :=
  hex (hmac_sha256 (TextEncoder_encode key) (TextEncoder_encode message)).

(** [crypto.timingSafeEqual(a, b)]: a RangeError when the lengths
    differ. *)
Definition timingSafeEqual (a b : list byte) : completion bool :=
  if (length a =? length b)%nat then Return (bool_decide (a = b))
  else Throw (Error "Input buffers must have the same byte length").

End crypto.

(** ** visaAuth.ts *)

Module VisaAuth.

Record t : Type := { apiKey : str; sharedSecret : str }.

(** [a || b || ''] *)
Definition or_else (a b : option str) : str :=
  if truthy a then default [] a else if truthy b then default [] b else [].

(** [new VisaAuth(apiKey?, sharedSecret?)], with the two variables of the
    environment the constructor reads. *)
Definition new (apiKey_ sharedSecret_ VISA_API_KEY VISA_SHARED_SECRET : option str) : t :=
  {| apiKey := or_else apiKey_ VISA_API_KEY;
     sharedSecret := or_else sharedSecret_ VISA_SHARED_SECRET |}.

(** The value of a query parameter: [undefined], [null], a string, or a
    value of another type (a number, a boolean, an array) with the string
    [String(value)] gives for it. *)
Inductive QueryValue : Type :=
| undefined
| null
| text (s : str)
| other (string_form : str).

(** The query parameters: the own properties of the object in the order
    [Object.keys] lists them, their names distinct. *)
Abbreviation QueryParams := (list (str * QueryValue)).

(** [params[key]] *)
Fixpoint get (params : QueryParams) (key : str) : QueryValue :=
  match params with
  | [] => undefined
  | (k, v) :: rest => if decide (k = key) then v else get rest key
  end.

(** The order of [Array.prototype.sort] without a comparator: strings by
    their code units. *)
Fixpoint str_leb (a b : str) : bool :=
  match a, b with
  | [], _ => true
  | _ :: _, [] => false
  | x :: a', y :: b' =>
      if (N_of_ascii x <? N_of_ascii y)%N then true
      else if (N_of_ascii x =? N_of_ascii y)%N then str_leb a' b'
      else false
  end.

Definition str_le (a b : str) : Prop := str_leb a b = true.

#[global] Instance str_le_dec (a b : str) : Decision (str_le a b) :=
  decide (str_leb a b = true).

Definition is_set (v : QueryValue) : bool :=
  match v with
  | undefined | null => false
  | text _ | other _ => true
  end.

(** [String(value)], which [encodeURIComponent] applies to its argument. *)
Definition toString (v : QueryValue) : str :=
  match v with
  | undefined => lit "undefined"
  | null => lit "null"
  | text s => s
  | other string_form => string_form
  end.

(** The template literal of a pair. *)
Definition queryPair (params : QueryParams) (key : str) : str :=
  key ++ lit "=" ++ Builtin.encodeURIComponent (toString (get params key)).

Definition createQueryString (params : QueryParams) : str :=
  if (length (map fst params) =? 0)%nat then []
  else
    let sortedKeys := merge_sort str_le (map fst params) in
    let queryPairs :=
      map (queryPair params) (filter (fun key => is_set (get params key) = true) sortedKeys) in
    if (0 <? length queryPairs)%nat then lit "?" ++ join (lit "&") queryPairs else [].

(** The request body: a value that is falsy and not a string ([null],
    [undefined]), a string, or another truthy value (an object) with what
    [JSON.stringify] gives for it. *)
Inductive RequestBody : Type :=
| no_body
| body_string (s : str)
| body_value (stringified : str).

(** [requestBody ? (typeof requestBody === 'string' ? requestBody :
    JSON.stringify(requestBody)) : ''] *)
Definition bodyString (requestBody : RequestBody) : str :=
  match requestBody with
  | no_body => []
  | body_string s => s
  | body_value stringified => stringified
  end.

(** [now] is the reading of [Date.now()], in milliseconds. *)
Definition generateXPayToken `{HmacSha256} (this : t) (now : Z) (resourcePath : str)
  (queryParams : QueryParams) (requestBody : RequestBody) : str :=
  let timestamp := (now / 1000)%Z in
  let queryString := createQueryString queryParams in
  let message :=
    JS.Number_toString timestamp ++ resourcePath ++ queryString ++ bodyString requestBody in
  let hash := crypto.createHmac_sha256_hex (sharedSecret this) message in
  lit "xv2:" ++ JS.Number_toString timestamp ++ lit ":" ++ hash.

(** [Math.abs(currentTime - tokenTime) > 300]; a comparison with [NaN] is
    false. For a clock reading a [Date] can hold, a token time too large
    to be a double exactly is outside the window before and after its
    rounding. *)
Definition outside_window (currentTime : Z) (tokenTime : option Z) : bool :=
  match tokenTime with
  | Some tokenTime => (300 <? Z.abs (currentTime - tokenTime))%Z
  | None => false
  end.

Definition verifyXPayToken `{HmacSha256} (this : t) (now : Z) (token resourcePath : str)
  (queryParams : QueryParams) (requestBody : RequestBody) : completion bool :=
  try_catch
    (let parts := JS.split ":"%char token in
     if negb (length parts =? 3)%nat || negb (bool_decide (nth 0 parts [] = lit "xv2"))
     then Return false
     else
       let timestamp := nth 1 parts [] in
       let receivedHash := nth 2 parts [] in
       let currentTime := (now / 1000)%Z in
       let tokenTime := Builtin.parseInt timestamp in
       if outside_window currentTime tokenTime then Return false
       else
         let queryString := createQueryString queryParams in
         let message := timestamp ++ resourcePath ++ queryString ++ bodyString requestBody in
         let expectedHash := crypto.createHmac_sha256_hex (sharedSecret this) message in
         crypto.timingSafeEqual (TextEncoder_encode receivedHash)
           (TextEncoder_encode expectedHash))
    (fun _ => Return false).

Definition isConfigured (this : t) : bool :=
  truthy (Some (apiKey this)) && truthy (Some (sharedSecret this)).

Definition getMaskedApiKey (this : t) : str :=
  if negb (truthy (Some (apiKey this))) then lit "NOT_CONFIGURED"
  else take 8 (apiKey this) ++ lit "..." ++ drop (length (apiKey this) - 4) (apiKey this).

End VisaAuth.

(** ** Further notions the statements use *)

(** The [Signature-Input] header value as the wire format of the
    specification writes it:
    [sig2=("@authority" "@path");created=<int>;keyid="<string>";expires=<int>;nonce="<string>";tag="<tag>"]. *)
Definition wire_signature_input
  (created : Z) (keyId : str) (expires : Z) (nonce tag : str) : str :=
  lit "sig2=(" ++ DQ ++ lit "@authority" ++ DQ ++ lit " " ++ DQ ++ lit "@path" ++ DQ ++ lit ")" ++
  lit ";created=" ++ JS.Number_toString created ++
  lit ";keyid=" ++ DQ ++ keyId ++ DQ ++
  lit ";expires=" ++ JS.Number_toString expires ++
  lit ";nonce=" ++ DQ ++ nonce ++ DQ ++
  lit ";tag=" ++ DQ ++ tag ++ DQ.

(** The entries of the registry are told apart by their keys, and each JWK
    is stored under its own [kid]. *)
Definition registry_well_formed (this : VisaKeyRegistry.t) : Prop :=
  NoDup (map fst (VisaKeyRegistry.registeredKeys this)) /\
  Forall (fun entry => VisaKeyRegistry.kid entry.2 = entry.1)
    (VisaKeyRegistry.registeredKeys this).

(** The hash [generateXPayToken] and [verifyXPayToken] compute for a
    timestamp as the token writes it. *)
Definition xpay_hash `{HmacSha256} (this : VisaAuth.t) (timestamp resourcePath : str)
  (queryParams : VisaAuth.QueryParams) (requestBody : VisaAuth.RequestBody) : str :=
  crypto.createHmac_sha256_hex (VisaAuth.sharedSecret this)
    (timestamp ++ resourcePath ++ VisaAuth.createQueryString queryParams ++
     VisaAuth.bodyString requestBody).

(** The digits of a decimal numeral, most significant first. *)
Fixpoint uint_digits (d : Decimal.uint) : list N :=
  match d with
  | Decimal.Nil => []
  | Decimal.D0 d => 0%N :: uint_digits d
  | Decimal.D1 d => 1%N :: uint_digits d
  | Decimal.D2 d => 2%N :: uint_digits d
  | Decimal.D3 d => 3%N :: uint_digits d
  | Decimal.D4 d => 4%N :: uint_digits d
  | Decimal.D5 d => 5%N :: uint_digits d
  | Decimal.D6 d => 6%N :: uint_digits d
  | Decimal.D7 d => 7%N :: uint_digits d
  | Decimal.D8 d => 8%N :: uint_digits d
  | Decimal.D9 d => 9%N :: uint_digits d
  end.

(** One character read back from the front of an encoded text: what
    [decodeURIComponent] does with the output of [encodeURIComponent]. *)
Definition hex_value (c : ascii) : N := default 0%N (Builtin.digit_value 16 c).

Definition read_encoded (s : str) : option (ascii * str) :=
  match s with
  | c :: h1 :: h2 :: rest =>
      if Ascii.eqb c "%"%char then
        let b := (16 * hex_value h1 + hex_value h2)%N in
        if (b <? 128)%N then Some (ascii_of_N b, rest)
        else
          match rest with
          | _ :: h3 :: h4 :: rest' =>
              let b' := (16 * hex_value h3 + hex_value h4)%N in
              Some (ascii_of_N ((b - 192) * 64 + (b' - 128)), rest')
          | _ => None
          end
      else Some (c, h1 :: h2 :: rest)
  | c :: rest => if Ascii.eqb c "%"%char then None else Some (c, rest)
  | [] => None
  end.

(** A stand-in for [Buffer.from(text, 'base64')] with the interface of the
    class, used to run the model on concrete inputs: the characters of
    either alphabet before the first [=], read as sextets. *)
Definition standin_Buffer_from_base64 : BufferBase64 :=
  fun text =>
    map Bs58.byte_of_N
      (Base64.octets_of_sextets
         (omap (fun c => Base64.sextet_of_char (Base64.unurl_char c))
            (TapRoutes.span (fun c => negb (Ascii.eqb c "="%char)) text).1)).

(** A stand-in for HMAC-SHA256 with the interface of the class, used to
    run the model on concrete inputs: a checksum of the key and the
    message. It has none of the security of HMAC. *)
Definition standin_hmac_sha256 : HmacSha256 :=
  fun key message => [Standin.checksum (key ++ message)].

Module Inputs.

(** The public key of [signerA] as the [publicKey] field of a [/verify]
    body carries it. *)
Definition publicKeyTextA : str :=
  Base64.Buffer_toString_base64 (publicKey Sample.keyPairA).

(** Two values of [keyid] in one [Signature-Input]. *)
Definition repeated_fields : list (str * str) :=
  [ (lit "keyid", DQ ++ lit "kid-1" ++ DQ); (lit "created", lit "1700000000");
    (lit "keyid", DQ ++ lit "kid-2" ++ DQ) ].


Definition visaAuth : VisaAuth.t :=
  {| VisaAuth.apiKey := lit "abcdef"; VisaAuth.sharedSecret := lit "s3cret" |}.

(** A token whose timestamp is not a number. *)
Definition undated_token : str :=
  lit "xv2:never:" ++
  xpay_hash (H := standin_hmac_sha256) visaAuth (lit "never") (lit "/webhook") []
    VisaAuth.no_body.

(** The properties of one object, written in two orders. *)
Definition queryParams : VisaAuth.QueryParams :=
  [ (lit "limit", VisaAuth.text (lit "10")); (lit "cursor", VisaAuth.null);
    (lit "agent", VisaAuth.text (lit "pocket lp")) ].

(** The objects [{ a: "1" }] and [{ a: 1 }]. *)
Definition one_as_text : VisaAuth.QueryParams := [ (lit "a", VisaAuth.text (lit "1")) ].
Definition one_as_number : VisaAuth.QueryParams := [ (lit "a", VisaAuth.other (lit "1")) ].

End Inputs.

(** * Properties *)

(** ** Lists taken three elements at a time *)

Lemma list_ind3 {A} (P : list A -> Prop) :
  P [] -> (forall a, P [a]) -> (forall a b, P [a; b]) ->
  (forall a b c l, P l -> P (a :: b :: c :: l)) ->
  forall l, P l.
Proof.
  intros H0 H1 H2 H3 l.
  cut (P l /\ (forall a, P (a :: l)) /\ (forall a b, P (a :: b :: l))); [tauto|].
  induction l as [|y l (IH0 & IH1 & IH2)]; repeat split; auto.
Qed.

(** ** Base64 *)

Section Base64_facts.
Import Base64.

Lemma sextet_head (a : N) : (a < 256 -> a / 4 < 64)%N.
Proof. intros. zify. Z.to_euclidean_division_equations. lia. Qed.

Lemma sextet_mid1 (a b : N) : (b < 256 -> (a mod 4) * 16 + b / 16 < 64)%N.
Proof. intros. zify. Z.to_euclidean_division_equations. lia. Qed.

Lemma sextet_mid2 (b c : N) : (c < 256 -> (b mod 16) * 4 + c / 64 < 64)%N.
Proof. intros. zify. Z.to_euclidean_division_equations. lia. Qed.

Lemma sextet_tail (c : N) : (c mod 64 < 64)%N.
Proof. zify. Z.to_euclidean_division_equations. lia. Qed.

Lemma octet_first (a b : N) : (b < 256 -> (a / 4) * 4 + ((a mod 4) * 16 + b / 16) / 16 = a)%N.
Proof. intros. zify. Z.to_euclidean_division_equations. lia. Qed.

Lemma octet_second (a b c : N) :
  (b < 256 -> c < 256 ->
   (((a mod 4) * 16 + b / 16) mod 16) * 16 + ((b mod 16) * 4 + c / 64) / 4 = b)%N.
Proof. intros. zify. Z.to_euclidean_division_equations. lia. Qed.

Lemma octet_third (b c : N) :
  (c < 256 -> (((b mod 16) * 4 + c / 64) mod 4) * 64 + c mod 64 = c)%N.
Proof. intros. zify. Z.to_euclidean_division_equations. lia. Qed.

Lemma octet_first_last (a : N) : (a / 4 * 4 + (a mod 4) * 16 / 16 = a)%N.
Proof. zify. Z.to_euclidean_division_equations. lia. Qed.

Lemma octet_second_last (a b : N) :
  (b < 256 -> (((a mod 4) * 16 + b / 16) mod 16) * 16 + (b mod 16) * 4 / 4 = b)%N.
Proof. intros. zify. Z.to_euclidean_division_equations. lia. Qed.

Lemma sextet_last1 (a : N) : ((a mod 4) * 16 < 64)%N.
Proof. zify. Z.to_euclidean_division_equations. lia. Qed.

Lemma sextet_last2 (b : N) : ((b mod 16) * 4 < 64)%N.
Proof. zify. Z.to_euclidean_division_equations. lia. Qed.

Lemma sextets_of_octets_bound (l : list N) :
  Forall octet l -> Forall sextet (sextets_of_octets l).
Proof.
  unfold octet, sextet. induction l as [|a|a b|a b c l IH] using list_ind3; intros Hl.
  - constructor.
  - inversion_clear Hl. cbn [sextets_of_octets].
    repeat constructor; auto using sextet_head, sextet_last1.
  - inversion_clear Hl as [|? ? Ha Hl']. inversion_clear Hl'.
    cbn [sextets_of_octets].
    repeat constructor; auto using sextet_head, sextet_mid1, sextet_last2.
  - inversion_clear Hl as [|? ? Ha Hl']. inversion_clear Hl' as [|? ? Hb Hl''].
    inversion_clear Hl'' as [|? ? Hc Hl].
    cbn [sextets_of_octets].
    repeat (constructor; [solve [auto using sextet_head, sextet_mid1, sextet_mid2, sextet_tail]|]).
    auto.
Qed.

Lemma octets_of_sextets_of_octets (l : list N) :
  Forall octet l -> octets_of_sextets (sextets_of_octets l) = l.
Proof.
  unfold octet. induction l as [|a|a b|a b c l IH] using list_ind3; intros Hl.
  - reflexivity.
  - cbn [sextets_of_octets octets_of_sextets]. by rewrite octet_first_last.
  - inversion_clear Hl as [|? ? Ha Hl']. inversion_clear Hl' as [|? ? Hb _].
    cbn [sextets_of_octets octets_of_sextets].
    by rewrite octet_first, octet_second_last.
  - inversion_clear Hl as [|? ? Ha Hl']. inversion_clear Hl' as [|? ? Hb Hl''].
    inversion_clear Hl'' as [|? ? Hc Hl].
    cbn [sextets_of_octets octets_of_sextets].
    rewrite octet_first, octet_second, octet_third, IH; auto.
Qed.

(** The number of sextets of [3q], [3q+1] and [3q+2] octets. *)
Lemma sextets_of_octets_length (l : list N) :
  exists q : nat,
    length l = (3 * q)%nat /\ length (sextets_of_octets l) = (4 * q)%nat \/
    length l = (3 * q + 1)%nat /\ length (sextets_of_octets l) = (4 * q + 2)%nat \/
    length l = (3 * q + 2)%nat /\ length (sextets_of_octets l) = (4 * q + 3)%nat.
Proof.
  induction l as [|a|a b|a b c l [q IH]] using list_ind3.
  - exists 0%nat. auto.
  - exists 0%nat. auto.
  - exists 0%nat. auto.
  - exists (S q). cbn [sextets_of_octets length]. lia.
Qed.

End Base64_facts.

Section Base64_characters.
Import Base64.

(** A check of every number below [m]. *)
Lemma below (m : nat) (f : N -> bool) :
  forallb f (map N.of_nat (seq 0 m)) = true ->
  forall k, (k < N.of_nat m)%N -> f k = true.
Proof.
  rewrite forallb_forall. intros Hf k Hk. apply Hf, in_map_iff.
  exists (N.to_nat k). split; [lia|]. apply in_seq. lia.
Qed.

Lemma below_64 (f : N -> bool) :
  forallb f (map N.of_nat (seq 0 64)) = true -> forall k, sextet k -> f k = true.
Proof. intros Hf k Hk. by apply (below 64). Qed.

Lemma sextet_of_char_of_sextet (k : N) :
  sextet k -> sextet_of_char (char_of_sextet k) = Some k.
Proof.
  intros Hk.
  apply (below_64 (fun k => bool_decide (sextet_of_char (char_of_sextet k) = Some k))) in Hk;
    [by apply bool_decide_eq_true in Hk | by vm_compute].
Qed.

Lemma b64char_not_padding (c : ascii) : b64char c -> c <> "="%char.
Proof.
  intros (k & Hk & ->).
  apply (below_64 (fun k => bool_decide (char_of_sextet k <> "="%char))) in Hk;
    [by apply bool_decide_eq_true in Hk | by vm_compute].
Qed.

Lemma b64char_not_whitespace (c : ascii) : b64char c -> is_ascii_whitespace c = false.
Proof.
  intros (k & Hk & ->).
  apply (below_64 (fun k => bool_decide (is_ascii_whitespace (char_of_sextet k) = false))) in Hk;
    [by apply bool_decide_eq_true in Hk | by vm_compute].
Qed.

Lemma unurl_url_char (c : ascii) : b64char c -> unurl_char (url_char c) = c.
Proof.
  intros (k & Hk & ->).
  apply (below_64 (fun k => bool_decide
           (unurl_char (url_char (char_of_sextet k)) = char_of_sextet k))) in Hk;
    [by apply bool_decide_eq_true in Hk | by vm_compute].
Qed.

Lemma url_char_not_padding (c : ascii) : b64char c -> url_char c <> "="%char.
Proof.
  intros (k & Hk & ->).
  apply (below_64 (fun k => bool_decide (url_char (char_of_sextet k) <> "="%char))) in Hk;
    [by apply bool_decide_eq_true in Hk | by vm_compute].
Qed.

End Base64_characters.

Section Base64_round_trip.
Import Base64.

Lemma filter_all {A} (P : A -> Prop) `{forall a, Decision (P a)} (l : list A) :
  Forall P l -> filter P l = l.
Proof.
  induction 1 as [|a l Ha _ IH]; [done|].
  by rewrite filter_cons_True, IH.
Qed.

Lemma filter_none {A} (P : A -> Prop) `{forall a, Decision (P a)} (l : list A) :
  Forall (fun a => ~ P a) l -> filter P l = [].
Proof.
  induction 1 as [|a l Ha _ IH]; [done|].
  by rewrite filter_cons_False.
Qed.

Lemma body_b64char (s : str) : Forall b64char (body s).
Proof.
  unfold body. apply Forall_map.
  eapply Forall_impl; [apply sextets_of_octets_bound|].
  - apply Forall_map, Forall_forall. intros c _. apply N_ascii_bounded.
  - intros k Hk. by exists k.
Qed.

Lemma body_length (s : str) :
  exists q : nat,
    length s = (3 * q)%nat /\ length (body s) = (4 * q)%nat \/
    length s = (3 * q + 1)%nat /\ length (body s) = (4 * q + 2)%nat \/
    length s = (3 * q + 2)%nat /\ length (body s) = (4 * q + 3)%nat.
Proof.
  unfold body. rewrite length_map.
  destruct (sextets_of_octets_length (map N_of_ascii s)) as [q Hq].
  rewrite length_map in Hq. by exists q.
Qed.

(** The padding [encode] adds is the one [base64UrlDecode] puts back. *)
Lemma padding_length (s : str) :
  ((3 - length s mod 3) mod 3 = (4 - length (body s) mod 4) mod 4)%nat.
Proof.
  destruct (body_length s) as [q [[-> ->]|[[-> ->]|[-> ->]]]].
  - rewrite (Nat.mul_comm 3), (Nat.mul_comm 4), !Nat.Div0.mod_mul. done.
  - rewrite (Nat.mul_comm 3), (Nat.mul_comm 4), !(Nat.add_comm (q * _)), !Nat.Div0.mod_add. done.
  - rewrite (Nat.mul_comm 3), (Nat.mul_comm 4), !(Nat.add_comm (q * _)), !Nat.Div0.mod_add. done.
Qed.

Lemma padding_at_most_2 (s : str) : ((4 - length (body s) mod 4) mod 4 <= 2)%nat.
Proof.
  destruct (body_length s) as [q [[_ ->]|[[_ ->]|[_ ->]]]].
  - rewrite (Nat.mul_comm 4), Nat.Div0.mod_mul. cbn. lia.
  - rewrite (Nat.mul_comm 4), (Nat.add_comm (q * _)), Nat.Div0.mod_add. cbn. lia.
  - rewrite (Nat.mul_comm 4), (Nat.add_comm (q * _)), Nat.Div0.mod_add. cbn. lia.
Qed.

Lemma body_length_mod_4 (s : str) : (length (body s) mod 4 =? 1)%nat = false.
Proof.
  destruct (body_length s) as [q [[_ ->]|[[_ ->]|[_ ->]]]].
  - by rewrite (Nat.mul_comm 4), Nat.Div0.mod_mul.
  - by rewrite (Nat.mul_comm 4), (Nat.add_comm (q * _)), Nat.Div0.mod_add.
  - by rewrite (Nat.mul_comm 4), (Nat.add_comm (q * _)), Nat.Div0.mod_add.
Qed.

Lemma padded_length_mod_4 (n : nat) : ((n + (4 - n mod 4) mod 4) mod 4 =? 0)%nat = true.
Proof.
  apply Nat.eqb_eq.
  rewrite <- Nat.Div0.add_mod_idemp_l.
  pose proof (Nat.mod_upper_bound n 4 ltac:(lia)) as Hr.
  destruct (n mod 4) as [|[|[|[|r]]]]; try reflexivity; lia.
Qed.

Lemma eqb_padding (c : ascii) : b64char c -> Ascii.eqb c "="%char = false.
Proof. intros Hc. apply Ascii.eqb_neq. by apply b64char_not_padding. Qed.

Lemma remove_padding_body (b : str) (k : nat) :
  Forall b64char b -> (k <= 2)%nat -> remove_padding (b ++ replicate k "="%char) = b.
Proof.
  intros Hb Hk. unfold remove_padding. rewrite rev_app_distr.
  assert (Hrev : Forall b64char (rev b)).
  { apply Forall_forall. intros c Hc. rewrite Forall_forall in Hb.
    apply Hb. by apply list_elem_of_In, in_rev, list_elem_of_In. }
  destruct k as [|[|[|k]]]; [| | |lia]; cbn [replicate rev app].
  - rewrite app_nil_r.
    destruct (rev b) as [|c1 [|c2 r]] eqn:Hr; [done| |];
      inversion_clear Hrev as [|? ? Hc1 _]; by rewrite (eqb_padding c1).
  - destruct (rev b) as [|c2 r] eqn:Hr; cbn.
    + apply (f_equal (@rev _)) in Hr. by rewrite rev_involutive in Hr.
    + inversion_clear Hrev as [|? ? Hc2 _]. rewrite (eqb_padding c2) by done.
      change (rev r ++ [c2]) with (rev (c2 :: r)). by rewrite <- Hr, rev_involutive.
  - cbn. apply rev_involutive.
Qed.

(** [atob] of a body and the padding that completes it is the string the
    body encodes. *)
Lemma atob_body (s : str) :
  atob (body s ++ replicate ((4 - length (body s) mod 4) mod 4) "="%char) = Return s.
Proof.
  unfold atob.
  rewrite filter_all.
  2:{ apply Forall_app. split.
      - eapply Forall_impl; [apply body_b64char|]. apply b64char_not_whitespace.
      - by apply Forall_replicate. }
  rewrite length_app, length_replicate, padded_length_mod_4.
  rewrite remove_padding_body by auto using body_b64char, padding_at_most_2.
  rewrite body_length_mod_4.
  unfold body at 1. change (map char_of_sextet ?l) with (char_of_sextet <$> l).
  rewrite mapM_fmap_Forall_Some.
  2:{ eapply Forall_impl; [apply sextets_of_octets_bound|].
      - apply Forall_map, Forall_forall. intros c _. apply N_ascii_bounded.
      - intros k Hk. by apply sextet_of_char_of_sextet. }
  rewrite octets_of_sextets_of_octets.
  2:{ apply Forall_map, Forall_forall. intros c _. apply N_ascii_bounded. }
  rewrite map_map. f_equal.
  rewrite <- (map_id s) at 2. apply map_ext. apply ascii_N_embedding.
Qed.

Lemma atob_encode (s : str) : atob (encode s) = Return s.
Proof. unfold encode, JS.repeat_char. fold (body s). rewrite padding_length. apply atob_body. Qed.

End Base64_round_trip.

(** ** The base64url helpers of the signer and of the key registry *)

Section Base64url.
Import Base64.

Lemma url_char_of_sextet (k : N) :
  sextet k -> url_char (char_of_sextet k) = nth (N.to_nat k) url_alphabet "A"%char.
Proof.
  intros Hk.
  apply (below_64 (fun k => bool_decide
           (url_char (char_of_sextet k) = nth (N.to_nat k) url_alphabet "A"%char))) in Hk;
    [by apply bool_decide_eq_true in Hk | by vm_compute].
Qed.

Lemma N_of_ascii_of_byte (b : byte) : N_of_ascii (ascii_of_byte b) = Byte.to_N b.
Proof.
  rewrite ascii_of_byte_via_N. apply N_ascii_embedding.
  pose proof (Byte.to_N_bounded b). lia.
Qed.

Lemma octets_of_bytes (bytes : list byte) : Forall octet (map Byte.to_N bytes).
Proof.
  apply Forall_map, Forall_forall. intros b _. unfold octet.
  pose proof (Byte.to_N_bounded b). lia.
Qed.

Lemma base64url_nopad_body (bytes : list byte) :
  base64url_nopad bytes = map url_char (body (map ascii_of_byte bytes)).
Proof.
  unfold base64url_nopad, body. rewrite !map_map.
  rewrite (map_ext _ _ N_of_ascii_of_byte).
  apply map_ext_Forall.
  eapply Forall_impl; [apply sextets_of_octets_bound, octets_of_bytes|].
  intros k Hk. symmetry. by apply url_char_of_sextet.
Qed.

(** The three replacements that follow [btoa] and [Buffer#toString]. *)
Lemma replacements_of_encode (s : str) :
  JS.remove_char "="%char
    (JS.replace_char "/"%char "_"%char (JS.replace_char "+"%char "-"%char (encode s)))
  = map url_char (body s).
Proof.
  unfold JS.remove_char, JS.replace_char, encode, JS.repeat_char. fold (body s).
  rewrite map_map, map_app, filter_app.
  rewrite filter_all, filter_none.
  - apply app_nil_r.
  - apply Forall_map, Forall_forall. intros c Hc%elem_of_replicate. destruct Hc as [-> _].
    cbn. tauto.
  - apply Forall_map. eapply Forall_impl; [apply body_b64char|].
    intros c Hc. by apply url_char_not_padding in Hc.
Qed.

Lemma base64UrlEncode_spec (data : list byte) :
  TAPSigner.base64UrlEncode data = Return (base64url_nopad data).
Proof.
  unfold TAPSigner.base64UrlEncode, btoa. cbn [bind].
  by rewrite replacements_of_encode, base64url_nopad_body.
Qed.

Lemma base64urlEncode_spec (bytes : list byte) :
  VisaKeyRegistry.base64urlEncode bytes = base64url_nopad bytes.
Proof.
  unfold VisaKeyRegistry.base64urlEncode, Buffer_toString_base64.
  by rewrite replacements_of_encode, base64url_nopad_body.
Qed.

Lemma base64UrlDecode_base64url (bytes : list byte) :
  TAPSigner.base64UrlDecode (base64url_nopad bytes) = Return bytes.
Proof.
  unfold TAPSigner.base64UrlDecode, JS.replace_char, JS.repeat_char.
  rewrite base64url_nopad_body, !map_map.
  rewrite (map_ext_Forall _ id).
  2:{ eapply Forall_impl; [apply body_b64char|]. intros c Hc. by apply unurl_url_char in Hc. }
  rewrite map_id, atob_body. cbn [bind]. rewrite map_map. f_equal.
  rewrite <- (map_id bytes) at 2. apply map_ext, byte_of_ascii_of_byte.
Qed.

Lemma base64url_nopad_no_padding (bytes : list byte) :
  "="%char ∉ base64url_nopad bytes.
Proof.
  rewrite base64url_nopad_body. intros Hin%list_elem_of_In%in_map_iff.
  destruct Hin as (c & Hc & Hin%list_elem_of_In).
  pose proof (body_b64char (map ascii_of_byte bytes)) as Hb.
  rewrite Forall_forall in Hb. by apply (url_char_not_padding c (Hb c Hin)).
Qed.

Lemma base64url_nopad_length_64 (bytes : list byte) :
  length bytes = 64%nat -> length (base64url_nopad bytes) = 86%nat.
Proof.
  intros Hlen. rewrite base64url_nopad_body, length_map.
  destruct (body_length (map ascii_of_byte bytes)) as [q Hq].
  rewrite length_map, Hlen in Hq. lia.
Qed.

End Base64url.

(** ** The signer *)

Section Signer.
Context `{Ed25519}.

Lemma sign_detached_returns (msg sk : list byte) :
  length sk = 64%nat ->
  nacl.sign_detached msg sk = Return (resize 64 x00 (crypto_sign msg sk)).
Proof. intros Hsk. unfold nacl.sign_detached. by rewrite Hsk. Qed.

Lemma sign_detached_inv (msg sk sig : list byte) :
  nacl.sign_detached msg sk = Return sig ->
  length sk = 64%nat /\ sig = resize 64 x00 (crypto_sign msg sk) /\ length sig = 64%nat.
Proof.
  unfold nacl.sign_detached.
  destruct (length sk =? nacl.crypto_sign_SECRETKEYBYTES)%nat eqn:Hsk; [|done].
  apply Nat.eqb_eq in Hsk. intros [= <-]. by rewrite length_resize.
Qed.

(** What [signTAPRequest] returns, step by step. *)
Lemma signTAPRequest_returns (this : TAPSigner.t) (now : Z) (req : TAPRequestData) :
  length (secretKey (TAPSigner.keyPair this)) = 64%nat ->
  let created := (now / 1000)%Z in
  let base :=
    TAPSigner.createSignatureBase (authority req) (path req) created
      (TAPSigner.getKeyId this) (created + 480) (nonce req) (Tag_string (tag req)) in
  let sig := resize 64 x00 (crypto_sign (TextEncoder_encode base)
                              (secretKey (TAPSigner.keyPair this))) in
  TAPSigner.signTAPRequest this now req =
    Return {| Signature_Input :=
                TAPSigner.signatureInput created (TAPSigner.getKeyId this) (created + 480)
                  (nonce req) (Tag_string (tag req));
              Signature := lit "sig2=:" ++ Base64.base64url_nopad sig ++ lit ":" |}.
Proof.
  intros Hsk created base sig. unfold TAPSigner.signTAPRequest.
  fold created. fold (TAPSigner.getKeyId this). fold base.
  rewrite sign_detached_returns by done. cbn [bind]. fold sig.
  by rewrite base64UrlEncode_spec.
Qed.

(** The template of the signer writes the wire format of the
    specification, and its builder the three canonical lines. *)
Lemma signatureInput_wire (created : Z) (keyId_ : str) (expires : Z) (nonce_ tag_ : str) :
  TAPSigner.signatureInput created keyId_ expires nonce_ tag_ =
    wire_signature_input created keyId_ expires nonce_ tag_.
Proof.
  unfold TAPSigner.signatureInput, wire_signature_input.
  repeat rewrite <- app_assoc. reflexivity.
Qed.

Lemma signer_base_lines (authority_ path_ : str) (created : Z) (keyId_ : str) (expires : Z)
  (nonce_ tag_ : str) :
  TAPSigner.createSignatureBase authority_ path_ created keyId_ expires nonce_ tag_ =
    join LF (canonical_lines authority_ path_ created keyId_ expires nonce_ tag_).
Proof.
  unfold TAPSigner.createSignatureBase, canonical_lines, join.
  repeat rewrite <- app_assoc. reflexivity.
Qed.

(** C4. For every request, a signer that holds a 64-byte secret key
    returns an envelope whose [Signature-Input] is the wire format of the
    specification with [created] the reading of the clock in whole seconds
    and [expires = created + 480] (no argument of the call sets the
    offset), and whose [Signature] is [sig2=:], the unpadded base64url (86
    characters, none of them [=]) of the 64-byte detached signature over
    the UTF-8 bytes of the three canonical lines, and [:]. *)
Theorem signTAPRequest_postcondition (this : TAPSigner.t) (now : Z) (req : TAPRequestData) :
  length (secretKey (TAPSigner.keyPair this)) = 64%nat ->
  exists (created expires : Z) (sig : list byte),
    created = (now / 1000)%Z /\
    expires = (created + 480)%Z /\
    nacl.sign_detached
      (TextEncoder_encode
         (join LF (canonical_lines (authority req) (path req) created
                     (TAPSigner.getKeyId this) expires (nonce req) (Tag_string (tag req)))))
      (secretKey (TAPSigner.keyPair this)) = Return sig /\
    length sig = 64%nat /\
    ("="%char ∉ Base64.base64url_nopad sig) /\
    length (Base64.base64url_nopad sig) = 86%nat /\
    TAPSigner.signTAPRequest this now req =
      Return {| Signature_Input :=
                  wire_signature_input created (TAPSigner.getKeyId this) expires
                    (nonce req) (Tag_string (tag req));
                Signature := lit "sig2=:" ++ Base64.base64url_nopad sig ++ lit ":" |}.
Proof.
  intros Hsk. eexists _, _, _. split; [reflexivity|]. split; [reflexivity|].
  split; [rewrite <- signer_base_lines; by apply sign_detached_returns|].
  split; [by rewrite length_resize|].
  split; [apply base64url_nopad_no_padding|].
  split; [apply base64url_nopad_length_64; by rewrite length_resize|].
  rewrite (signTAPRequest_returns _ _ _ Hsk), signatureInput_wire, signer_base_lines.
  reflexivity.
Qed.

(** The two replacements of the [/verify] handler take the wrapper off. *)
Lemma strip_prefix_app (pre s : str) : JS.strip_prefix pre (pre ++ s) = Some s.
Proof. induction pre as [|p pre IH]; [done|]. cbn. by rewrite Ascii.eqb_refl. Qed.

Lemma replace_trailing_char_snoc (c : ascii) (s : str) :
  JS.replace_trailing_char c (s ++ [c]) = s.
Proof.
  induction s as [|a s IH]; [cbn; by rewrite Ascii.eqb_refl|].
  destruct s as [|b s]; [cbn; by rewrite Ascii.eqb_refl|].
  change (a :: JS.replace_trailing_char c ((b :: s) ++ [c]) = a :: b :: s).
  by rewrite IH.
Qed.

Lemma unwrap_signature (s : str) :
  JS.replace_trailing_char ":"%char (JS.replace_prefix (lit "sig2=:") (lit "sig2=:" ++ s ++ lit ":"))
  = s.
Proof.
  unfold JS.replace_prefix. rewrite strip_prefix_app. cbn [default].
  apply replace_trailing_char_snoc.
Qed.

(** What [verifySignature] returns, for every input. *)
Lemma verifySignature_returns (this : TAPSigner.t) (signatureBase signature : str)
  (publicKey_ : option (list byte)) :
  TAPSigner.verifySignature this signatureBase signature publicKey_ =
    Return
      match TAPSigner.base64UrlDecode signature with
      | Throw _ => false
      | Return sigBytes =>
          let pubKey := default (publicKey (TAPSigner.keyPair this)) publicKey_ in
          (length sigBytes =? 64)%nat && (length pubKey =? 32)%nat &&
          crypto_sign_open (sigBytes ++ TextEncoder_encode signatureBase) pubKey
      end.
Proof.
  unfold TAPSigner.verifySignature.
  destruct (TAPSigner.base64UrlDecode signature) as [sigBytes|err]; [|done].
  cbn [bind]. unfold nacl.sign_detached_verify.
  change nacl.crypto_sign_BYTES with 64%nat.
  change nacl.crypto_sign_PUBLICKEYBYTES with 32%nat.
  destruct (length sigBytes =? 64)%nat; [|done].
  by destruct (length (default _ publicKey_) =? 32)%nat.
Qed.

Lemma Return_inj {A} (a b : A) : Return a = Return b -> a = b.
Proof. by intros [= ->]. Qed.

(** A signer that returns an envelope holds a 64-byte secret key. *)
Lemma signTAPRequest_inv (this : TAPSigner.t) (now : Z) (req : TAPRequestData)
  (envelope : TAPSignature) :
  TAPSigner.signTAPRequest this now req = Return envelope ->
  length (secretKey (TAPSigner.keyPair this)) = 64%nat.
Proof.
  unfold TAPSigner.signTAPRequest.
  destruct (nacl.sign_detached _ _) as [sig|err] eqn:Hsig; [|done].
  intros _. by apply sign_detached_inv in Hsig as [Hsk _].
Qed.

(** The core of the round trip: the unwrapped signature of an envelope
    verifies over the base the signer signed, under a matching key, whether
    that key is passed or is the verifier's own. *)
Lemma verify_signed_envelope (signer verifier : TAPSigner.t) (now : Z) (req : TAPRequestData)
  (envelope : TAPSignature) (publicKey_ : option (list byte)) :
  key_matches (default (publicKey (TAPSigner.keyPair verifier)) publicKey_)
    (secretKey (TAPSigner.keyPair signer)) ->
  TAPSigner.signTAPRequest signer now req = Return envelope ->
  TAPSigner.verifySignature verifier
    (TAPSigner.createSignatureBase (authority req) (path req) (now / 1000)
       (TAPSigner.getKeyId signer) (now / 1000 + 480) (nonce req) (Tag_string (tag req)))
    (JS.replace_trailing_char ":"%char
       (JS.replace_prefix (lit "sig2=:") (Signature envelope)))
    publicKey_
  = Return true.
Proof.
  intros Hkey Hsign.
  pose proof (signTAPRequest_inv _ _ _ _ Hsign) as Hsk.
  rewrite signTAPRequest_returns in Hsign by done.
  apply Return_inj in Hsign. subst envelope.
  cbn [Signature]. rewrite unwrap_signature.
  unfold TAPSigner.verifySignature. rewrite base64UrlDecode_base64url. cbn [bind].
  erewrite Hkey; [done|]. by apply sign_detached_returns.
Qed.


(** C3. Verification fails closed. For every input [verifySignature]
    returns a boolean and never throws; when base64url-decoding the
    signature throws, or gives other than 64 bytes, the result is false.
    The call of the [/verify] handler first takes the [sig2=:] prefix and
    the trailing [:] off the signature, and never throws either. *)
Theorem verify_fails_closed (this : TAPSigner.t) (signatureBase signature : str)
  (publicKey_ : option (list byte)) (pubKeyBytes : list byte) :
  (exists b, TAPSigner.verifySignature this signatureBase signature publicKey_ = Return b) /\
  (forall err, TAPSigner.base64UrlDecode signature = Throw err ->
     TAPSigner.verifySignature this signatureBase signature publicKey_ = Return false) /\
  (forall sigBytes, TAPSigner.base64UrlDecode signature = Return sigBytes ->
     length sigBytes <> 64%nat ->
     TAPSigner.verifySignature this signatureBase signature publicKey_ = Return false) /\
  TapRoutes.verify this signatureBase (lit "sig2=:" ++ signature ++ lit ":") pubKeyBytes
    = TAPSigner.verifySignature this signatureBase signature (Some pubKeyBytes) /\
  (exists b, TapRoutes.verify this signatureBase signature pubKeyBytes = Return b).
Proof.
  repeat split.
  - rewrite verifySignature_returns. eauto.
  - intros err Herr. by rewrite verifySignature_returns, Herr.
  - intros sigBytes Hdec Hlen. rewrite verifySignature_returns, Hdec.
    apply Nat.eqb_neq in Hlen. by rewrite Hlen.
  - unfold TapRoutes.verify. by rewrite unwrap_signature.
  - unfold TapRoutes.verify. rewrite verifySignature_returns. eauto.
Qed.


End Signer.

(** ** Positional notation, and the round trip of [bs58] *)

Section Digits.
Import Bs58.
Local Open Scope N_scope.
Variable b : N.
Hypothesis base_ge_2 : 2 <= b.

Lemma enough_div (fuel : nat) (n : N) :
  n <> 0%N -> enough (S fuel) n -> enough fuel (n / b).
Proof.
  intros Hn [?|Hfuel]; [done|]. unfold enough.
  destruct (N.eq_dec (n / b) 0) as [|Hq]; [by left|right].
  assert (Hle : (n / b <= n / 2)%N) by (apply N.div_le_compat_l; lia).
  assert (Hhalf : (N.log2 (n / 2) = N.log2 n - 1)%N).
  { change 2%N with (2 ^ 1)%N at 1. rewrite <- N.shiftr_div_pow2. apply N.log2_shiftr. }
  pose proof (N.log2_le_mono _ _ Hle) as Hlog.
  assert (Hhalf_ne : n / 2 <> 0).
  { intros Heq. rewrite Heq in Hle. by apply N.le_0_r in Hle. }
  assert (0 < N.log2 n).
  { apply N.log2_pos.
    destruct (N.lt_ge_cases n 2) as [Hlt|Hge]; [by apply N.div_small in Hlt|].
    clear -Hge. lia. }
  rewrite Hhalf in Hlog. clear -Hlog H Hfuel. lia.
Qed.

Lemma to_digits_fuel_acc (fuel : nat) (n : N) (acc : list N) :
  to_digits_fuel fuel b n acc = to_digits_fuel fuel b n [] ++ acc.
Proof.
  revert n acc. induction fuel as [|fuel IH]; intros n acc; [done|].
  cbn [to_digits_fuel]. destruct (n =? 0)%N; [done|].
  rewrite IH, (IH _ [_]), <- app_assoc. done.
Qed.

Lemma to_digits_fuel_enough (fuel1 fuel2 : nat) (n : N) :
  enough fuel1 n -> enough fuel2 n ->
  to_digits_fuel fuel1 b n [] = to_digits_fuel fuel2 b n [].
Proof.
  revert fuel2 n. induction fuel1 as [|fuel1 IH]; intros fuel2 n H1 H2.
  - destruct H1 as [->|]; [|lia]. by destruct fuel2.
  - destruct (N.eq_dec n 0) as [->|Hn]; [by destruct fuel2|].
    destruct fuel2 as [|fuel2]; [destruct H2; [done|lia]|].
    cbn [to_digits_fuel]. apply N.eqb_neq in Hn as Hn'. rewrite Hn'.
    rewrite to_digits_fuel_acc, (to_digits_fuel_acc fuel2).
    f_equal. apply IH; by apply enough_div.
Qed.

Lemma to_digits_0 : to_digits b 0 = [].
Proof. reflexivity. Qed.

Lemma to_digits_step (n : N) :
  n <> 0%N -> to_digits b n = to_digits b (n / b) ++ [n mod b]%N.
Proof.
  intros Hn. unfold to_digits at 1. cbn [to_digits_fuel].
  apply N.eqb_neq in Hn as Hn'. rewrite Hn'.
  rewrite to_digits_fuel_acc. f_equal.
  apply to_digits_fuel_enough.
  - apply enough_div; [done|]. right. lia.
  - right. lia.
Qed.

Lemma from_digits_snoc (ds : list N) (d : N) :
  from_digits b (ds ++ [d]) = (from_digits b ds * b + d)%N.
Proof. unfold from_digits. by rewrite fold_left_app. Qed.

Lemma from_digits_to_digits (n : N) : from_digits b (to_digits b n) = n.
Proof.
  induction n as [n IH] using (well_founded_induction N.lt_wf_0).
  destruct (N.eq_dec n 0) as [->|Hn]; [done|].
  rewrite to_digits_step, from_digits_snoc by done.
  rewrite IH by (apply N.div_lt; lia).
  rewrite N.mul_comm. symmetry. apply N.div_mod'.
Qed.

Lemma to_digits_normal (n : N) : normal b (to_digits b n).
Proof.
  induction n as [n IH] using (well_founded_induction N.lt_wf_0).
  destruct (N.eq_dec n 0) as [->|Hn]; [by split|].
  rewrite to_digits_step by done.
  destruct (IH (n / b)%N) as [Hall Hhead]; [apply N.div_lt; lia|].
  split.
  - apply Forall_app. split; [done|]. constructor; [|done]. apply N.mod_lt. lia.
  - destruct (N.eq_dec (n / b) 0) as [Hq|Hq].
    + rewrite Hq, to_digits_0. cbn. intros [= Hr].
      pose proof (N.div_mod' n b). lia.
    + rewrite to_digits_step in * by done.
      destruct (to_digits b (n / b / b)); cbn in *; done.
Qed.

Lemma fold_left_digits_ge (ds : list N) (a : N) :
  (a <= fold_left (fun acc d => acc * b + d) ds a)%N.
Proof.
  revert a. induction ds as [|d ds IH]; intros a; cbn; [lia|].
  etrans; [|apply IH]. nia.
Qed.

Lemma from_digits_normal_ne_0 (ds : list N) :
  normal b ds -> ds <> [] -> from_digits b ds <> 0%N.
Proof.
  intros [_ Hhead] Hne. destruct ds as [|d ds]; [done|].
  unfold from_digits. cbn [fold_left]. rewrite N.mul_0_l, N.add_0_l.
  pose proof (fold_left_digits_ge ds d) as Hge. cbn in Hhead.
  assert (d <> 0) by congruence.
  intros Heq. rewrite Heq in Hge. clear -Hge H. lia.
Qed.

Lemma to_digits_from_digits (ds : list N) :
  normal b ds -> to_digits b (from_digits b ds) = ds.
Proof.
  induction ds as [|d ds IH] using rev_ind; intros Hn; [done|].
  pose proof (from_digits_normal_ne_0 _ Hn ltac:(by destruct ds)) as Hne.
  destruct Hn as [Hall Hhead].
  apply Forall_app in Hall as [Hall Hd]. inversion_clear Hd as [|? ? Hd' _].
  rewrite to_digits_step by done. rewrite from_digits_snoc in *.
  assert (Hq : ((from_digits b ds * b + d) / b = from_digits b ds)%N).
  { symmetry. apply (N.div_unique _ _ _ d); lia. }
  assert (Hr : ((from_digits b ds * b + d) mod b = d)%N).
  { symmetry. apply (N.mod_unique _ _ (from_digits b ds)); lia. }
  rewrite Hq, Hr. f_equal.
  destruct ds as [|d0 ds]; [done|]. apply IH. by split.
Qed.

End Digits.

Section Bs58_round_trip.
Import Bs58.

Lemma digit_of_char_of_digit (d : N) :
  (d < 58)%N -> digit_of_char (char_of_digit d) = Some d.
Proof.
  intros Hd.
  apply (below 58 (fun d => bool_decide (digit_of_char (char_of_digit d) = Some d))) in Hd;
    [by apply bool_decide_eq_true in Hd | by vm_compute].
Qed.

Lemma leading_zeroes_split (l : list N) :
  l = replicate (leading_zeroes l) 0%N ++ drop (leading_zeroes l) l /\
  head (drop (leading_zeroes l) l) <> Some 0%N.
Proof.
  induction l as [|d l [IH1 IH2]]; [done|].
  destruct d as [|p]; [|done]. cbn [leading_zeroes replicate drop app].
  split; [by f_equal|done].
Qed.

Lemma leading_zeroes_replicate (z : nat) (ds : list N) :
  head ds <> Some 0%N -> leading_zeroes (replicate z 0%N ++ ds) = z.
Proof.
  intros Hds. induction z as [|z IH]; cbn; [|by rewrite IH].
  destruct ds as [|[|p] ds]; done.
Qed.

Lemma from_digits_replicate_0 (b : N) (z : nat) (ds : list N) :
  from_digits b (replicate z 0%N ++ ds) = from_digits b ds.
Proof. induction z as [|z IH]; [done|]. unfold from_digits in *. cbn. apply IH. Qed.

Lemma byte_of_N_to_N (x : byte) : byte_of_N (Byte.to_N x) = x.
Proof. unfold byte_of_N. by rewrite Byte.of_to_N. Qed.

(** [bs58.decode] undoes [bs58.encode]. *)
Lemma decode_encode (bytes : list byte) : decode (encode bytes) = Return bytes.
Proof.
  unfold decode, encode, JS.repeat_char.
  set (octets := map Byte.to_N bytes).
  destruct (leading_zeroes_split octets) as [Hsplit Hhead].
  set (z := leading_zeroes octets) in *. set (rest := drop z octets) in *.
  assert (Hrest : normal 256 rest).
  { split; [|done]. unfold rest. apply Forall_drop, octets_of_bytes. }
  assert (Hvalue : from_digits 256 octets = from_digits 256 rest).
  { rewrite Hsplit. apply from_digits_replicate_0. }
  rewrite Hvalue.
  pose proof (to_digits_normal 58 ltac:(lia) (from_digits 256 rest)) as [Hall58 Hhead58].
  change (replicate z "1"%char) with (replicate z (char_of_digit 0)).
  rewrite <- fmap_replicate.
  change (map char_of_digit ?l) with (char_of_digit <$> l).
  rewrite <- fmap_app, mapM_fmap_Forall_Some.
  2:{ apply Forall_app. split.
      - apply Forall_replicate. by apply digit_of_char_of_digit.
      - eapply Forall_impl; [exact Hall58|]. intros d Hd. by apply digit_of_char_of_digit. }
  rewrite leading_zeroes_replicate by done.
  rewrite from_digits_replicate_0, from_digits_to_digits by lia.
  rewrite to_digits_from_digits by (done || lia).
  f_equal.
  change (replicate z x00) with (replicate z (byte_of_N 0)).
  rewrite <- fmap_replicate.
  change (map byte_of_N rest) with (byte_of_N <$> rest).
  rewrite <- fmap_app, <- Hsplit. unfold octets.
  change (byte_of_N <$> map Byte.to_N bytes) with (map byte_of_N (map Byte.to_N bytes)).
  rewrite map_map. rewrite <- (map_id bytes) at 2. apply map_ext, byte_of_N_to_N.
Qed.

End Bs58_round_trip.

(** ** The constructor of the signer *)

(** C8, as the code has it. For every constructed [TAPSigner], [getKeyId]
    returns the override when a private key and a non-empty key id were both
    given to the constructor, and the base58 encoding of the public key
    bytes of the key pair otherwise. *)
Theorem getKeyId_derivation (fresh : KeyPair) (privateKeyBase58 keyId_ : option str)
  (this : TAPSigner.t) :
  TAPSigner.new fresh privateKeyBase58 keyId_ = Return this ->
  TAPSigner.getKeyId this =
    if truthy privateKeyBase58 && truthy keyId_ then default [] keyId_
    else Bs58.encode (publicKey (TAPSigner.keyPair this)).
Proof.
  unfold TAPSigner.new.
  destruct (truthy privateKeyBase58); cbn [andb].
  - destruct (Bs58.decode _) as [privateKey|]; [|done]. cbn [bind].
    destruct (nacl.sign_keyPair_fromSecretKey privateKey) as [kp|]; [|done]. cbn [bind].
    intros [= <-]. cbn. by destruct (truthy keyId_).
  - by intros [= <-].
Qed.

(** A signer restored from a private key holds the 64 bytes of that key;
    one that drew its key pair holds the pair drawn. *)
Lemma new_secretKey_length (fresh : KeyPair) (privateKeyBase58 keyId_ : option str)
  (this : TAPSigner.t) :
  TAPSigner.new fresh privateKeyBase58 keyId_ = Return this ->
  length (secretKey fresh) = 64%nat ->
  length (secretKey (TAPSigner.keyPair this)) = 64%nat.
Proof.
  unfold TAPSigner.new. destruct (truthy privateKeyBase58).
  - destruct (Bs58.decode _) as [privateKey|]; [|done]. cbn [bind].
    unfold nacl.sign_keyPair_fromSecretKey.
    destruct (length privateKey =? nacl.crypto_sign_SECRETKEYBYTES)%nat eqn:Hlen; [|done].
    cbn [bind]. intros [= <-] _. cbn. by apply Nat.eqb_eq in Hlen.
  - by intros [= <-].
Qed.

(** ** The key registry *)

Section Registry.
Import VisaKeyRegistry.


Lemma JSMap_set_keys {V} (k : str) (v : V) (m : list (str * V)) :
  map fst (JSMap.set k v m) = if decide (k ∈ map fst m) then map fst m else map fst m ++ [k].
Proof.
  induction m as [|[k' v'] m IH]; [done|]. cbn.
  destruct (decide (k' = k)) as [->|Hne].
  - cbn. rewrite decide_True; [done|]. apply elem_of_cons. by left.
  - cbn. rewrite IH. destruct (decide (k ∈ map fst m)) as [Hin|Hnin].
    + rewrite decide_True; [done|]. apply elem_of_cons. by right.
    + rewrite decide_False; [done|]. apply not_elem_of_cons. split; [done|done].
Qed.

Lemma JSMap_set_idem {V} (k : str) (v : V) (m : list (str * V)) :
  JSMap.set k v (JSMap.set k v m) = JSMap.set k v m.
Proof.
  induction m as [|[k' v'] m IH]; cbn.
  - by rewrite decide_True.
  - destruct (decide (k' = k)) as [->|Hne]; cbn.
    + by rewrite decide_True.
    + rewrite decide_False by done. by rewrite IH.
Qed.

Lemma JSMap_set_value {V} (k : str) (v : V) (m : list (str * V)) :
  v ∈ JSMap.values (JSMap.set k v m).
Proof.
  induction m as [|[k' v'] m IH]; cbn.
  - apply elem_of_cons. by left.
  - destruct (decide (k' = k)); cbn; apply elem_of_cons; [by left|by right].
Qed.



Lemma ed25519ToJWK_of_signer (signer : TAPSigner.t) :
  ed25519ToJWK (TAPSigner.getPublicKey signer) (TAPSigner.getKeyId signer)
  = Return (jwk_of signer).
Proof.
  unfold ed25519ToJWK, TAPSigner.getPublicKey. rewrite decode_encode. cbn [bind].
  by rewrite base64urlEncode_spec.
Qed.

Lemma getJWKS_returns (this : t) :
  getJWKS this =
    let registeredKeys' :=
      JSMap.set (TAPSigner.getKeyId (tapSigner this)) (jwk_of (tapSigner this))
        (registeredKeys this) in
    Return ({| keys := JSMap.values registeredKeys' |},
            {| tapSigner := tapSigner this; registeredKeys := registeredKeys' |}).
Proof. unfold getJWKS. by rewrite ed25519ToJWK_of_signer. Qed.


(** C7, as the code has it. For every public key, given as
    [getPublicKey] gives it, [ed25519ToJWK] returns exactly [kty = OKP],
    [crv = Ed25519], [alg = EdDSA], [use = sig], [kid] the given key id and
    [x] the unpadded base64url of the public key bytes, and base64url
    decoding [x] gives the public key bytes back. This holds for keys of
    every length: no length is checked. *)
Theorem ed25519ToJWK_mapping (publicKeyBytes : list byte) (keyId_ : str) :
  ed25519ToJWK (Bs58.encode publicKeyBytes) keyId_ =
    Return {| kty := lit "OKP"; kid := keyId_; use := lit "sig"; alg := lit "EdDSA";
              crv := Some (lit "Ed25519");
              x := Some (Base64.base64url_nopad publicKeyBytes);
              n := None; e := None |} /\
  TAPSigner.base64UrlDecode (Base64.base64url_nopad publicKeyBytes) = Return publicKeyBytes.
Proof.
  split; [|apply base64UrlDecode_base64url].
  unfold ed25519ToJWK. rewrite decode_encode. cbn [bind].
  by rewrite base64urlEncode_spec.
Qed.


End Registry.

(** ** The regular expression of [parseSignatureInput] *)

Section Regex.
Import TapRoutes.

Lemma span_app (p : ascii -> bool) (s : str) :
  (span p s).1 ++ (span p s).2 = s.
Proof.
  induction s as [|c s IH]; [done|]. cbn.
  destruct (p c); [|done]. destruct (span p s) as [u v]. cbn in *. by rewrite IH.
Qed.

Lemma span_all (p : ascii -> bool) (s : str) :
  Forall (fun c => p c = true) s -> span p s = (s, []).
Proof.
  induction 1 as [|c s Hc _ IH]; [done|]. cbn. by rewrite Hc, IH.
Qed.

(** A character outside the class stops [span], whatever follows it. *)
Lemma span_stop (p : ascii -> bool) (s : str) (c : ascii) (rest : str) :
  p c = false ->
  span p (s ++ c :: rest) = ((span p s).1, (span p s).2 ++ c :: rest).
Proof.
  intros Hc. induction s as [|a s IH]; cbn.
  - by rewrite Hc.
  - destruct (p a); [|done]. rewrite IH. by destruct (span p s).
Qed.

Lemma span_prefix (p : ascii -> bool) (u : str) (c : ascii) (rest : str) :
  Forall (fun a => p a = true) u -> p c = false ->
  span p (u ++ c :: rest) = (u, c :: rest).
Proof. intros Hu Hc. by rewrite span_stop, span_all. Qed.

Lemma is_word_semicolon : is_word ";"%char = false.
Proof. reflexivity. Qed.

Lemma is_word_equals : is_word "="%char = false.
Proof. reflexivity. Qed.

(** A match is a prefix of the string it is found in. *)
Lemma match_at_prefix (s m : str) :
  match_at s = Some m -> exists rest, s = m ++ rest.
Proof.
  unfold match_at. pose proof (span_app is_word s) as Hs.
  destruct (span is_word s) as [key s1]. cbn in Hs.
  destruct key as [|k key]; [done|]. destruct s1 as [|c s2]; [done|].
  destruct (Ascii.eqb_spec c "="%char) as [->|]; [|done].
  pose proof (span_app not_semicolon s2) as Hs2.
  destruct (span not_semicolon s2) as [value rest]. cbn in Hs2.
  destruct value as [|v value]; [done|]. intros [= <-].
  exists rest. rewrite <- Hs, <- Hs2. cbn. by rewrite <- app_assoc.
Qed.

(** A match has a name of word characters, [=], and a value. *)
Lemma match_at_shape (s m : str) :
  match_at s = Some m ->
  exists key value, m = key ++ "="%char :: value /\ "="%char ∉ key.
Proof.
  unfold match_at.
  assert (Hkey : Forall (fun c => is_word c = true) (span is_word s).1).
  { induction s as [|c s IH]; cbn; [done|].
    destruct (is_word c) eqn:Hc; [|done]. destruct (span is_word s). cbn. by constructor. }
  destruct (span is_word s) as [key s1]. cbn in Hkey.
  destruct key as [|k key]; [done|]. destruct s1 as [|c s2]; [done|].
  destruct (Ascii.eqb_spec c "="%char) as [->|]; [|done].
  destruct (span not_semicolon s2) as [value rest].
  destruct value as [|v value]; [done|]. intros [= <-].
  exists (k :: key), (v :: value). split; [done|].
  intros Hin. rewrite Forall_forall in Hkey. apply Hkey in Hin. done.
Qed.

(** What follows the next [;] has no part in a match. *)
Lemma match_at_semicolon (s rest : str) :
  match_at (s ++ ";"%char :: rest) = match_at s.
Proof.
  unfold match_at. rewrite (span_stop is_word) by done.
  destruct (span is_word s) as [key s1]. cbn [fst snd].
  destruct key as [|k key]; [done|].
  destruct s1 as [|c s2]; cbn [app]; [done|].
  destruct (Ascii.eqb c "="%char); [|done].
  rewrite (span_stop not_semicolon) by done.
  by destruct (span not_semicolon s2).
Qed.

Lemma global_match_skip (m rest : str) :
  global_match (length m) (m ++ rest) = global_match 0 rest.
Proof. induction m as [|c m IH]; [done|]. apply IH. Qed.

Lemma global_match_semicolon (s rest : str) (skip : nat) :
  (skip <= length s)%nat ->
  global_match skip (s ++ ";"%char :: rest) = global_match skip s ++ global_match 0 rest.
Proof.
  revert skip. induction s as [|c s IH]; intros skip Hskip.
  - cbn in Hskip. by replace skip with 0%nat by lia.
  - destruct skip as [|k]; [|cbn in *; apply IH; lia].
    change ((c :: s) ++ ";"%char :: rest) with (c :: (s ++ ";"%char :: rest)).
    cbn [global_match].
    change (c :: (s ++ ";"%char :: rest)) with ((c :: s) ++ ";"%char :: rest).
    rewrite match_at_semicolon.
    destruct (match_at (c :: s)) as [m|] eqn:Hm.
    + apply match_at_prefix in Hm as [tl Hm].
      assert (length m <= S (length s))%nat.
      { apply (f_equal length) in Hm. rewrite length_app in Hm. cbn in Hm. lia. }
      rewrite IH by lia. done.
    + by rewrite IH by lia.
Qed.

(** A lone parameter is matched whole. *)
Lemma match_at_field (key value : str) :
  key <> [] -> Forall (fun c => is_word c = true) key ->
  value <> [] -> ";"%char ∉ value ->
  match_at (key ++ "="%char :: value) = Some (key ++ "="%char :: value).
Proof.
  intros Hk Hword Hv Hsemi. unfold match_at.
  rewrite span_prefix by done.
  destruct key as [|k key]; [done|]. rewrite Ascii.eqb_refl.
  rewrite span_all.
  - by destruct value.
  - apply Forall_forall. intros c Hc. unfold not_semicolon.
    apply negb_true_iff, Ascii.eqb_neq. by intros ->.
Qed.

Lemma global_match_field (key value : str) :
  key <> [] -> Forall (fun c => is_word c = true) key ->
  value <> [] -> ";"%char ∉ value ->
  global_match 0 (key ++ "="%char :: value) = [key ++ "="%char :: value].
Proof.
  intros Hk Hword Hv Hsemi.
  pose proof (match_at_field key value Hk Hword Hv Hsemi) as Hm.
  destruct (key ++ "="%char :: value) as [|c s] eqn:Hs; [by destruct key|].
  cbn [global_match]. rewrite Hm. f_equal. cbn [length].
  rewrite Nat.sub_1_r. cbn [Nat.pred].
  rewrite <- (app_nil_r s) at 2. by rewrite global_match_skip.
Qed.

End Regex.

(** ** [parseSignatureInput] *)

Section Parse.
Import TapRoutes.

Lemma split_cons (c x : ascii) (s : str) :
  JS.split c (x :: s) =
    if Ascii.eqb x c then [] :: JS.split c s
    else (x :: hd [] (JS.split c s)) :: tl (JS.split c s).
Proof. cbn. destruct (Ascii.eqb x c); [done|]. by destruct (JS.split c s). Qed.

Lemma split_no_sep (c : ascii) (u : str) : c ∉ u -> JS.split c u = [u].
Proof.
  induction u as [|x u IH]; [done|]. intros [Hx Hu]%not_elem_of_cons.
  rewrite split_cons, IH by done. apply not_eq_sym, Ascii.eqb_neq in Hx. by rewrite Hx.
Qed.

Lemma split_sep (c : ascii) (u v : str) :
  c ∉ u -> JS.split c (u ++ c :: v) = u :: JS.split c v.
Proof.
  induction u as [|x u IH]; intros Hu.
  - cbn. by rewrite Ascii.eqb_refl.
  - apply not_elem_of_cons in Hu as [Hx Hu].
    change ((x :: u) ++ c :: v) with (x :: (u ++ c :: v)).
    rewrite split_cons, IH by done. apply not_eq_sym, Ascii.eqb_neq in Hx. by rewrite Hx.
Qed.

Lemma split_nonempty (c : ascii) (s : str) : exists u us, JS.split c s = u :: us.
Proof.
  destruct s as [|x s]; [by eexists _, _|]. rewrite split_cons.
  destruct (Ascii.eqb x c); by eexists _, _.
Qed.

(** The callback of [forEach] on a match never throws: the name is what
    stands before the first [=], the value what stands between it and the
    next [=], without its quotes. *)
Lemma parse_match_returns (params : gmap str str) (key value : str) :
  "="%char ∉ key ->
  parse_match params (key ++ "="%char :: value) =
    Return (set_property key (JS.remove_char "034"%char (before "="%char value)) params).
Proof.
  intros Hkey. unfold parse_match, before. rewrite split_sep by done.
  by destruct (split_nonempty "="%char value) as (u & us & ->).
Qed.

Lemma forEach_app (ms1 ms2 : list str) (params : gmap str str) :
  forEach (ms1 ++ ms2) params = let* params' := forEach ms1 params in forEach ms2 params'.
Proof.
  revert params. induction ms1 as [|m ms1 IH]; intros params; [done|].
  cbn [forEach app]. destruct (parse_match params m); [apply IH|done].
Qed.

Lemma global_match_matches (skip : nat) (s m : str) :
  m ∈ global_match skip s -> exists s', match_at s' = Some m.
Proof.
  revert skip. induction s as [|c s IH]; intros skip; [by intros ?%elem_of_nil|].
  destruct skip as [|k]; [|apply IH]. cbn [global_match].
  destruct (match_at (c :: s)) as [m'|] eqn:Hm; [|apply IH].
  intros [->|Hin]%elem_of_cons; [by exists (c :: s)|by apply IH in Hin].
Qed.

Lemma forEach_returns (ms : list str) (params : gmap str str) :
  (forall m, m ∈ ms -> exists s, match_at s = Some m) ->
  exists params', forEach ms params = Return params'.
Proof.
  revert params. induction ms as [|m ms IH]; intros params Hms; [by eexists|].
  destruct (Hms m) as [s Hs]; [apply elem_of_cons; by left|].
  apply match_at_shape in Hs as (key & value & -> & Hkey).
  cbn [forEach]. rewrite parse_match_returns by done. cbn [bind].
  apply IH. intros m' Hm'. apply Hms, elem_of_cons. by right.
Qed.

(** [parseSignatureInput] returns an object for every string. *)
Lemma parseSignatureInput_returns (signatureInput : str) :
  exists params, parseSignatureInput signatureInput = Return params.
Proof. apply forEach_returns. intros m Hm. by apply global_match_matches in Hm. Qed.

Lemma set_property_lookup (key v : str) (params : gmap str str) :
  key <> lit "__proto__" -> set_property key v params !! key = Some v.
Proof. intros Hkey. unfold set_property. rewrite decide_False by done. apply lookup_insert_eq. Qed.

Lemma set_property_lookup_ne (key key' v : str) (params : gmap str str) :
  key <> key' -> set_property key v params !! key' = params !! key'.
Proof.
  intros Hne. unfold set_property. destruct (decide _); [done|]. by apply lookup_insert_ne.
Qed.

(** The last two parameters of a [Signature-Input] value, [nonce] and
    [tag], are read whatever stands before them. *)
Lemma parse_nonce_tag (front nonce_value tag_value : str) :
  nonce_value <> [] -> ";"%char ∉ nonce_value ->
  tag_value <> [] -> ";"%char ∉ tag_value ->
  exists params,
    parseSignatureInput
      (front ++ ";"%char :: (lit "nonce" ++ "="%char :: nonce_value) ++
                ";"%char :: (lit "tag" ++ "="%char :: tag_value)) = Return params /\
    params !! lit "nonce" = Some (JS.remove_char "034"%char (before "="%char nonce_value)) /\
    params !! lit "tag" = Some (JS.remove_char "034"%char (before "="%char tag_value)).
Proof.
  intros Hn Hns Ht Hts. unfold parseSignatureInput.
  rewrite global_match_semicolon by lia.
  rewrite global_match_semicolon by lia.
  rewrite !global_match_field by (done || by repeat constructor).
  rewrite forEach_app.
  destruct (forEach_returns (global_match 0 front) ∅) as [params1 ->].
  { intros m Hm. by apply global_match_matches in Hm. }
  cbn [bind app forEach].
  rewrite parse_match_returns by compute_done.
  cbn [bind].
  rewrite parse_match_returns by compute_done.
  cbn [bind]. eexists. split; [done|]. split.
  - rewrite set_property_lookup_ne by done. by apply set_property_lookup.
  - by apply set_property_lookup.
Qed.

End Parse.

(** ** The nonce read back by the [/verify] route *)

Lemma Tag_string_no_semicolon (t : Tag) : ";"%char ∉ Tag_string t.
Proof. destruct t; compute_done. Qed.

(** A goal [c ∉ s] for a string put together from literals and from
    strings known not to hold [c]. *)
Ltac absent :=
  rewrite ?not_elem_of_app, ?not_elem_of_cons;
  repeat split;
  first [ done | compute_done | apply Tag_string_no_semicolon | apply not_elem_of_nil ].

Section Nonce.
Import TapRoutes.

Lemma last_segment (c : ascii) (u1 u2 v1 v2 : str) :
  c ∉ v1 -> c ∉ v2 -> u1 ++ c :: v1 = u2 ++ c :: v2 -> u1 = u2 /\ v1 = v2.
Proof.
  intros Hv1 Hv2. revert u2. induction u1 as [|x u1 IH]; intros [|y u2] Heq; cbn in Heq.
  - by injection Heq as ->.
  - injection Heq as <- ->. exfalso. apply Hv1, elem_of_app. right. apply elem_of_cons. by left.
  - injection Heq as -> <-. exfalso. apply Hv2, elem_of_app. right. apply elem_of_cons. by left.
  - injection Heq as -> Heq. apply IH in Heq as [-> ->]. done.
Qed.

(** The front of a [Signature-Input] value: all that stands before
    [;nonce=]. *)
Lemma signatureInput_split (created : Z) (keyId_ : str) (expires : Z) (nonce_ tag_ : str) :
  exists front,
    TAPSigner.signatureInput created keyId_ expires nonce_ tag_ =
      front ++ ";"%char :: (lit "nonce" ++ "="%char :: (DQ ++ nonce_ ++ DQ)) ++
               ";"%char :: (lit "tag" ++ "="%char :: (DQ ++ tag_ ++ DQ)).
Proof.
  exists (lit "sig2=(" ++ DQ ++ lit "@authority" ++ DQ ++ lit " " ++ DQ ++ lit "@path" ++ DQ ++
          lit ");" ++ lit "created=" ++ JS.Number_toString created ++ lit ";" ++
          lit "keyid=" ++ DQ ++ keyId_ ++ DQ ++ lit ";" ++
          lit "expires=" ++ JS.Number_toString expires).
  unfold TAPSigner.signatureInput.
  repeat (rewrite <- app_assoc || rewrite <- app_comm_cons). reflexivity.
Qed.

Lemma signer_base_split (authority_ path_ : str) (created : Z) (keyId_ : str) (expires : Z)
  (nonce_ tag_ : str) :
  exists front,
    TAPSigner.createSignatureBase authority_ path_ created keyId_ expires nonce_ tag_ =
      (front ++ ";"%char :: lit "nonce=" ++ DQ ++ nonce_ ++ DQ) ++
      ";"%char :: lit "tag=" ++ DQ ++ tag_ ++ DQ.
Proof.
  exists ((DQ ++ lit "@authority" ++ DQ ++ lit ": " ++ authority_ ++ LF) ++
          (DQ ++ lit "@path" ++ DQ ++ lit ": " ++ path_ ++ LF) ++
          (DQ ++ lit "@signature-params" ++ DQ ++ lit ": sig2=(" ++
             DQ ++ lit "@authority" ++ DQ ++ lit " " ++ DQ ++ lit "@path" ++ DQ ++ lit ");") ++
          (lit "created=" ++ JS.Number_toString created ++ lit ";") ++
          (lit "keyid=" ++ DQ ++ keyId_ ++ DQ ++ lit ";") ++
          lit "expires=" ++ JS.Number_toString expires).
  unfold TAPSigner.createSignatureBase.
  repeat (rewrite <- app_assoc || rewrite <- app_comm_cons). reflexivity.
Qed.

Lemma route_base_split (authority_ path_ : str) (params : gmap str str) :
  exists front,
    createSignatureBase authority_ path_ params =
      (front ++ ";"%char :: lit "nonce=" ++ DQ ++ property params "nonce" ++ DQ) ++
      ";"%char :: lit "tag=" ++ DQ ++ property params "tag" ++ DQ.
Proof.
  exists ((DQ ++ lit "@authority" ++ DQ ++ lit ": " ++ authority_ ++ LF) ++
          (DQ ++ lit "@path" ++ DQ ++ lit ": " ++ path_ ++ LF) ++
          (DQ ++ lit "@signature-params" ++ DQ ++ lit ": sig2=(" ++
             DQ ++ lit "@authority" ++ DQ ++ lit " " ++ DQ ++ lit "@path" ++ DQ ++ lit ");") ++
          (lit "created=" ++ property params "created" ++ lit ";") ++
          (lit "keyid=" ++ DQ ++ property params "keyid" ++ DQ ++ lit ";") ++
          lit "expires=" ++ property params "expires").
  unfold createSignatureBase.
  repeat (rewrite <- app_assoc || rewrite <- app_comm_cons). reflexivity.
Qed.

Lemma remove_quotes_quoted (s : str) :
  "034"%char ∉ s -> JS.remove_char "034"%char (DQ ++ s) = s.
Proof.
  intros Hs. unfold JS.remove_char. rewrite filter_app, (filter_all _ s).
  - done.
  - apply Forall_forall. by intros c Hc ->.
Qed.

Lemma tag_read_back (t : Tag) :
  JS.remove_char "034"%char (before "="%char (DQ ++ Tag_string t ++ DQ)) = Tag_string t.
Proof. by destruct t; vm_compute. Qed.

Lemma b64char_plain (c : ascii) :
  Base64.b64char c -> c <> ";"%char /\ c <> "="%char /\ c <> "034"%char.
Proof.
  intros (k & Hk & ->).
  apply (below_64 (fun k => bool_decide
           (Base64.char_of_sextet k <> ";"%char /\ Base64.char_of_sextet k <> "="%char /\
            Base64.char_of_sextet k <> "034"%char))) in Hk;
    [by apply bool_decide_eq_true in Hk | by vm_compute].
Qed.

(** The nonce of the routes: 86 base64 characters and [==]. *)
Lemma nonce_of_shape (randomBytes : list byte) :
  length randomBytes = 64%nat ->
  exists pre,
    nonce_of randomBytes = pre ++ "="%char :: lit "=" /\
    length pre = 86%nat /\ Forall Base64.b64char pre.
Proof.
  intros Hlen. exists (Base64.body (map ascii_of_byte randomBytes)).
  split; [|split; [|apply body_b64char]].
  - unfold nonce_of, Base64.Buffer_toString_base64, Base64.encode.
    by rewrite length_map, Hlen.
  - destruct (body_length (map ascii_of_byte randomBytes)) as [q Hq].
    rewrite length_map, Hlen in Hq. lia.
Qed.

(** C9. For every [Signature-Input] value the signer writes whose nonce has
    an [=] in it (and, being well formed, no [;], and no quote before the
    [=]), [parseSignatureInput] returns the nonce cut off at its first [=],
    and the signature base the [/verify] route rebuilds from the parsed
    parameters is not the base that was signed, whatever the authority and
    the path. Every nonce the [/sign] and [/purchase] routes draw is of
    that kind: 86 base64 characters followed by [==]. *)
Theorem parseSignatureInput_truncates_nonce
  (created : Z) (keyId_ : str) (expires : Z) (pre post : str) (tag_ : Tag)
  (randomBytes : list byte) :
  ("="%char ∉ pre -> "034"%char ∉ pre -> ";"%char ∉ pre -> ";"%char ∉ post ->
   exists params,
     parseSignatureInput
       (TAPSigner.signatureInput created keyId_ expires (pre ++ "="%char :: post)
          (Tag_string tag_)) = Return params /\
     params !! lit "nonce" = Some pre /\
     pre <> pre ++ "="%char :: post /\
     forall authority_ path_,
       createSignatureBase authority_ path_ params <>
       TAPSigner.createSignatureBase authority_ path_ created keyId_ expires
         (pre ++ "="%char :: post) (Tag_string tag_)) /\
  (length randomBytes = 64%nat ->
   exists pre',
     nonce_of randomBytes = pre' ++ "="%char :: lit "=" /\
     ("="%char ∉ pre') /\ ("034"%char ∉ pre') /\ (";"%char ∉ pre') /\ (";"%char ∉ lit "=")).
Proof.
  split.
  - intros Heq Hquote Hsemi Hsemi'.
    destruct (signatureInput_split created keyId_ expires (pre ++ "="%char :: post)
                (Tag_string tag_)) as [front ->].
    destruct (parse_nonce_tag front (DQ ++ (pre ++ "="%char :: post) ++ DQ)
                (DQ ++ Tag_string tag_ ++ DQ)) as (params & Hparse & Hnonce & Htag).
    { done. }
    { absent. }
    { done. }
    { absent. }
    assert (Hbefore : before "="%char (DQ ++ (pre ++ "="%char :: post) ++ DQ) = DQ ++ pre).
    { unfold before.
      replace (DQ ++ (pre ++ "="%char :: post) ++ DQ)
        with ((DQ ++ pre) ++ "="%char :: (post ++ DQ))
        by (by rewrite <- !app_assoc).
      rewrite split_sep; [done|]. absent. }
    rewrite Hbefore, remove_quotes_quoted in Hnonce by done.
    rewrite tag_read_back in Htag.
    exists params. split; [done|]. split; [done|]. split.
    { intros Heq'. apply (f_equal length) in Heq'. rewrite length_app in Heq'. cbn in Heq'. lia. }
    intros authority_ path_ Hbase.
    destruct (route_base_split authority_ path_ params) as [front1 H1].
    destruct (signer_base_split authority_ path_ created keyId_ expires
                (pre ++ "="%char :: post) (Tag_string tag_)) as [front2 H2].
    rewrite H1, H2 in Hbase. unfold property in Hbase. rewrite Hnonce, Htag in Hbase.
    cbn [default] in Hbase.
    apply last_segment in Hbase as [Hbase _]; [|absent..].
    apply last_segment in Hbase as [_ Hbase]; [|absent..].
    apply app_inv_head in Hbase. apply app_inv_head in Hbase.
    rewrite <- app_assoc in Hbase. apply app_inv_head in Hbase. discriminate.
  - intros Hlen. destruct (nonce_of_shape randomBytes Hlen) as (pre' & Hnonce & _ & Hpre).
    exists pre'. split; [done|].
    rewrite Forall_forall in Hpre.
    repeat split; try compute_done;
      intros Hin; apply Hpre, b64char_plain in Hin; tauto.
Qed.

End Nonce.

(** ** The two builders of the signature base *)

Section Agreement.
Import TapRoutes.

Lemma string_of_uint_numeral (d : Decimal.uint) :
  Forall numeral_char (lit (NilEmpty.string_of_uint d)).
Proof. induction d; cbn; constructor; (compute_done || done). Qed.

Lemma string_of_uint_zero_numeral (d : Decimal.uint) :
  Forall numeral_char (lit (NilZero.string_of_uint d)) /\
  lit (NilZero.string_of_uint d) <> [].
Proof.
  destruct d; (split; [|done]);
    first [ exact (string_of_uint_numeral (Decimal.D0 d))
          | exact (string_of_uint_numeral (Decimal.D1 d))
          | exact (string_of_uint_numeral (Decimal.D2 d))
          | exact (string_of_uint_numeral (Decimal.D3 d))
          | exact (string_of_uint_numeral (Decimal.D4 d))
          | exact (string_of_uint_numeral (Decimal.D5 d))
          | exact (string_of_uint_numeral (Decimal.D6 d))
          | exact (string_of_uint_numeral (Decimal.D7 d))
          | exact (string_of_uint_numeral (Decimal.D8 d))
          | exact (string_of_uint_numeral (Decimal.D9 d))
          | repeat constructor; compute_done ].
Qed.

Lemma Number_toString_numeral (z : Z) :
  Forall numeral_char (JS.Number_toString z) /\ JS.Number_toString z <> [].
Proof.
  unfold JS.Number_toString.
  destruct (Z.to_int z) as [d|d]; destruct (string_of_uint_zero_numeral d) as [Hd Hne].
  - done.
  - split; [|done]. constructor; [compute_done|done].
Qed.

Lemma numeral_plain (s : str) : Forall numeral_char s -> plain s.
Proof.
  intros Hs. rewrite Forall_forall in Hs.
  repeat split; intros Hin; apply Hs in Hin; revert Hin; compute_done.
Qed.

Lemma signatureInput_fields (created : Z) (keyId_ : str) (expires : Z) (nonce_ tag_ : str) :
  TAPSigner.signatureInput created keyId_ expires nonce_ tag_ =
    render_fields (signature_fields (JS.Number_toString created) keyId_
                     (JS.Number_toString expires) nonce_ tag_).
Proof.
  unfold TAPSigner.signatureInput, render_fields, signature_fields, render_field, join.
  cbn [map fst snd].
  repeat (rewrite <- app_assoc || rewrite <- app_comm_cons). reflexivity.
Qed.

Lemma global_match_fields (fs : list (str * str)) :
  Forall plain_field fs -> global_match 0 (render_fields fs) = map render_field fs.
Proof.
  unfold render_fields.
  induction 1 as [|f fs (Hk & Hword & _ & Hv & Hsemi & _) Hfs IH]; [done|].
  destruct fs as [|g fs].
  - cbn [map join]. by apply global_match_field.
  - change (join (lit ";") (map render_field (f :: g :: fs)))
      with (render_field f ++ ";"%char :: join (lit ";") (map render_field (g :: fs))).
    rewrite global_match_semicolon by lia. rewrite IH.
    unfold render_field at 1. by rewrite global_match_field.
Qed.

Lemma forEach_fields (fs : list (str * str)) (params : gmap str str) :
  Forall plain_field fs ->
  forEach (map render_field fs) params = Return (foldl assign params fs).
Proof.
  intros Hfs. revert params.
  induction Hfs as [|f fs (_ & Hword & Hproto & _ & _ & Heq) _ IH]; intros params; [done|].
  cbn [map forEach foldl]. unfold render_field at 1.
  rewrite parse_match_returns.
  2:{ intros Hin. rewrite Forall_forall in Hword. by apply Hword in Hin. }
  cbn [bind]. rewrite IH. f_equal. f_equal.
  unfold assign, set_property, before. rewrite decide_False by done.
  by rewrite split_no_sep.
Qed.

Lemma foldl_assign_other (fs : list (str * str)) (params : gmap str str) (k : str) :
  k ∉ map fst fs -> foldl assign params fs !! k = params !! k.
Proof.
  revert params. induction fs as [|f fs IH]; intros params; [done|].
  cbn. intros [Hne Hk]%not_elem_of_cons. rewrite IH by done.
  unfold assign. by rewrite lookup_insert_ne.
Qed.

Lemma foldl_assign_lookup (fs : list (str * str)) (params : gmap str str) (k v : str) :
  NoDup (map fst fs) -> (k, v) ∈ fs ->
  foldl assign params fs !! k = Some (JS.remove_char "034"%char v).
Proof.
  revert params. induction fs as [|f fs IH]; intros params; [by intros _ ?%elem_of_nil|].
  cbn. intros [Hf Hnodup]%NoDup_cons [<-|Hin]%elem_of_cons.
  - rewrite foldl_assign_other by done. unfold assign. cbn. apply lookup_insert_eq.
  - by apply IH.
Qed.

Lemma remove_quotes_plain (s : str) :
  "034"%char ∉ s -> JS.remove_char "034"%char s = s.
Proof.
  intros Hs. apply filter_all, Forall_forall. by intros c Hc ->.
Qed.

Lemma remove_quotes_wrapped (s : str) :
  "034"%char ∉ s -> JS.remove_char "034"%char (DQ ++ s ++ DQ) = s.
Proof.
  intros Hs. unfold JS.remove_char. rewrite !filter_app.
  fold (JS.remove_char "034"%char s). rewrite remove_quotes_plain by done.
  cbn. apply app_nil_r.
Qed.

(** The route's builder, given the values the signer used, gives the
    signer's base. *)
Lemma createSignatureBase_agree (authority_ path_ : str) (created : Z) (keyId_ : str)
  (expires : Z) (nonce_ tag_ : str) (params : gmap str str) :
  params !! lit "created" = Some (JS.Number_toString created) ->
  params !! lit "keyid" = Some keyId_ ->
  params !! lit "expires" = Some (JS.Number_toString expires) ->
  params !! lit "nonce" = Some nonce_ ->
  params !! lit "tag" = Some tag_ ->
  createSignatureBase authority_ path_ params =
    TAPSigner.createSignatureBase authority_ path_ created keyId_ expires nonce_ tag_.
Proof.
  intros Hc Hk He Hn Ht. unfold createSignatureBase, TAPSigner.createSignatureBase, property.
  by rewrite Hc, Hk, He, Hn, Ht.
Qed.

Lemma signature_fields_plain (created : Z) (keyId_ : str) (expires : Z) (nonce_ tag_ : str) :
  plain keyId_ -> plain nonce_ -> plain tag_ ->
  Forall plain_field
    (signature_fields (JS.Number_toString created) keyId_ (JS.Number_toString expires)
       nonce_ tag_).
Proof.
  intros (Hk1 & Hk2 & _) (Hn1 & Hn2 & _) (Ht1 & Ht2 & _).
  destruct (Number_toString_numeral created) as [(Hc1 & Hc2 & _)%numeral_plain Hc].
  destruct (Number_toString_numeral expires) as [(He1 & He2 & _)%numeral_plain He].
  unfold signature_fields.
  repeat (constructor; [unfold plain_field; cbn [fst snd]; repeat split;
                        first [done | compute_done | absent]|]).
  constructor.
Qed.

(** C5. The builder of the signer and the builder of the [/verify] route
    are functions of their arguments that give the same string whenever the
    route's parameters hold the values the signer used. The parameters of a
    [Signature-Input] value may come in any order: when they are those the
    signer writes (with a key id, a nonce and a tag free of [;], [=] and
    quotes), the parser returns the same parameters and the route rebuilds
    the signer's base, its fields in the canonical order. *)
Theorem createSignatureBase_agreement
  (authority_ path_ : str) (created : Z) (keyId_ : str) (expires : Z) (nonce_ tag_ : str)
  (params : gmap str str) (fs : list (str * str)) :
  (params !! lit "created" = Some (JS.Number_toString created) ->
   params !! lit "keyid" = Some keyId_ ->
   params !! lit "expires" = Some (JS.Number_toString expires) ->
   params !! lit "nonce" = Some nonce_ ->
   params !! lit "tag" = Some tag_ ->
   createSignatureBase authority_ path_ params =
     TAPSigner.createSignatureBase authority_ path_ created keyId_ expires nonce_ tag_) /\
  TAPSigner.signatureInput created keyId_ expires nonce_ tag_ =
    render_fields (signature_fields (JS.Number_toString created) keyId_
                     (JS.Number_toString expires) nonce_ tag_) /\
  (plain keyId_ -> plain nonce_ -> plain tag_ ->
   fs ≡ₚ signature_fields (JS.Number_toString created) keyId_ (JS.Number_toString expires)
           nonce_ tag_ ->
   exists params',
     parseSignatureInput (render_fields fs) = Return params' /\
     createSignatureBase authority_ path_ params' =
       TAPSigner.createSignatureBase authority_ path_ created keyId_ expires nonce_ tag_).
Proof.
  split; [apply createSignatureBase_agree|]. split; [apply signatureInput_fields|].
  intros Hk Hn Ht Hperm.
  pose proof (signature_fields_plain created keyId_ expires nonce_ tag_ Hk Hn Ht) as Hcanon.
  assert (Hfs : Forall plain_field fs).
  { eapply Permutation_Forall; [symmetry; exact Hperm|done]. }
  assert (Hnodup : NoDup (map fst fs)).
  { change (map fst fs) with (fst <$> fs). rewrite Hperm.
    cbn [signature_fields fmap list_fmap fst]. compute_done. }
  assert (Hin : forall k v,
             (k, v) ∈ signature_fields (JS.Number_toString created) keyId_
                        (JS.Number_toString expires) nonce_ tag_ ->
             foldl assign ∅ fs !! k = Some (JS.remove_char "034"%char v)).
  { intros k v Hkv. apply foldl_assign_lookup; [done|]. by rewrite Hperm. }
  exists (foldl assign ∅ fs). split.
  { unfold parseSignatureInput. rewrite global_match_fields by done.
    by apply forEach_fields. }
  destruct Hk as (_ & _ & Hk), Hn as (_ & _ & Hn), Ht as (_ & _ & Ht).
  destruct (Number_toString_numeral created) as [(_ & _ & Hc)%numeral_plain _].
  destruct (Number_toString_numeral expires) as [(_ & _ & He)%numeral_plain _].
  apply createSignatureBase_agree.
  - rewrite (Hin _ (JS.Number_toString created)); [by rewrite remove_quotes_plain|].
    unfold signature_fields. set_solver.
  - rewrite (Hin _ (DQ ++ keyId_ ++ DQ)); [by rewrite remove_quotes_wrapped|].
    unfold signature_fields. set_solver.
  - rewrite (Hin _ (JS.Number_toString expires)); [by rewrite remove_quotes_plain|].
    unfold signature_fields. set_solver.
  - rewrite (Hin _ (DQ ++ nonce_ ++ DQ)); [by rewrite remove_quotes_wrapped|].
    unfold signature_fields. set_solver.
  - rewrite (Hin _ (DQ ++ tag_ ++ DQ)); [by rewrite remove_quotes_wrapped|].
    unfold signature_fields. set_solver.
Qed.

End Agreement.

(** ** The signature base *)

Lemma split_join (c : ascii) (lines : list str) :
  lines <> [] -> Forall (fun l => c ∉ l) lines -> JS.split c (join [c] lines) = lines.
Proof.
  intros Hne Hlines. induction Hlines as [|l lines Hl Hlines IH]; [done|].
  destruct lines as [|l' lines].
  - by apply split_no_sep.
  - change (join [c] (l :: l' :: lines)) with (l ++ c :: join [c] (l' :: lines)).
    rewrite split_sep by done. by rewrite IH.
Qed.

Lemma numeral_no_line_feed (s : str) : Forall numeral_char s -> "010"%char ∉ s.
Proof.
  intros Hs Hin. rewrite Forall_forall in Hs. apply Hs in Hin. revert Hin. compute_done.
Qed.

(** C2. For every tuple (authority, path, created, keyId, expires, nonce,
    tag), [createSignatureBase] returns exactly the three canonical lines
    joined by single line feeds, every field inserted as given; the string
    ends with the closing quote of the tag, so no line feed trails it; its
    third line carries the very [Signature-Input] value the signer emits;
    and when no field holds a line feed, splitting the base at the line
    feeds gives back exactly the three lines. *)
Theorem createSignatureBase_canonical
  (authority_ path_ : str) (created : Z) (keyId_ : str) (expires : Z) (nonce_ tag_ : str) :
  TAPSigner.createSignatureBase authority_ path_ created keyId_ expires nonce_ tag_
    = join LF (canonical_lines authority_ path_ created keyId_ expires nonce_ tag_) /\
  last (TAPSigner.createSignatureBase authority_ path_ created keyId_ expires nonce_ tag_)
    = Some "034"%char /\
  TAPSigner.createSignatureBase authority_ path_ created keyId_ expires nonce_ tag_
    = (DQ ++ lit "@authority" ++ DQ ++ lit ": " ++ authority_) ++ LF ++
      (DQ ++ lit "@path" ++ DQ ++ lit ": " ++ path_) ++ LF ++
      (DQ ++ lit "@signature-params" ++ DQ ++ lit ": " ++
         TAPSigner.signatureInput created keyId_ expires nonce_ tag_) /\
  ("010"%char ∉ authority_ -> "010"%char ∉ path_ -> "010"%char ∉ keyId_ ->
   "010"%char ∉ nonce_ -> "010"%char ∉ tag_ ->
   JS.split "010"%char
     (TAPSigner.createSignatureBase authority_ path_ created keyId_ expires nonce_ tag_)
   = canonical_lines authority_ path_ created keyId_ expires nonce_ tag_).
Proof.
  assert (Hjoin :
    TAPSigner.createSignatureBase authority_ path_ created keyId_ expires nonce_ tag_
    = join LF (canonical_lines authority_ path_ created keyId_ expires nonce_ tag_)).
  { unfold TAPSigner.createSignatureBase, canonical_lines, join.
    repeat rewrite <- app_assoc. reflexivity. }
  split; [exact Hjoin|]. split; [|split].
  - unfold TAPSigner.createSignatureBase. unfold DQ at 10.
    repeat rewrite app_assoc. apply last_snoc.
  - unfold TAPSigner.createSignatureBase, TAPSigner.signatureInput.
    repeat rewrite <- app_assoc. reflexivity.
  - intros Ha Hp Hk Hn Ht. rewrite Hjoin. apply split_join; [done|].
    destruct (Number_toString_numeral created) as [Hc%numeral_no_line_feed _].
    destruct (Number_toString_numeral expires) as [He%numeral_no_line_feed _].
    unfold canonical_lines. repeat (constructor; [absent|]). constructor.
Qed.

(** ** The model at concrete inputs *)

(** The stand-in scheme verifies what it signs, under the public half of
    the secret key. *)
Lemma standin_key_matches (sk : list byte) :
  length sk = 64%nat -> key_matches (H := Standin.ed25519) (drop 32 sk) sk.
Proof.
  intros Hsk msg sig Hsig.
  apply (sign_detached_inv (H := Standin.ed25519)) in Hsig as (_ & -> & Hlen).
  unfold nacl.sign_detached_verify. rewrite Hlen, length_drop, Hsk. cbn [Nat.eqb negb Nat.sub].
  f_equal. cbn [crypto_sign crypto_sign_open Standin.ed25519].
  apply bool_decide_eq_true.
  assert (Hs : length (Standin.signature_of (drop 32 sk) msg) = 64%nat)
    by apply length_resize.
  remember (Standin.signature_of (drop 32 sk) msg) as s eqn:Hdef.
  assert (Hresize : resize 64 x00 (s ++ msg) = s).
  { rewrite resize_app_le by lia. rewrite <- Hs. apply resize_all. }
  rewrite Hresize.
  rewrite (take_app_length' s msg 64 (eq_sym Hs)), (drop_app_length' s msg 64 (eq_sym Hs)).
  done.
Qed.


Lemma verify_fails_closed_witness :
  TAPSigner.verifySignature (H := Standin.ed25519) Sample.signerA Sample.base
    (lit "sig2=:AAAA:") None = Return false /\
  TAPSigner.verifySignature (H := Standin.ed25519) Sample.signerA Sample.base
    (lit "AAAA") None = Return false.
Proof.
  split.
  - apply (verify_fails_closed (H := Standin.ed25519) Sample.signerA Sample.base
             (lit "sig2=:AAAA:") None []) with (err := InvalidCharacterError).
    vm_compute. reflexivity.
  - apply (verify_fails_closed (H := Standin.ed25519) Sample.signerA Sample.base
             (lit "AAAA") None []) with (sigBytes := [x00; x00; x00]).
    + vm_compute. reflexivity.
    + cbn. lia.
Defined.

Lemma signTAPRequest_postcondition_witness :
  exists envelope,
    TAPSigner.signTAPRequest (H := Standin.ed25519) Sample.signerA Sample.now Sample.request
      = Return envelope /\
    Signature_Input envelope =
      wire_signature_input 1700000000 (TAPSigner.getKeyId Sample.signerA) (1700000000 + 480)
        (lit "AAAA") (lit "agent-payer-auth").
Proof.
  destruct (signTAPRequest_postcondition (H := Standin.ed25519) Sample.signerA Sample.now
              Sample.request) as (created & expires & sig & -> & -> & _ & _ & _ & _ & Hsign).
  - reflexivity.
  - eexists. split; [exact Hsign|]. reflexivity.
Defined.


Lemma getKeyId_derivation_witness :
  exists this,
    TAPSigner.new Sample.keyPairB (Some (Bs58.encode Sample.secretKeyA))
      (Some (lit "pocketlp-key")) = Return this /\
    TAPSigner.getKeyId this = lit "pocketlp-key".
Proof.
  pose proof (getKeyId_derivation Sample.keyPairB (Some (Bs58.encode Sample.secretKeyA))
                (Some (lit "pocketlp-key"))) as Hid.
  destruct (TAPSigner.new Sample.keyPairB (Some (Bs58.encode Sample.secretKeyA))
              (Some (lit "pocketlp-key"))) as [this|err] eqn:Hnew.
  - exists this. split; [reflexivity|]. rewrite (Hid this eq_refl). vm_compute. reflexivity.
  - exfalso. vm_compute in Hnew. discriminate Hnew.
Defined.

(** C8 as stated fails: a key id given without a private key is not the
    key id of the signer, which is derived from the key drawn. *)
Lemma keyId_override_without_private_key :
  exists this,
    TAPSigner.new Sample.keyPairB None (Some (lit "pocketlp-key")) = Return this /\
    TAPSigner.getKeyId this <> lit "pocketlp-key" /\
    TAPSigner.getKeyId this = Bs58.encode (publicKey (TAPSigner.keyPair this)).
Proof. eexists. split; [reflexivity|]. split; [by vm_compute|reflexivity]. Qed.

(** C7 as stated fails: a public key of one byte is mapped to a JWK, not
    rejected. *)
Lemma ed25519ToJWK_accepts_short_key :
  exists jwk,
    VisaKeyRegistry.ed25519ToJWK (Bs58.encode [x01]) (lit "k") = Return jwk /\
    VisaKeyRegistry.x jwk = Some (lit "AQ").
Proof. eexists. split; [vm_compute; reflexivity|reflexivity]. Qed.


Lemma createSignatureBase_agreement_witness :
  TapRoutes.createSignatureBase (lit "merchant.example") (lit "/checkout") Sample.params =
    TAPSigner.createSignatureBase (lit "merchant.example") (lit "/checkout") 1700000000
      (lit "kid-1") 1700000480 (lit "AAAA") (lit "agent-payer-auth") /\
  exists params',
    TapRoutes.parseSignatureInput (render_fields Sample.reversed_fields) = Return params' /\
    TapRoutes.createSignatureBase (lit "merchant.example") (lit "/checkout") params' =
      TAPSigner.createSignatureBase (lit "merchant.example") (lit "/checkout") 1700000000
        (lit "kid-1") 1700000480 (lit "AAAA") (lit "agent-payer-auth").
Proof.
  destruct (createSignatureBase_agreement (lit "merchant.example") (lit "/checkout")
              1700000000 (lit "kid-1") 1700000480 (lit "AAAA") (lit "agent-payer-auth")
              Sample.params Sample.reversed_fields) as (Hagree & _ & Hparse).
  split.
  - apply Hagree; vm_compute; reflexivity.
  - apply Hparse.
    + repeat split; compute_done.
    + repeat split; compute_done.
    + repeat split; compute_done.
    + unfold Sample.reversed_fields. symmetry. apply Permutation_rev.
Defined.


Lemma parseSignatureInput_truncates_nonce_witness :
  (exists params,
     TapRoutes.parseSignatureInput
       (TAPSigner.signatureInput 1700000000 (lit "kid-1") 1700000480 (lit "AAAA==")
          (Tag_string agent_payer_auth)) = Return params /\
     params !! lit "nonce" = Some (lit "AAAA")) /\
  (exists pre, TapRoutes.nonce_of (replicate 64 x00) = pre ++ lit "==").
Proof.
  destruct (parseSignatureInput_truncates_nonce 1700000000 (lit "kid-1") 1700000480
              (lit "AAAA") (lit "=") agent_payer_auth (replicate 64 x00)) as [Hcut Hroute].
  split.
  - destruct Hcut as (params & Hparse & Hnonce & _); [compute_done..|].
    exists params. split; [exact Hparse|exact Hnonce].
  - destruct Hroute as (pre & Hpre & _); [reflexivity|].
    exists pre. exact Hpre.
Defined.

Lemma createSignatureBase_canonical_witness :
  JS.split "010"%char Sample.base =
    canonical_lines (lit "merchant.example") (lit "/checkout") 1700000000
      (TAPSigner.getKeyId Sample.signerA) 1700000480 (lit "AAAA") (lit "agent-payer-auth").
Proof.
  apply (createSignatureBase_canonical (lit "merchant.example") (lit "/checkout") 1700000000
           (TAPSigner.getKeyId Sample.signerA) 1700000480 (lit "AAAA")
           (lit "agent-payer-auth")); compute_done.
Defined.

(** * Further properties of the code *)

(** ** The handlers of [/sign] and [/verify] *)

Section Handlers_facts.
Context `{Ed25519} {buffer : BufferBase64}.
Import Handlers.

Lemma verify_returns (tapSigner : TAPSigner.t) (signatureBase signature : str)
  (pubKeyBytes : list byte) :
  exists valid, TapRoutes.verify tapSigner signatureBase signature pubKeyBytes = Return valid.
Proof. unfold TapRoutes.verify. rewrite verifySignature_returns. eauto. Qed.

(** X2. The [/verify] route never takes its [catch] branch for a body
    whose fields are strings: [parseSignatureInput] and the verifier always
    return. The answer is 400, with its message, exactly when one of
    [signatureInput], [signature], [authority] and [path] is missing or
    empty. Otherwise it is 200, and its [valid] is what [verifySignature]
    returns for the base rebuilt from the parsed parameters, the signature
    without its [sig2=:] and [:], and the bytes [Buffer.from(..., 'base64')]
    reads from the [publicKey] field, or from the signer's own key text
    when that field is missing or empty; with it come the [keyid],
    [created] and [expires] parameters as parsed. *)
Theorem post_verify_never_500 (tapSigner : TAPSigner.t)
  (signatureInput signature authority_ path_ publicKey_ : option str) :
  exists (params : gmap str str) (valid : bool),
    TapRoutes.parseSignatureInput (default [] signatureInput) = Return params /\
    TAPSigner.verifySignature tapSigner
      (TapRoutes.createSignatureBase (default [] authority_) (default [] path_) params)
      (JS.replace_trailing_char ":"%char
         (JS.replace_prefix (lit "sig2=:") (default [] signature)))
      (Some (Buffer_from_base64
               (if truthy publicKey_ then default [] publicKey_
                else TAPSigner.getPublicKey tapSigner))) = Return valid /\
    post_verify tapSigner signatureInput signature authority_ path_ publicKey_ =
      if truthy signatureInput && truthy signature && truthy authority_ && truthy path_
      then {| status := 200;
              json := VerifyResult valid (params !! lit "keyid") (params !! lit "created")
                        (params !! lit "expires") |}
      else {| status := 400; json := VerifyError (lit "Missing required verification fields") |}.
Proof.
  destruct (parseSignatureInput_returns (default [] signatureInput)) as [params Hparams].
  exists params.
  set (pk := Buffer_from_base64
               (if truthy publicKey_ then default [] publicKey_
                else TAPSigner.getPublicKey tapSigner)).
  destruct (verify_returns tapSigner
              (TapRoutes.createSignatureBase (default [] authority_) (default [] path_) params)
              (default [] signature) pk) as [valid Hvalid].
  exists valid. split; [done|]. split; [exact Hvalid|].
  unfold post_verify.
  destruct (truthy signatureInput), (truthy signature), (truthy authority_), (truthy path_);
    cbn [negb orb andb]; try reflexivity.
  rewrite Hparams. cbn [bind].
  replace (if truthy publicKey_ then Buffer_from_base64 (default [] publicKey_)
           else Buffer_from_base64 (TAPSigner.getPublicKey tapSigner)) with pk
    by (subst pk; by destruct (truthy publicKey_)).
  rewrite Hvalid. reflexivity.
Qed.

End Handlers_facts.

Section Handlers_round_trip.
Context `{Ed25519} {buffer : BufferBase64}.
Import Handlers.

Lemma Tag_string_plain (t : Tag) : plain (Tag_string t).
Proof. destruct t; repeat split; compute_done. Qed.

Lemma parse_signed_input (created : Z) (keyId_ : str) (expires : Z) (nonce_ : str) (t : Tag) :
  plain keyId_ -> plain nonce_ ->
  exists params,
    TapRoutes.parseSignatureInput
      (TAPSigner.signatureInput created keyId_ expires nonce_ (Tag_string t)) = Return params /\
    params !! lit "created" = Some (JS.Number_toString created) /\
    params !! lit "keyid" = Some keyId_ /\
    params !! lit "expires" = Some (JS.Number_toString expires) /\
    params !! lit "nonce" = Some nonce_ /\
    params !! lit "tag" = Some (Tag_string t).
Proof.
  intros Hk Hn. pose proof (Tag_string_plain t) as Ht.
  pose proof (signature_fields_plain created keyId_ expires nonce_ _ Hk Hn Ht) as Hfs.
  set (fs := signature_fields (JS.Number_toString created) keyId_
               (JS.Number_toString expires) nonce_ (Tag_string t)) in *.
  assert (Hnodup : NoDup (map fst fs)) by (subst fs; cbn [signature_fields map fst]; compute_done).
  assert (Hin : forall k v, (k, v) ∈ fs ->
             foldl assign ∅ fs !! k = Some (JS.remove_char "034"%char v)).
  { intros k v Hkv. by apply foldl_assign_lookup. }
  exists (foldl assign ∅ fs). split.
  { rewrite signatureInput_fields. fold fs. unfold TapRoutes.parseSignatureInput.
    rewrite global_match_fields by done. by apply forEach_fields. }
  destruct Hk as (_ & _ & Hk), Hn as (_ & _ & Hn), Ht as (_ & _ & Ht).
  destruct (Number_toString_numeral created) as [(_ & _ & Hc)%numeral_plain _].
  destruct (Number_toString_numeral expires) as [(_ & _ & He)%numeral_plain _].
  repeat split.
  - rewrite (Hin _ (JS.Number_toString created)); [by rewrite remove_quotes_plain|].
    subst fs. unfold signature_fields. set_solver.
  - rewrite (Hin _ (DQ ++ keyId_ ++ DQ)); [by rewrite remove_quotes_wrapped|].
    subst fs. unfold signature_fields. set_solver.
  - rewrite (Hin _ (JS.Number_toString expires)); [by rewrite remove_quotes_plain|].
    subst fs. unfold signature_fields. set_solver.
  - rewrite (Hin _ (DQ ++ nonce_ ++ DQ)); [by rewrite remove_quotes_wrapped|].
    subst fs. unfold signature_fields. set_solver.
  - rewrite (Hin _ (DQ ++ Tag_string t ++ DQ)); [by rewrite remove_quotes_wrapped|].
    subst fs. unfold signature_fields. set_solver.
Qed.

(** X3. What a signer signs, the [/verify] route of any agent accepts:
    for a request with an authority and a path that are not empty, a key
    id and a nonce free of [;], [=] and quotes, and a [publicKey] field
    that [Buffer.from(..., 'base64')] reads as a public key matching the
    signer's secret key, the route answers 200 with [valid: true], the key
    id of the signer and the two times of the envelope. *)
Theorem post_verify_accepts_signed_request (signer verifier : TAPSigner.t) (now : Z)
  (req : TAPRequestData) (envelope : TAPSignature) (publicKeyText : str) :
  authority req <> [] -> path req <> [] -> publicKeyText <> [] ->
  plain (TAPSigner.getKeyId signer) -> plain (nonce req) ->
  key_matches (Buffer_from_base64 publicKeyText) (secretKey (TAPSigner.keyPair signer)) ->
  TAPSigner.signTAPRequest signer now req = Return envelope ->
  post_verify verifier (Some (Signature_Input envelope)) (Some (Signature envelope))
    (Some (authority req)) (Some (path req)) (Some publicKeyText) =
    {| status := 200;
       json := VerifyResult true (Some (TAPSigner.getKeyId signer))
                 (Some (JS.Number_toString (now / 1000)))
                 (Some (JS.Number_toString (now / 1000 + 480))) |}.
Proof.
  intros Ha Hp Hpk Hk Hn Hkey Hsign.
  pose proof (signTAPRequest_inv _ _ _ _ Hsign) as Hlen.
  pose proof (verify_signed_envelope signer verifier now req envelope
                (Some (Buffer_from_base64 publicKeyText)) Hkey Hsign) as Hverify.
  rewrite (signTAPRequest_returns _ _ _ Hlen) in Hsign.
  apply Return_inj in Hsign. 
  destruct (parse_signed_input (now / 1000) (TAPSigner.getKeyId signer) (now / 1000 + 480)
              (nonce req) (tag req) Hk Hn) as (params & Hparse & Hc & Hkid & He & Hno & Ht).
  unfold post_verify.
  assert (Hsi : Signature_Input envelope =
                TAPSigner.signatureInput (now / 1000) (TAPSigner.getKeyId signer)
                  (now / 1000 + 480) (nonce req) (Tag_string (tag req))) by by subst envelope.
  assert (Hsig : truthy (Some (Signature envelope)) = true) by by subst envelope.
  assert (Hsit : truthy (Some (Signature_Input envelope)) = true) by by rewrite Hsi.
  rewrite Hsit, Hsig.
  destruct (authority req) as [|a0 a] eqn:Eauth; [done|].
  destruct (path req) as [|p0 p] eqn:Epath; [done|].
  destruct publicKeyText as [|k0 k]; [done|].
  cbn [truthy negb orb default from_option id].
  rewrite Hsi, Hparse. cbn [bind].
  rewrite (createSignatureBase_agree _ _ _ _ _ _ _ _ Hc Hkid He Hno Ht).
  unfold TapRoutes.verify. cbn [default] in Hverify. rewrite Hverify. cbn [bind].
  by rewrite Hkid, Hc, He.
Qed.

End Handlers_round_trip.

(** ** The signature text *)

Section Decoding.
Context `{Ed25519}.

Lemma replacements_unurl (data : str) :
  JS.replace_char "_"%char "/"%char (JS.replace_char "-"%char "+"%char data)
  = map Base64.unurl_char data.
Proof. unfold JS.replace_char. rewrite map_map. reflexivity. Qed.

Lemma remove_padding_keeps (c : ascii) (d : str) :
  c <> "="%char -> c ∈ d -> c ∈ Base64.remove_padding d.
Proof.
  intros Hc Hin. unfold Base64.remove_padding.
  assert (E : d = rev (rev d)) by (by rewrite rev_involutive).
  destruct (rev d) as [|c1 [|c2 r]]; [done| |].
  - destruct (Ascii.eqb_spec c1 "="%char) as [->|]; [|done].
    subst d. by apply list_elem_of_singleton in Hin.
  - destruct (Ascii.eqb_spec c1 "="%char) as [->|]; [|done].
    cbn [rev] in E |- *. subst d. rewrite !elem_of_app, !list_elem_of_singleton in Hin.
    destruct (Ascii.eqb_spec c2 "="%char) as [->|].
    + by destruct Hin as [[?|?]|?].
    + rewrite elem_of_app, list_elem_of_singleton. by destruct Hin as [?|?].
Qed.

Lemma atob_invalid_character (c : ascii) (data : str) :
  c ∈ data -> Base64.is_ascii_whitespace c = false -> c <> "="%char ->
  Base64.sextet_of_char c = None ->
  Base64.atob data = Throw InvalidCharacterError.
Proof.
  intros Hin Hws Hpad Hsextet. unfold Base64.atob.
  set (d1 := filter _ data).
  assert (H1 : c ∈ d1) by (by apply list_elem_of_filter).
  set (d2 := if (length d1 mod 4 =? 0)%nat then Base64.remove_padding d1 else d1).
  assert (H2 : c ∈ d2).
  { subst d2. destruct (_ =? _)%nat; [by apply remove_padding_keeps|done]. }
  destruct (_ =? 1)%nat; [done|].
  rewrite (mapM_None_2 Base64.sextet_of_char d2); [done|].
  apply Exists_exists. eauto.
Qed.

Lemma base64UrlDecode_invalid_character (c : ascii) (data : str) :
  c ∈ data -> Base64.is_ascii_whitespace c = false -> c <> "="%char ->
  Base64.sextet_of_char (Base64.unurl_char c) = None ->
  TAPSigner.base64UrlDecode data = Throw InvalidCharacterError.
Proof.
  intros Hin Hws Hpad Hsextet. unfold TAPSigner.base64UrlDecode.
  rewrite replacements_unurl.
  assert (Hc : Base64.unurl_char c = c).
  { unfold Base64.unurl_char in *.
    destruct (Ascii.eqb c "-"%char); [done|].
    by destruct (Ascii.eqb c "_"%char). }
  rewrite Hc in Hsextet.
  rewrite (atob_invalid_character c); [done| |done..].
  apply elem_of_app. left. rewrite <- Hc. by apply list_elem_of_fmap_2.
Qed.

(** X5. A signature text with a character that is neither of the two
    base64 alphabets, nor ASCII whitespace, nor [=], is rejected with
    [false]: [atob] throws and the verifier catches. So is every
    [Signature] header value passed whole, with its [sig2=:] and [:]
    around the signature. *)
Theorem verifySignature_rejects_foreign_characters (this : TAPSigner.t)
  (signatureBase signature : str) (publicKey_ : option (list byte)) :
  (forall c, c ∈ signature -> Base64.is_ascii_whitespace c = false -> c <> "="%char ->
     Base64.sextet_of_char (Base64.unurl_char c) = None ->
     TAPSigner.verifySignature this signatureBase signature publicKey_ = Return false) /\
  TAPSigner.verifySignature this signatureBase (lit "sig2=:" ++ signature ++ lit ":") publicKey_
    = Return false.
Proof.
  assert (Hgen : forall s c, c ∈ s -> Base64.is_ascii_whitespace c = false -> c <> "="%char ->
     Base64.sextet_of_char (Base64.unurl_char c) = None ->
     TAPSigner.verifySignature this signatureBase s publicKey_ = Return false).
  { intros s c Hin Hws Hpad Hsextet. rewrite verifySignature_returns.
    by rewrite (base64UrlDecode_invalid_character c s). }
  split; [apply Hgen|].
  apply (Hgen _ ":"%char); [|done..].
  apply elem_of_app. right. apply elem_of_app. right. compute_done.
Qed.

End Decoding.

Section Decoding_tolerance.

Lemma unurl_url_char_any (c : ascii) :
  Base64.unurl_char (Base64.url_char c) = Base64.unurl_char c.
Proof.
  unfold Base64.unurl_char, Base64.url_char.
  destruct (Ascii.eqb_spec c "+"%char) as [->|]; [done|].
  destruct (Ascii.eqb_spec c "/"%char) as [->|]; [done|].
  reflexivity.
Qed.

Lemma unurl_b64char (c : ascii) : Base64.b64char c -> Base64.unurl_char c = c.
Proof. intros Hc. rewrite <- unurl_url_char_any. by apply unurl_url_char. Qed.

Lemma encode_length_mod_4 (s : str) : (length (Base64.encode s) mod 4 = 0)%nat.
Proof.
  unfold Base64.encode, JS.repeat_char. fold (Base64.body s).
  rewrite length_app, length_replicate, padding_length.
  apply Nat.eqb_eq, padded_length_mod_4.
Qed.

Lemma unurl_encode (s : str) : map Base64.unurl_char (Base64.encode s) = Base64.encode s.
Proof.
  unfold Base64.encode, JS.repeat_char. fold (Base64.body s).
  rewrite map_app. f_equal.
  - rewrite <- (map_id (Base64.body s)) at 2. apply map_ext_Forall.
    eapply Forall_impl; [apply body_b64char|]. intros c Hc. by apply unurl_b64char.
  - generalize ((3 - length s mod 3) mod 3)%nat. intros n. induction n as [|n IH]; [done|].
    cbn. by f_equal.
Qed.

End Decoding_tolerance.

Section Signature_text.
Context `{Ed25519}.

(** X6. The verifier does not tell the two base64 alphabets apart:
    writing a signature text with [-] and [_] for [+] and [/] changes
    neither what [base64UrlDecode] gives nor the verdict, and the padded
    standard base64 text of a signature decodes to its bytes and gets the
    verdict of its unpadded base64url text. *)
Theorem verifySignature_reads_both_alphabets (this : TAPSigner.t) (signatureBase data : str)
  (bytes : list byte) (publicKey_ : option (list byte)) :
  TAPSigner.base64UrlDecode (map Base64.url_char data) = TAPSigner.base64UrlDecode data /\
  TAPSigner.base64UrlDecode (Base64.Buffer_toString_base64 bytes) = Return bytes /\
  TAPSigner.verifySignature this signatureBase (map Base64.url_char data) publicKey_
    = TAPSigner.verifySignature this signatureBase data publicKey_ /\
  TAPSigner.verifySignature this signatureBase (Base64.Buffer_toString_base64 bytes) publicKey_
    = TAPSigner.verifySignature this signatureBase (Base64.base64url_nopad bytes) publicKey_.
Proof.
  assert (Hurl : TAPSigner.base64UrlDecode (map Base64.url_char data)
                 = TAPSigner.base64UrlDecode data).
  { unfold TAPSigner.base64UrlDecode. rewrite !replacements_unurl, map_map.
    by rewrite (map_ext _ _ unurl_url_char_any). }
  assert (Hstd : TAPSigner.base64UrlDecode (Base64.Buffer_toString_base64 bytes) = Return bytes).
  { unfold TAPSigner.base64UrlDecode, Base64.Buffer_toString_base64.
    rewrite replacements_unurl, unurl_encode, encode_length_mod_4.
    change ((4 - 0) mod 4)%nat with 0%nat. cbn [JS.repeat_char replicate].
    rewrite app_nil_r, atob_encode. cbn [bind]. rewrite map_map. f_equal.
    rewrite <- (map_id bytes) at 2. apply map_ext, byte_of_ascii_of_byte. }
  repeat split; [done..| |].
  - by rewrite !verifySignature_returns, Hurl.
  - by rewrite !verifySignature_returns, Hstd, base64UrlDecode_base64url.
Qed.

End Signature_text.

(** ** The answers of the handlers *)

Section Handlers_edges.
Context `{Ed25519} {buffer : BufferBase64}.
Import Handlers.

(** X4. Without a [publicKey] field the [/verify] route reads the signer's
    own key text, which is base58, as base64. Whenever the bytes this gives
    are not 32 (as for a key text of 44 characters), the route answers 200
    with [valid: false], whatever the signature. *)
Theorem post_verify_default_key_rejects (tapSigner : TAPSigner.t)
  (signatureInput signature authority_ path_ : str) (publicKey_ : option str) :
  truthy publicKey_ = false ->
  length (Buffer_from_base64 (TAPSigner.getPublicKey tapSigner)) <> 32%nat ->
  signatureInput <> [] -> signature <> [] -> authority_ <> [] -> path_ <> [] ->
  exists params,
    TapRoutes.parseSignatureInput signatureInput = Return params /\
    post_verify tapSigner (Some signatureInput) (Some signature) (Some authority_) (Some path_)
      publicKey_ =
      {| status := 200;
         json := VerifyResult false (params !! lit "keyid") (params !! lit "created")
                   (params !! lit "expires") |}.
Proof.
  intros Hpk Hlen Hsi Hsig Ha Hp.
  destruct (parseSignatureInput_returns signatureInput) as [params Hparams].
  exists params. split; [done|]. unfold post_verify. rewrite Hpk.
  destruct signatureInput; [done|]. destruct signature; [done|].
  destruct authority_; [done|]. destruct path_; [done|].
  cbn [truthy negb orb default from_option id]. rewrite Hparams. cbn [bind].
  unfold TapRoutes.verify. rewrite verifySignature_returns. cbn [bind default from_option id].
  apply Nat.eqb_neq in Hlen.
  destruct (TAPSigner.base64UrlDecode _); [|done].
  by rewrite Hlen, andb_false_r.
Qed.

Lemma signTAPRequest_call_typed (this : TAPSigner.t) (now : Z) (req : TAPRequestData) :
  signTAPRequest_call this now (authority req) (path req) (nonce req) (Tag_string (tag req))
  = TAPSigner.signTAPRequest this now req.
Proof. reflexivity. Qed.

Lemma signTAPRequest_call_returns (this : TAPSigner.t) (now : Z)
  (authority_ path_ nonce_ tag_ : str) :
  signTAPRequest_call this now authority_ path_ nonce_ tag_ =
    let* sig :=
      nacl.sign_detached
        (TextEncoder_encode
           (join LF (canonical_lines authority_ path_ (now / 1000) (TAPSigner.getKeyId this)
                       (now / 1000 + 480) nonce_ tag_)))
        (secretKey (TAPSigner.keyPair this)) in
    Return {| Signature_Input :=
                wire_signature_input (now / 1000) (TAPSigner.getKeyId this)
                  (now / 1000 + 480) nonce_ tag_;
              Signature := lit "sig2=:" ++ Base64.base64url_nopad sig ++ lit ":" |}.
Proof.
  unfold signTAPRequest_call. fold (TAPSigner.getKeyId this).
  rewrite signer_base_lines, signatureInput_wire.
  destruct (nacl.sign_detached _ _) as [sig|err]; [|done].
  cbn [bind]. by rewrite base64UrlEncode_spec.
Qed.

(** X1. The [/sign] route answers 400, with its message, when the
    authority, the path or the tag is missing or empty; otherwise it
    answers 500 when the signer's secret key is not of 64 bytes, and
    otherwise 200 with this body: the key id of the signer, the base64
    text of the bytes drawn as nonce, the base58 text of the signer's
    public key (which decodes to that key), and a signature whose
    [Signature-Input] is the wire format for the whole seconds of the
    clock, these plus 480, the signer's key id, that nonce and the tag of
    the body, and whose [Signature] is [sig2=:], the unpadded base64url of
    the detached signature over the three canonical lines of these
    values, and [:]. For a tag of the declared type this signature is the
    envelope [signTAPRequest] returns; when the signer's public key
    matches its secret key, the [/verify] call of any agent accepts it
    against the canonical lines. *)
Theorem post_sign_answers (tapSigner : TAPSigner.t) (now : Z) (randomBytes : list byte)
  (authority_ path_ tag_ : option str) :
  let sk := secretKey (TAPSigner.keyPair tapSigner) in
  let pk := publicKey (TAPSigner.keyPair tapSigner) in
  let created := (now / 1000)%Z in
  let nonce_ := Base64.Buffer_toString_base64 randomBytes in
  let base :=
    join LF (canonical_lines (default [] authority_) (default [] path_) created
               (TAPSigner.getKeyId tapSigner) (created + 480) nonce_ (default [] tag_)) in
  (truthy authority_ && truthy path_ && truthy tag_ = false ->
   post_sign tapSigner now randomBytes authority_ path_ tag_ =
     {| status := 400;
        json := SignError (lit "Missing required fields: authority, path, tag") |}) /\
  (truthy authority_ && truthy path_ && truthy tag_ = true -> length sk <> 64%nat ->
   post_sign tapSigner now randomBytes authority_ path_ tag_ =
     {| status := 500; json := SignError (lit "Failed to sign request") |}) /\
  (truthy authority_ && truthy path_ && truthy tag_ = true -> length sk = 64%nat ->
   exists sig : list byte,
     nacl.sign_detached (TextEncoder_encode base) sk = Return sig /\
     post_sign tapSigner now randomBytes authority_ path_ tag_ =
       {| status := 200;
          json :=
            SignResult
              {| Signature_Input :=
                   wire_signature_input created (TAPSigner.getKeyId tapSigner)
                     (created + 480) nonce_ (default [] tag_);
                 Signature := lit "sig2=:" ++ Base64.base64url_nopad sig ++ lit ":" |}
              (TAPSigner.getKeyId tapSigner) nonce_ (Bs58.encode pk) |} /\
     Bs58.decode (Bs58.encode pk) = Return pk /\
     (forall t : Tag, tag_ = Some (Tag_string t) ->
        TAPSigner.signTAPRequest tapSigner now
          {| authority := default [] authority_; path := default [] path_;
             method := lit "GET"; keyId := TAPSigner.getKeyId tapSigner;
             nonce := nonce_; tag := t |} =
          Return {| Signature_Input :=
                      wire_signature_input created (TAPSigner.getKeyId tapSigner)
                        (created + 480) nonce_ (default [] tag_);
                    Signature :=
                      lit "sig2=:" ++ Base64.base64url_nopad sig ++ lit ":" |}) /\
     (key_matches pk sk ->
      forall verifier : TAPSigner.t,
        TapRoutes.verify verifier base
          (lit "sig2=:" ++ Base64.base64url_nopad sig ++ lit ":") pk = Return true)).
Proof.
  intros sk pk created nonce_ base. unfold post_sign.
  destruct (truthy authority_), (truthy path_), (truthy tag_);
    cbn [negb orb andb]; [|split; [done|split; discriminate]..].
  rewrite signTAPRequest_call_returns. fold created nonce_ base.
  split; [discriminate|]. split.
  - intros _ Hlen%Nat.eqb_neq. unfold nacl.sign_detached.
    change nacl.crypto_sign_SECRETKEYBYTES with 64%nat. subst sk. by rewrite Hlen.
  - intros _ Hlen. subst sk. rewrite !sign_detached_returns by done. cbn [bind].
    eexists. split; [reflexivity|]. split; [reflexivity|].
    split; [apply decode_encode|]. split.
    + intros t ->.
      rewrite <- (signTAPRequest_call_typed tapSigner now
                    {| authority := default [] authority_; path := default [] path_;
                       method := lit "GET"; keyId := TAPSigner.getKeyId tapSigner;
                       nonce := nonce_; tag := t |}).
      cbn [authority path nonce tag]. rewrite signTAPRequest_call_returns.
      rewrite sign_detached_returns by done. reflexivity.
    + intros Hkey verifier. unfold TapRoutes.verify. rewrite unwrap_signature.
      unfold TAPSigner.verifySignature. rewrite base64UrlDecode_base64url.
      cbn [bind default from_option id try_catch].
      erewrite Hkey; [done|]. by apply sign_detached_returns.
Qed.

End Handlers_edges.

(** ** The parser, the constructor and the registry *)

Section Duplicates.

Lemma forEach_no_proto (ms : list str) (params params' : gmap str str) :
  TapRoutes.forEach ms params = Return params' ->
  params !! lit "__proto__" = None -> params' !! lit "__proto__" = None.
Proof.
  revert params. induction ms as [|m ms IH]; intros params; cbn [TapRoutes.forEach].
  - by intros ->%Return_inj.
  - unfold TapRoutes.parse_match.
    destruct (JS.split "="%char m) as [|key [|value rest]]; [done..|].
    cbn [bind]. intros Hrest Hnone. apply (IH _ Hrest).
    unfold TapRoutes.set_property. destruct (decide (key = lit "__proto__")); [done|].
    by rewrite lookup_insert_ne.
Qed.

(** X7. Of two parameters of a [Signature-Input] value with one name,
    [parseSignatureInput] keeps the last: for parameters it reads back as
    written (names of word characters other than [__proto__], values that
    are not empty and have neither [;] nor [=]), the value of a name is
    that of its last occurrence, without its quotes. A parameter named
    [__proto__] is never stored, whatever the value parsed. *)
Theorem parseSignatureInput_last_value_wins (fs1 fs2 : list (str * str)) (k v : str)
  (signatureInput : str) (parsed : gmap str str) :
  (Forall plain_field (fs1 ++ (k, v) :: fs2) -> k ∉ map fst fs2 ->
   exists params,
     TapRoutes.parseSignatureInput (render_fields (fs1 ++ (k, v) :: fs2)) = Return params /\
     params !! k = Some (JS.remove_char "034"%char v)) /\
  (TapRoutes.parseSignatureInput signatureInput = Return parsed ->
   parsed !! lit "__proto__" = None).
Proof.
  split.
  - intros Hfs Hk. exists (foldl assign ∅ (fs1 ++ (k, v) :: fs2)). split.
    { unfold TapRoutes.parseSignatureInput. rewrite global_match_fields by done.
      by apply forEach_fields. }
    rewrite foldl_app. cbn [foldl]. rewrite foldl_assign_other by done.
    unfold assign. cbn [fst snd]. apply lookup_insert_eq.
  - intros Hparse. by apply (forEach_no_proto _ ∅ _ Hparse).
Qed.

End Duplicates.

Section Constructor.

Lemma encode_nonempty (bytes : list byte) : bytes <> [] -> Bs58.encode bytes <> [].
Proof.
  destruct bytes as [|b bytes]; [done|]. intros _. unfold Bs58.encode, JS.repeat_char.
  cbn [map Bs58.leading_zeroes].
  destruct (Byte.to_N b) eqn:Eb; [done|].
  cbn [Bs58.leading_zeroes replicate app].
  assert (Hne : Bs58.from_digits 256 (N.pos p :: map Byte.to_N bytes) <> 0%N).
  { apply from_digits_normal_ne_0; [lia| |done].
    split; [|done]. rewrite <- Eb. apply (octets_of_bytes (b :: bytes)). }
  rewrite (to_digits_step 58) by (lia || done).
  rewrite map_app. intros Hnil. by apply app_eq_nil in Hnil as [_ ?].
Qed.

(** X8. The constructor restores an exported key: given the base58 text
    of a secret key of 64 bytes it returns the signer with that secret key
    and its last 32 bytes as public key; given the text of a key of
    another length (not empty) it throws [bad secret key size], and given
    a text with a character outside the base58 alphabet it throws
    [Non-base58 character]. *)
Theorem new_restores_exported_key (fresh : KeyPair) (sk : list byte) (keyId_ : option str) :
  (length sk = 64%nat ->
   TAPSigner.new fresh (Some (Bs58.encode sk)) keyId_ =
     Return {| TAPSigner.keyPair := {| publicKey := drop 32 sk; secretKey := sk |};
               TAPSigner.keyId := if truthy keyId_ then default [] keyId_
                                  else Bs58.encode (drop 32 sk) |}) /\
  (sk <> [] -> length sk <> 64%nat ->
   TAPSigner.new fresh (Some (Bs58.encode sk)) keyId_ = Throw (Error "bad secret key size")) /\
  (forall (s : str) (c : ascii), c ∈ s -> Bs58.digit_of_char c = None ->
   TAPSigner.new fresh (Some s) keyId_ = Throw (Error "Non-base58 character")).
Proof.
  assert (Htruthy : sk <> [] -> truthy (Some (Bs58.encode sk)) = true).
  { intros Hsk%encode_nonempty. by destruct (Bs58.encode sk). }
  repeat split.
  - intros Hlen. unfold TAPSigner.new. rewrite Htruthy by (by intros ->).
    cbn [default from_option id]. rewrite decode_encode. cbn [bind].
    unfold nacl.sign_keyPair_fromSecretKey, nacl.crypto_sign_SECRETKEYBYTES,
      nacl.crypto_sign_PUBLICKEYBYTES.
    rewrite Hlen. cbn [Nat.eqb bind].
    rewrite resize_all_alt by (rewrite length_drop; lia).
    reflexivity.
  - intros Hsk Hlen. unfold TAPSigner.new. rewrite Htruthy by done.
    cbn [default from_option id]. rewrite decode_encode. cbn [bind].
    unfold nacl.sign_keyPair_fromSecretKey, nacl.crypto_sign_SECRETKEYBYTES.
    apply Nat.eqb_neq in Hlen. by rewrite Hlen.
  - intros s c Hin Hc. unfold TAPSigner.new.
    destruct s as [|c0 s]; [by apply elem_of_nil in Hin|].
    cbn [truthy default from_option id]. unfold Bs58.decode.
    rewrite (mapM_None_2 Bs58.digit_of_char); [done|].
    apply Exists_exists. eauto.
Qed.

End Constructor.

Section Registry_invariant.
Import VisaKeyRegistry.

Lemma JSMap_set_Forall {V} (P : str * V -> Prop) (k : str) (v : V) (m : list (str * V)) :
  P (k, v) -> Forall P m -> Forall P (JSMap.set k v m).
Proof.
  intros Hkv Hm. induction Hm as [|[k' v'] m Hx Hm IH]; cbn [JSMap.set].
  - by constructor.
  - destruct (decide (k' = k)); by constructor.
Qed.

Lemma JSMap_set_NoDup {V} (k : str) (v : V) (m : list (str * V)) :
  NoDup (map fst m) -> NoDup (map fst (JSMap.set k v m)).
Proof.
  intros Hm. rewrite JSMap_set_keys. destruct (decide _) as [|Hk]; [done|].
  apply NoDup_app. split; [done|]. split; [|apply NoDup_singleton].
  intros x Hx ->%list_elem_of_singleton. done.
Qed.

Lemma set_well_formed (signer signer' : TAPSigner.t) (m : list (str * JWK)) :
  registry_well_formed {| tapSigner := signer'; registeredKeys := m |} ->
  registry_well_formed
    {| tapSigner := signer;
       registeredKeys := JSMap.set (TAPSigner.getKeyId signer) (jwk_of signer) m |}.
Proof.
  intros [Hnodup Hkid]. split; cbn [registeredKeys] in *.
  - by apply JSMap_set_NoDup.
  - by apply JSMap_set_Forall.
Qed.

Lemma well_formed_kids (m : list (str * JWK)) :
  Forall (fun entry => kid entry.2 = entry.1) m ->
  map kid (JSMap.values m) = map fst m.
Proof. intros Hkid. unfold JSMap.values. rewrite map_map. by apply map_ext_Forall. Qed.

Lemma rotateKey_inv {R} (updateAgentKey : str -> JWK -> completion R) (this : t)
  (newSigner : TAPSigner.t) (result : R) (this' : t) :
  rotateKey updateAgentKey this newSigner = Return (result, this') ->
  this' = {| tapSigner := newSigner;
             registeredKeys :=
               JSMap.set (TAPSigner.getKeyId newSigner) (jwk_of newSigner)
                 (registeredKeys this) |}.
Proof.
  unfold rotateKey. rewrite ed25519ToJWK_of_signer. cbn [bind].
  destruct (updateAgentKey _ _); cbn [bind]; [|done].
  by intros [= _ <-]%Return_inj.
Qed.

Lemma registerWithVisa_inv {R} (registerAgent : str -> JWK -> completion R) (this : t)
  (registration : R) (this' : t) :
  registerWithVisa registerAgent this = Return (registration, this') ->
  this' = {| tapSigner := tapSigner this;
             registeredKeys :=
               JSMap.set (TAPSigner.getKeyId (tapSigner this)) (jwk_of (tapSigner this))
                 (registeredKeys this) |}.
Proof.
  unfold registerWithVisa. rewrite ed25519ToJWK_of_signer. cbn [bind].
  destruct (registerAgent _ _); cbn [bind try_catch]; [|done].
  by intros [= _ <-]%Return_inj.
Qed.

(** X9. The registry keeps its entries apart: when the keys of the map
    are distinct and every JWK is stored under its own [kid], this is so
    again after [getJWKS], [registerWithVisa] and [rotateKey], and no two
    keys of a served key set share a [kid]. *)
Theorem registry_kids_distinct (this : t) :
  registry_well_formed this ->
  (forall jwks this', getJWKS this = Return (jwks, this') ->
     registry_well_formed this' /\ NoDup (map kid (keys jwks))) /\
  (forall (R : Type) (registerAgent : str -> JWK -> completion R) registration this',
     registerWithVisa registerAgent this = Return (registration, this') ->
     registry_well_formed this') /\
  (forall (R : Type) (updateAgentKey : str -> JWK -> completion R) newSigner result this',
     rotateKey updateAgentKey this newSigner = Return (result, this') ->
     registry_well_formed this').
Proof.
  intros Hwf. destruct this as [signer m].
  pose proof (set_well_formed signer signer m Hwf) as Hwf'.
  split; [|split].
  - intros jwks this' Hget. rewrite getJWKS_returns in Hget. apply Return_inj in Hget.
    injection Hget as <- <-. split; [done|]. destruct Hwf' as [Hnodup Hkid].
    cbn [keys tapSigner registeredKeys] in *. by rewrite well_formed_kids.
  - intros R registerAgent registration this' ->%registerWithVisa_inv.
    by apply (set_well_formed signer signer).
  - intros R updateAgentKey newSigner result this' ->%rotateKey_inv.
    by apply (set_well_formed newSigner signer).
Qed.

(** X10. A rotation keeps the keys stored so far and adds the new one,
    nothing else: the key set served after [rotateKey] has the values of
    the map before the call with the new key set in it. The key of the
    signer replaced is among them only if it was stored before, by
    [getJWKS] or [registerWithVisa]; on a registry that never stored a key
    the key set after the rotation is the new key alone. *)
Theorem rotateKey_forgets_unserved_key {R} (updateAgentKey : str -> JWK -> completion R)
  (this : t) (newSigner : TAPSigner.t) (result : R) (this' : t) :
  rotateKey updateAgentKey this newSigner = Return (result, this') ->
  exists jwks this'',
    getJWKS this' = Return (jwks, this'') /\
    keys jwks =
      JSMap.values (JSMap.set (TAPSigner.getKeyId newSigner) (jwk_of newSigner)
                      (registeredKeys this)) /\
    (registeredKeys this = [] -> keys jwks = [jwk_of newSigner]) /\
    (registry_well_formed this ->
     TAPSigner.getKeyId (tapSigner this) <> TAPSigner.getKeyId newSigner ->
     TAPSigner.getKeyId (tapSigner this) ∉ map fst (registeredKeys this) ->
     TAPSigner.getKeyId (tapSigner this) ∉ map kid (keys jwks)).
Proof.
  intros ->%rotateKey_inv. rewrite getJWKS_returns. cbn [tapSigner registeredKeys].
  rewrite JSMap_set_idem. eexists _, _. split; [reflexivity|]. cbn [keys].
  split; [done|]. split; [by intros ->|].
  intros Hwf Hne Hold.
  destruct this as [signer m].
  destruct (set_well_formed newSigner signer m Hwf) as [_ Hkid].
  cbn [registeredKeys tapSigner] in *. rewrite well_formed_kids by done.
  rewrite JSMap_set_keys. destruct (decide _); [done|].
  rewrite elem_of_app, list_elem_of_singleton. by intros [?|?].
Qed.

End Registry_invariant.

Section Jwks_route.
Import VisaKeyRegistry.

(** X11. The [/.well-known/jwks] route never takes its [catch] branch: it
    answers 200 with the [Cache-Control] header set and a key set holding
    the JWK of the current signer, and a second request gets the same
    answer. *)
Theorem get_jwks_always_answers (keyRegistry : t) :
  exists jwks keyRegistry',
    WellKnown.get_jwks keyRegistry =
      ({| status := 200; json := WellKnown.JwksResult jwks |},
       Some (lit "public, max-age=3600"), keyRegistry') /\
    jwk_of (tapSigner keyRegistry) ∈ keys jwks /\
    WellKnown.get_jwks keyRegistry' = WellKnown.get_jwks keyRegistry.
Proof.
  unfold WellKnown.get_jwks. rewrite getJWKS_returns. eexists _, _.
  split; [reflexivity|]. split; [apply JSMap_set_value|].
  rewrite getJWKS_returns. cbn [tapSigner registeredKeys]. by rewrite JSMap_set_idem.
Qed.

End Jwks_route.

(** ** X-Pay tokens *)

Section ParseInt.
Import Builtin.

Lemma digits_prefix_uint (d : Decimal.uint) :
  digits_prefix 10 (lit (NilEmpty.string_of_uint d)) = uint_digits d.
Proof. induction d; cbn; by f_equal. Qed.

Lemma of_uint_acc_digits (d : Decimal.uint) (acc : positive) :
  N.pos (Pos.of_uint_acc d acc) =
    fold_left (fun a x => (a * 10 + x)%N) (uint_digits d) (N.pos acc).
Proof.
  revert acc. induction d; intros acc; cbn [Pos.of_uint_acc uint_digits fold_left];
    rewrite ?IHd; try reflexivity; f_equal; lia.
Qed.

Lemma of_uint_digits (d : Decimal.uint) :
  Pos.of_uint d = Bs58.from_digits 10 (uint_digits d).
Proof.
  unfold Bs58.from_digits.
  induction d; cbn [Pos.of_uint uint_digits fold_left]; try done;
    rewrite of_uint_acc_digits; f_equal.
Qed.

Lemma numeral_front (d : Decimal.uint) :
  let s := lit (NilZero.string_of_uint d) in
  trimStart s = s /\ sign_of s = 1%Z /\ strip_sign s = s /\ has_hex_prefix s = false.
Proof. destruct d as [|d|d|d|d|d|d|d|d|d|d]; repeat split; destruct d; reflexivity. Qed.

Lemma digits_prefix_numeral (d : Decimal.uint) :
  digits_prefix 10 (lit (NilZero.string_of_uint d)) <> [] /\
  Bs58.from_digits 10 (digits_prefix 10 (lit (NilZero.string_of_uint d))) = Pos.of_uint d.
Proof.
  destruct d; [done|..]; unfold NilZero.string_of_uint;
    rewrite digits_prefix_uint, of_uint_digits; done.
Qed.

Lemma parseInt_numeral (d : Decimal.uint) :
  parseInt (lit (NilZero.string_of_uint d)) = Some (Z.of_N (Pos.of_uint d)).
Proof.
  destruct (numeral_front d) as (Htrim & Hsign & Hstrip & Hhex).
  destruct (digits_prefix_numeral d) as [Hne Hvalue].
  unfold parseInt. rewrite Htrim, Hsign, Hstrip, Hhex.
  destruct (digits_prefix 10 _) as [|x ds]; [done|].
  rewrite Hvalue. f_equal; lia.
Qed.

Lemma parseInt_negative_numeral (d : Decimal.uint) :
  parseInt ("-"%char :: lit (NilZero.string_of_uint d)) = Some (- Z.of_N (Pos.of_uint d))%Z.
Proof.
  destruct (numeral_front d) as (_ & _ & _ & Hhex).
  destruct (digits_prefix_numeral d) as [Hne Hvalue].
  unfold parseInt. cbn [trimStart]. change (is_StrWhiteSpaceChar "-"%char) with false.
  cbn [sign_of strip_sign Ascii.eqb Bool.eqb orb]. cbv iota. rewrite Hhex.
  destruct (digits_prefix 10 _) as [|x ds]; [done|].
  rewrite Hvalue. f_equal; lia.
Qed.

(** [parseInt] reads back the integer a template literal wrote. *)
Lemma parseInt_Number_toString (z : Z) : parseInt (JS.Number_toString z) = Some z.
Proof.
  unfold JS.Number_toString. destruct z as [|p|p]; [reflexivity|..];
    cbn [Z.to_int NilZero.string_of_int].
  - rewrite parseInt_numeral, DecimalPos.Unsigned.of_to. reflexivity.
  - change (lit (String "-" ?s)) with ("-"%char :: lit s).
    rewrite parseInt_negative_numeral, DecimalPos.Unsigned.of_to. reflexivity.
Qed.

End ParseInt.

Section TextEncoder_facts.

Lemma to_N_byte_of_ascii (c : ascii) : Byte.to_N (byte_of_ascii c) = N_of_ascii c.
Proof. by rewrite <- N_of_ascii_of_byte, ascii_of_byte_of_ascii. Qed.

Lemma to_N_byte_of_N (k : N) : (k < 256)%N -> Byte.to_N (Bs58.byte_of_N k) = k.
Proof.
  intros Hk. unfold Bs58.byte_of_N.
  destruct (Byte.of_N k) as [b|] eqn:E.
  - by apply Byte.to_of_N.
  - apply Byte.of_N_None_iff in E. lia.
Qed.

Lemma N_of_ascii_inj (c d : ascii) : N_of_ascii c = N_of_ascii d -> c = d.
Proof. intros E. by rewrite <- (ascii_N_embedding c), <- (ascii_N_embedding d), E. Qed.

Lemma utf8_lead (n : N) : (n < 256 -> 192 + n / 64 < 256)%N.
Proof. intros. zify. Z.to_euclidean_division_equations. lia. Qed.

Lemma utf8_trail (n : N) : (128 + n mod 64 < 256)%N.
Proof. zify. Z.to_euclidean_division_equations. lia. Qed.

Lemma utf8_lead_high (n : N) : (128 <= 192 + n / 64)%N.
Proof. zify. Z.to_euclidean_division_equations. lia. Qed.

Lemma utf8_pair (n m : N) :
  (192 + n / 64 = 192 + m / 64 -> 128 + n mod 64 = 128 + m mod 64 -> n = m)%N.
Proof. intros. zify. Z.to_euclidean_division_equations. lia. Qed.

Lemma TextEncoder_encode_cons (c : ascii) (s : str) :
  TextEncoder_encode (c :: s) =
    (if (N_of_ascii c <? 128)%N then [byte_of_ascii c]
     else [Bs58.byte_of_N (192 + N_of_ascii c / 64);
           Bs58.byte_of_N (128 + N_of_ascii c mod 64)]) ++ TextEncoder_encode s.
Proof. reflexivity. Qed.

Lemma TextEncoder_encode_inj (s1 s2 : str) :
  TextEncoder_encode s1 = TextEncoder_encode s2 -> s1 = s2.
Proof.
  revert s2. induction s1 as [|c s1 IH]; intros [|d s2]; rewrite ?TextEncoder_encode_cons.
  - done.
  - destruct (_ <? _)%N; discriminate.
  - destruct (_ <? _)%N; discriminate.
  - pose proof (N_ascii_bounded c) as Hc. pose proof (N_ascii_bounded d) as Hd.
    destruct (N.ltb_spec (N_of_ascii c) 128) as [Hc'|Hc'],
             (N.ltb_spec (N_of_ascii d) 128) as [Hd'|Hd']; cbn [app]; intros E.
    + injection E as E1 E2.
      apply (f_equal Byte.to_N) in E1. rewrite !to_N_byte_of_ascii in E1.
      apply N_of_ascii_inj in E1 as ->. f_equal. by apply IH.
    + injection E as E1 _.
      apply (f_equal Byte.to_N) in E1.
      rewrite to_N_byte_of_ascii, to_N_byte_of_N in E1 by by apply utf8_lead.
      pose proof (utf8_lead_high (N_of_ascii d)). lia.
    + injection E as E1 _.
      apply (f_equal Byte.to_N) in E1.
      rewrite to_N_byte_of_ascii, to_N_byte_of_N in E1 by by apply utf8_lead.
      pose proof (utf8_lead_high (N_of_ascii c)). lia.
    + injection E as E1 E2 E3.
      apply (f_equal Byte.to_N) in E1, E2.
      rewrite !to_N_byte_of_N in E1, E2 by first [by apply utf8_lead | apply utf8_trail].
      pose proof (utf8_pair _ _ E1 E2) as ->%N_of_ascii_inj. f_equal. by apply IH.
Qed.

End TextEncoder_facts.

Section Token_shape.

Lemma hex_digit_not_colon (n : N) : (n < 16)%N -> crypto.hex_digit n <> ":"%char.
Proof.
  intros Hn.
  apply (below 16 (fun k => bool_decide (crypto.hex_digit k <> ":"%char))) in Hn;
    [by apply bool_decide_eq_true in Hn | by vm_compute].
Qed.

Lemma hex_no_colon (bytes : list byte) : ":"%char ∉ crypto.hex bytes.
Proof.
  unfold crypto.hex. induction bytes as [|b bytes IH]; [apply not_elem_of_nil|].
  cbn [flat_map app]. rewrite !not_elem_of_cons. pose proof (Byte.to_N_bounded b).
  repeat split; [| |done]; apply not_eq_sym, hex_digit_not_colon.
  - zify. Z.to_euclidean_division_equations. lia.
  - zify. Z.to_euclidean_division_equations. lia.
Qed.

Lemma numeral_no_colon (s : str) : Forall numeral_char s -> ":"%char ∉ s.
Proof.
  intros Hs Hin. rewrite Forall_forall in Hs. apply Hs in Hin.
  unfold numeral_char in Hin. revert Hin. compute_done.
Qed.

Lemma join_cons (sep l l' : str) (rest : list str) :
  join sep (l :: l' :: rest) = l ++ sep ++ join sep (l' :: rest).
Proof. reflexivity. Qed.

Lemma join_split (c : ascii) (s : str) :
  join [c] (JS.split c s) = s /\ Forall (fun part => c ∉ part) (JS.split c s).
Proof.
  induction s as [|x s [IHjoin IHparts]].
  - split; [done|]. repeat constructor. apply not_elem_of_nil.
  - rewrite split_cons. destruct (split_nonempty c s) as (u & us & E).
    rewrite E in *. cbn [hd tl].
    destruct (Ascii.eqb_spec x c) as [->|Hx].
    + split; [|constructor; [apply not_elem_of_nil|done]].
      by rewrite join_cons, IHjoin.
    + apply Forall_cons in IHparts as [Hu Hus]. split.
      * destruct us as [|u' us]; [by rewrite <- IHjoin|].
        rewrite join_cons in *. by rewrite <- IHjoin.
      * constructor; [|done]. rewrite not_elem_of_cons. split; [|done]. by apply not_eq_sym.
Qed.

Lemma split_token (head timestamp hash : str) :
  ":"%char ∉ head -> ":"%char ∉ timestamp -> ":"%char ∉ hash ->
  JS.split ":"%char (head ++ lit ":" ++ timestamp ++ lit ":" ++ hash) = [head; timestamp; hash].
Proof.
  intros Hh Ht Hx. cbn [lit list_ascii_of_string app].
  rewrite split_sep by done. rewrite split_sep by done. by rewrite split_no_sep.
Qed.

End Token_shape.

Section XPay.
Context `{HmacSha256}.
Import VisaAuth.

Lemma timingSafeEqual_encoded (a b : str) :
  try_catch (crypto.timingSafeEqual (TextEncoder_encode a) (TextEncoder_encode b))
    (fun _ => Return false) = Return (bool_decide (a = b)).
Proof.
  unfold crypto.timingSafeEqual.
  destruct (decide (a = b)) as [->|Hne].
  - rewrite Nat.eqb_refl. cbn [try_catch]. by rewrite !bool_decide_eq_true_2.
  - rewrite (bool_decide_eq_false_2 (a = b)) by done.
    destruct (_ =? _)%nat; [|done]. cbn [try_catch]. f_equal.
    apply bool_decide_eq_false_2. by intros ?%TextEncoder_encode_inj.
Qed.

Lemma verifyXPayToken_returns (this : t) (now : Z) (token resourcePath : str)
  (queryParams : QueryParams) (requestBody : RequestBody) :
  verifyXPayToken this now token resourcePath queryParams requestBody =
    Return match JS.split ":"%char token with
           | [head; timestamp; receivedHash] =>
               bool_decide (head = lit "xv2") &&
               negb (outside_window (now / 1000) (Builtin.parseInt timestamp)) &&
               bool_decide
                 (receivedHash = xpay_hash this timestamp resourcePath queryParams requestBody)
           | _ => false
           end.
Proof.
  unfold verifyXPayToken.
  destruct (JS.split ":"%char token) as [|head [|timestamp [|receivedHash [|extra parts]]]];
    try reflexivity.
  cbn [length Nat.eqb negb orb nth].
  destruct (bool_decide (head = lit "xv2")); [|reflexivity]. cbn [negb andb].
  destruct (outside_window _ _); [reflexivity|]. cbn [negb andb].
  apply timingSafeEqual_encoded.
Qed.

Lemma generateXPayToken_split (this : t) (now : Z) (resourcePath : str)
  (queryParams : QueryParams) (requestBody : RequestBody) :
  JS.split ":"%char (generateXPayToken this now resourcePath queryParams requestBody) =
    [lit "xv2"; JS.Number_toString (now / 1000);
     xpay_hash this (JS.Number_toString (now / 1000)) resourcePath queryParams requestBody].
Proof.
  unfold generateXPayToken.
  change (lit "xv2:" ++ ?rest) with (lit "xv2" ++ lit ":" ++ rest).
  apply split_token.
  - compute_done.
  - apply numeral_no_colon, Number_toString_numeral.
  - apply hex_no_colon.
Qed.

Lemma verify_generated (this : t) (now now' : Z) (p1 p2 : str) (q1 q2 : QueryParams)
  (b1 b2 : RequestBody) :
  p1 ++ createQueryString q1 ++ bodyString b1 = p2 ++ createQueryString q2 ++ bodyString b2 ->
  verifyXPayToken this now' (generateXPayToken this now p1 q1 b1) p2 q2 b2 =
    Return (Z.abs (now' / 1000 - now / 1000) <=? 300)%Z.
Proof.
  intros Hsame. rewrite verifyXPayToken_returns, generateXPayToken_split.
  rewrite parseInt_Number_toString. cbn [outside_window].
  rewrite bool_decide_eq_true_2 by done. cbn [andb].
  rewrite bool_decide_eq_true_2 by (unfold xpay_hash; by rewrite Hsame).
  rewrite andb_true_r. f_equal. rewrite Z.leb_antisym. reflexivity.
Qed.

(** X12. A token made by [generateXPayToken] is accepted by
    [verifyXPayToken] for the same request exactly when the two readings
    of the clock, in whole seconds, are at most 300 apart. *)
Theorem xpay_token_round_trip (this : t) (now now' : Z) (resourcePath : str)
  (queryParams : QueryParams) (requestBody : RequestBody) :
  verifyXPayToken this now'
    (generateXPayToken this now resourcePath queryParams requestBody)
    resourcePath queryParams requestBody =
    Return (Z.abs (now' / 1000 - now / 1000) <=? 300)%Z.
Proof. by apply verify_generated. Qed.

(** X14. A token is bound to the concatenation of path, query string and
    body, not to the three of them: within the 300 seconds it is accepted
    for every request whose path, query string and body concatenate to
    the same text. *)
Theorem xpay_token_fits_other_requests (this : t) (now now' : Z) (p1 p2 : str)
  (q1 q2 : QueryParams) (b1 b2 : RequestBody) :
  p1 ++ createQueryString q1 ++ bodyString b1 = p2 ++ createQueryString q2 ++ bodyString b2 ->
  (Z.abs (now' / 1000 - now / 1000) <= 300)%Z ->
  verifyXPayToken this now' (generateXPayToken this now p1 q1 b1) p2 q2 b2 = Return true.
Proof.
  intros Hsame Hwindow. rewrite (verify_generated _ _ _ _ _ _ _ _ _ Hsame).
  f_equal. by apply Z.leb_le.
Qed.

Lemma outside_window_false (currentTime : Z) (tokenTime : option Z) :
  outside_window currentTime tokenTime = false <->
  forall t, tokenTime = Some t -> (Z.abs (currentTime - t) <= 300)%Z.
Proof.
  destruct tokenTime as [t|]; cbn [outside_window].
  - rewrite Z.ltb_ge. split; [by intros ? ? [= <-]|eauto].
  - split; [intros _ ? [=]|done].
Qed.

(** X13. [verifyXPayToken] always returns, and it returns [true] exactly
    for a token [xv2:<timestamp>:<hash>] whose timestamp has no [:], whose
    hash is the lower-case hex HMAC of timestamp, path, query string and
    body, and whose timestamp, if [parseInt] reads a number from it, is
    at most 300 seconds from the clock. A timestamp [parseInt] reads no
    number from passes the check of the time. *)
Theorem verifyXPayToken_accepts_exactly (this : t) (now : Z) (token resourcePath : str)
  (queryParams : QueryParams) (requestBody : RequestBody) :
  (exists valid,
     verifyXPayToken this now token resourcePath queryParams requestBody = Return valid) /\
  (verifyXPayToken this now token resourcePath queryParams requestBody = Return true <->
   exists timestamp,
     token = lit "xv2:" ++ timestamp ++ lit ":" ++
             xpay_hash this timestamp resourcePath queryParams requestBody /\
     (":"%char ∉ timestamp) /\
     forall tokenTime, Builtin.parseInt timestamp = Some tokenTime ->
       (Z.abs (now / 1000 - tokenTime) <= 300)%Z).
Proof.
  split; [rewrite verifyXPayToken_returns; eauto|]. split.
  - rewrite verifyXPayToken_returns. intros Hvalid%Return_inj.
    destruct (join_split ":"%char token) as [Hjoin Hparts].
    destruct (JS.split ":"%char token) as [|head [|timestamp [|receivedHash [|extra parts]]]];
      try discriminate Hvalid.
    apply andb_true_iff in Hvalid as [[Hhead Hwindow]%andb_true_iff Hhash].
    apply bool_decide_eq_true in Hhead, Hhash. apply negb_true_iff in Hwindow.
    subst head receivedHash. exists timestamp. split; [by rewrite <- Hjoin|].
    split; [|by apply outside_window_false].
    by apply Forall_cons in Hparts as [_ [? _]%Forall_cons].
  - intros (timestamp & -> & Hcolon & Hwindow%outside_window_false).
    rewrite verifyXPayToken_returns.
    change (lit "xv2:" ++ ?rest) with (lit "xv2" ++ lit ":" ++ rest).
    rewrite split_token; [|compute_done|done|apply hex_no_colon].
    rewrite Hwindow. by rewrite !bool_decide_eq_true_2.
Qed.

End XPay.

(** ** The query string and the masked key *)

Section Query_string.
Import VisaAuth.

Lemma str_leb_total (a b : str) : str_leb a b = true \/ str_leb b a = true.
Proof.
  revert b. induction a as [|x a IH]; intros [|y b]; cbn [str_leb]; auto.
  destruct (N.ltb_spec (N_of_ascii x) (N_of_ascii y)); [auto|].
  destruct (N.ltb_spec (N_of_ascii y) (N_of_ascii x)); [auto|].
  assert (E : N_of_ascii x = N_of_ascii y) by lia.
  rewrite E, N.eqb_refl. apply IH.
Qed.

Lemma str_leb_trans (a b c : str) :
  str_leb a b = true -> str_leb b c = true -> str_leb a c = true.
Proof.
  revert b c. induction a as [|x a IH]; intros [|y b] [|z c]; cbn [str_leb]; try done.
  destruct (N.ltb_spec (N_of_ascii x) (N_of_ascii y)),
           (N.ltb_spec (N_of_ascii y) (N_of_ascii z)),
           (N.ltb_spec (N_of_ascii x) (N_of_ascii z));
    try done; try lia;
    destruct (N.eqb_spec (N_of_ascii x) (N_of_ascii y)),
             (N.eqb_spec (N_of_ascii y) (N_of_ascii z)),
             (N.eqb_spec (N_of_ascii x) (N_of_ascii z));
    try done; try lia.
  apply IH.
Qed.

Lemma str_leb_antisym (a b : str) : str_leb a b = true -> str_leb b a = true -> a = b.
Proof.
  revert b. induction a as [|x a IH]; intros [|y b]; cbn [str_leb]; try done.
  destruct (N.ltb_spec (N_of_ascii x) (N_of_ascii y)),
           (N.ltb_spec (N_of_ascii y) (N_of_ascii x)); try lia;
    destruct (N.eqb_spec (N_of_ascii x) (N_of_ascii y)),
             (N.eqb_spec (N_of_ascii y) (N_of_ascii x)); try done; try lia.
  intros Hab Hba. f_equal; [by apply N_of_ascii_inj|by apply IH].
Qed.

Lemma str_le_total : Total str_le.
Proof. intros a b. apply str_leb_total. Qed.

Lemma str_le_trans : Transitive str_le.
Proof. intros a b c. apply str_leb_trans. Qed.

Lemma str_le_antisym : AntiSymm (=) str_le.
Proof. intros a b. apply str_leb_antisym. Qed.

Lemma merge_sort_permutation (l1 l2 : list str) :
  l1 ≡ₚ l2 -> merge_sort str_le l1 = merge_sort str_le l2.
Proof.
  intros Hperm.
  apply (@Sorted_unique _ str_le str_le_trans str_le_antisym);
    [apply (@Sorted_merge_sort _ str_le _ str_le_total)..|].
  by rewrite !merge_sort_Permutation.
Qed.

Lemma get_elem_of (params : QueryParams) (key : str) (v : QueryValue) :
  NoDup (map fst params) -> (key, v) ∈ params -> get params key = v.
Proof.
  induction params as [|[k w] params IH]; [by intros _ ?%elem_of_nil|].
  cbn [map fst get]. intros [Hk Hnodup]%NoDup_cons [[= <- <-]|Hin]%elem_of_cons.
  - by rewrite decide_True.
  - rewrite decide_False; [by apply IH|].
    intros ->. apply Hk. change key with (fst (key, v)). by apply list_elem_of_fmap_2.
Qed.

Lemma get_not_elem_of (params : QueryParams) (key : str) :
  key ∉ map fst params -> get params key = undefined.
Proof.
  induction params as [|[k w] params IH]; [done|].
  cbn [map fst get]. intros [Hne Hnotin]%not_elem_of_cons.
  rewrite decide_False by done. by apply IH.
Qed.

Lemma get_permutation (params params' : QueryParams) (key : str) :
  NoDup (map fst params) -> params ≡ₚ params' -> get params key = get params' key.
Proof.
  intros Hnodup Hperm.
  assert (Hnodup' : NoDup (map fst params')).
  { change (map fst params') with (fst <$> params'). by rewrite <- Hperm. }
  destruct (decide (key ∈ map fst params)) as [Hin|Hnotin].
  - apply list_elem_of_fmap in Hin as ([k v] & -> & Hin). cbn [fst].
    rewrite (get_elem_of params k v) by done.
    symmetry. apply get_elem_of; [done|]. by rewrite <- Hperm.
  - rewrite get_not_elem_of by done. symmetry. apply get_not_elem_of.
    change (map fst params') with (fst <$> params'). by rewrite <- Hperm.
Qed.

Lemma get_unset (params : QueryParams) (key : str) :
  Forall (fun entry => is_set entry.2 = false) params -> is_set (get params key) = false.
Proof.
  induction 1 as [|[k v] params Hv Hrest IH]; [done|].
  cbn [get]. by destruct (decide (k = key)).
Qed.

Lemma StronglySorted_filter (P : str -> Prop) `{forall a, Decision (P a)} (l : list str) :
  StronglySorted str_le l -> StronglySorted str_le (filter P l).
Proof.
  induction 1 as [|a l Hl IH Ha]; [constructor|].
  rewrite filter_cons. destruct (decide (P a)); [|done].
  constructor; [done|]. rewrite Forall_forall in Ha |- *.
  intros x [_ Hx]%list_elem_of_filter. by apply Ha.
Qed.

Lemma filter_keys (params : QueryParams) :
  NoDup (map fst params) ->
  filter (fun key => is_set (get params key) = true) (map fst params) =
    map fst (filter (fun entry => is_set entry.2 = true) params).
Proof.
  intros Hnodup.
  assert (Hget : forall entry, entry ∈ params -> get params entry.1 = entry.2).
  { intros [k v] Hin. by apply get_elem_of. }
  revert Hget. generalize (get params). intros g Hg.
  induction params as [|[k v] params IH]; [done|].
  cbn [map fst]. rewrite !filter_cons. cbn [fst snd].
  pose proof (Hg (k, v) (list_elem_of_here _ _)) as Hk. cbn [fst snd] in Hk. rewrite Hk.
  apply NoDup_cons in Hnodup as [_ Hnodup].
  rewrite IH; [by destruct (decide _)|done|].
  intros entry Hin. apply Hg. by apply list_elem_of_further.
Qed.

Lemma set_keys_sorted (params : QueryParams) :
  NoDup (map fst params) ->
  filter (fun key => is_set (get params key) = true) (merge_sort str_le (map fst params)) =
    merge_sort str_le (map fst (filter (fun entry => is_set entry.2 = true) params)).
Proof.
  intros Hnodup. apply (@StronglySorted_unique _ str_le str_le_antisym).
  - apply StronglySorted_filter,
      (@StronglySorted_merge_sort _ str_le _ str_le_trans str_le_total).
  - apply (@StronglySorted_merge_sort _ str_le _ str_le_trans str_le_total).
  - rewrite !merge_sort_Permutation. by rewrite filter_keys.
Qed.

(** X15. The query string of an object with distinct property names does
    not depend on the order of the properties, nor on the properties that
    are [undefined] or [null]; it is empty when all of them are. *)
Theorem createQueryString_canonical (params params' : QueryParams) :
  NoDup (map fst params) ->
  (params ≡ₚ params' -> createQueryString params = createQueryString params') /\
  createQueryString params =
    createQueryString (filter (fun entry => is_set entry.2 = true) params) /\
  (Forall (fun entry => is_set entry.2 = false) params -> createQueryString params = []).
Proof.
  intros Hnodup. split; [|split].
  - intros Hperm. unfold createQueryString.
    assert (Hkeys : map fst params ≡ₚ map fst params').
    { change (fst <$> params ≡ₚ fst <$> params'). by rewrite Hperm. }
    rewrite <- (Permutation_length Hkeys), <- (merge_sort_permutation _ _ Hkeys).
    destruct (_ =? 0)%nat; [done|].
    assert (Hfilter :
      filter (fun key => is_set (get params key) = true) (merge_sort str_le (map fst params)) =
      filter (fun key => is_set (get params' key) = true) (merge_sort str_le (map fst params))).
    { apply list_filter_iff. intros key. by rewrite (get_permutation params params'). }
    rewrite <- Hfilter.
    assert (Hpairs : forall keys, map (queryPair params) keys = map (queryPair params') keys).
    { intros keys. apply map_ext. intros key. unfold queryPair.
      by rewrite (get_permutation params params'). }
    by rewrite Hpairs.
  - set (kept := filter (fun entry => is_set entry.2 = true) params).
    assert (Hkept : NoDup (map fst kept)).
    { apply (NoDup_fmap_fst kept).
      - intros k v1 v2 H1%list_elem_of_filter H2%list_elem_of_filter.
        destruct H1 as [_ H1], H2 as [_ H2].
        by rewrite <- (get_elem_of params k v1), <- (get_elem_of params k v2).
      - apply NoDup_filter. eapply NoDup_fmap_1. exact Hnodup. }
    assert (Hsame : forall key, key ∈ map fst kept -> get kept key = get params key).
    { intros key ([k v] & -> & Hin)%list_elem_of_fmap. cbn [fst].
      rewrite (get_elem_of kept k v) by done.
      apply list_elem_of_filter in Hin as [_ Hin]. by rewrite (get_elem_of params k v). }
    assert (Hall : filter (fun key => is_set (get kept key) = true)
                     (merge_sort str_le (map fst kept)) = merge_sort str_le (map fst kept)).
    { apply filter_all, Forall_forall. intros key Hin.
      rewrite merge_sort_Permutation in Hin. rewrite Hsame by done.
      apply list_elem_of_fmap in Hin as ([k v] & -> & Hin). cbn [fst].
      apply list_elem_of_filter in Hin as [Hset Hin]. by rewrite (get_elem_of params k v). }
    assert (Hpairs : map (queryPair kept) (merge_sort str_le (map fst kept)) =
                     map (queryPair params) (merge_sort str_le (map fst kept))).
    { apply map_ext_Forall, Forall_forall. intros key Hin.
      rewrite merge_sort_Permutation in Hin. unfold queryPair. by rewrite Hsame. }
    unfold createQueryString at 2. rewrite Hall, Hpairs.
    unfold createQueryString. rewrite set_keys_sorted by done. fold kept.
    destruct params as [|entry params]; [done|].
    destruct kept as [|entry' kept']; [done|].
    reflexivity.
  - intros Hunset. unfold createQueryString. destruct (_ =? 0)%nat; [done|].
    rewrite filter_none; [done|].
    apply Forall_forall. intros key _. by rewrite get_unset.
Qed.

End Query_string.

Section Masked_key.
Import VisaAuth.

(** X16. [getMaskedApiKey] answers [NOT_CONFIGURED] for no key. Of a key
    of up to 12 characters it hides nothing: a key of up to 8 characters
    is the front of the masked text, and a key of 8 to 12 characters is
    the first 8 characters of the masked text followed by its last
    characters. *)
Theorem getMaskedApiKey_shows_short_keys (this : t) :
  (apiKey this = [] -> getMaskedApiKey this = lit "NOT_CONFIGURED") /\
  (apiKey this <> [] -> length (apiKey this) <= 8 ->
   take (length (apiKey this)) (getMaskedApiKey this) = apiKey this)%nat /\
  (8 <= length (apiKey this) <= 12 ->
   take 8 (getMaskedApiKey this) ++ drop (23 - length (apiKey this)) (getMaskedApiKey this)
   = apiKey this)%nat.
Proof.
  unfold getMaskedApiKey. set (k := apiKey this).
  assert (Htruthy : k <> [] -> truthy (Some k) = true) by (by destruct k).
  split; [by intros ->|]. split.
  - intros Hne Hlen. rewrite Htruthy by done. cbn [negb].
    rewrite (take_ge k 8) by done. by rewrite take_app_length.
  - intros [Hlo Hhi]. rewrite Htruthy by (intros E; rewrite E in Hlo; cbn in Hlo; lia).
    cbn [negb].
    assert (Htake : length (take 8 k) = 8%nat) by (rewrite length_take; lia).
    rewrite take_app_le by lia. rewrite take_take, Nat.min_id.
    rewrite drop_app_ge by lia. rewrite Htake.
    rewrite drop_app_ge by (cbn [length lit list_ascii_of_string]; lia).
    cbn [length lit list_ascii_of_string]. rewrite drop_drop.
    replace (length k - 4 + (23 - length k - 8 - 3))%nat with 8%nat by lia.
    apply take_drop.
Qed.

End Masked_key.

(** ** The query string read back *)

Section Encoded_values.
Import Builtin.

Lemma encodeURIComponent_cons (c : ascii) (s : str) :
  encodeURIComponent (c :: s) = encodeURIComponent [c] ++ encodeURIComponent s.
Proof. unfold encodeURIComponent. cbn [flat_map]. by rewrite app_nil_r. Qed.

Lemma read_encoded_char (c : ascii) (rest : str) :
  read_encoded (encodeURIComponent [c] ++ rest) = Some (c, rest).
Proof.
  destruct c as [b0 b1 b2 b3 b4 b5 b6 b7].
  destruct b0, b1, b2, b3, b4, b5, b6, b7; 
    try (destruct rest as [|r1 [|r2 rest]]; vm_compute; reflexivity).
Qed.

End Encoded_values.

Section Encoded_values_inj.
Import Builtin.

Lemma encodeURIComponent_char_nonempty (c : ascii) : encodeURIComponent [c] <> [].
Proof.
  intros E. pose proof (read_encoded_char c []) as Hread. by rewrite E in Hread.
Qed.

Lemma encodeURIComponent_inj (s1 s2 : str) :
  encodeURIComponent s1 = encodeURIComponent s2 -> s1 = s2.
Proof.
  revert s2. induction s1 as [|c1 s1 IH]; intros [|c2 s2]; [done|..].
  - rewrite encodeURIComponent_cons. intros E. symmetry in E.
    apply app_eq_nil in E as [E _]. by apply encodeURIComponent_char_nonempty in E.
  - rewrite encodeURIComponent_cons. intros E.
    apply app_eq_nil in E as [E _]. by apply encodeURIComponent_char_nonempty in E.
  - rewrite (encodeURIComponent_cons c1), (encodeURIComponent_cons c2). intros E.
    apply (f_equal read_encoded) in E. rewrite !read_encoded_char in E.
    injection E as -> E. f_equal. by apply IH.
Qed.

Lemma encoded_char_no_separator (k : N) :
  (k < 256)%N ->
  forallb (fun x => negb (Ascii.eqb x "&"%char) && negb (Ascii.eqb x "="%char))
    (encodeURIComponent [ascii_of_N k]) = true.
Proof.
  intros Hk.
  by apply (below 256 (fun k =>
    forallb (fun x => negb (Ascii.eqb x "&"%char) && negb (Ascii.eqb x "="%char))
      (encodeURIComponent [ascii_of_N k])) ltac:(vm_compute; reflexivity)).
Qed.

Lemma encodeURIComponent_no_separator (s : str) :
  ("&"%char ∉ encodeURIComponent s) /\ ("="%char ∉ encodeURIComponent s).
Proof.
  induction s as [|c s [IH1 IH2]]; [split; apply not_elem_of_nil|].
  rewrite encodeURIComponent_cons, !not_elem_of_app.
  pose proof (encoded_char_no_separator (N_of_ascii c) (N_ascii_bounded c)) as Hc.
  rewrite ascii_N_embedding, forallb_forall in Hc.
  assert (Hsep : forall x, x ∈ encodeURIComponent [c] -> x <> "&"%char /\ x <> "="%char).
  { intros x Hx%list_elem_of_In%Hc. apply andb_true_iff in Hx as [H1 H2].
    apply negb_true_iff in H1, H2. split; by apply Ascii.eqb_neq. }
  repeat split; [|done| |done]; intros Hin%Hsep; by destruct Hin.
Qed.

End Encoded_values_inj.

Section Query_string_injective.
Import VisaAuth.

Lemma first_segment (c : ascii) (u1 u2 v1 v2 : str) :
  c ∉ u1 -> c ∉ u2 -> u1 ++ c :: v1 = u2 ++ c :: v2 -> u1 = u2 /\ v1 = v2.
Proof.
  intros H1 H2 E. pose proof (f_equal (JS.split c) E) as Hsplit.
  rewrite !split_sep in Hsplit by done. injection Hsplit as -> _.
  split; [done|]. apply app_inv_head in E. by injection E.
Qed.

Lemma get_set_elem_of (params : QueryParams) (key : str) :
  is_set (get params key) = true -> key ∈ map fst params.
Proof.
  induction params as [|[k v] params IH]; [done|]. cbn [get map fst].
  destruct (decide (k = key)) as [->|]; [intros _; apply list_elem_of_here|].
  intros Hset. apply list_elem_of_further. by apply IH.
Qed.

Lemma queryPair_cons (params : QueryParams) (key : str) :
  queryPair params key =
    key ++ "="%char :: Builtin.encodeURIComponent (toString (get params key)).
Proof. reflexivity. Qed.

Lemma createQueryString_pairs (params : QueryParams) :
  createQueryString params =
    match map (queryPair params)
            (filter (fun key => is_set (get params key) = true)
               (merge_sort str_le (map fst params))) with
    | [] => []
    | pairs => lit "?" ++ join (lit "&") pairs
    end.
Proof.
  unfold createQueryString. destruct params as [|entry params]; [done|].
  cbn [map length Nat.eqb]. by destruct (map _ (filter _ _)).
Qed.

Lemma set_keys_elem_of (params : QueryParams) (key : str) :
  key ∈ filter (fun key => is_set (get params key) = true)
          (merge_sort str_le (map fst params)) <->
  is_set (get params key) = true.
Proof.
  rewrite list_elem_of_filter, merge_sort_Permutation. split; [by intros [? _]|].
  intros Hset. split; [done|]. by apply get_set_elem_of.
Qed.

(** X17. The query string tells objects apart as far as the strings of
    their values go: when no property name has [&] or [=], two objects
    with the same query string have the same properties set, each with a
    value of the same string form in both, so that values that are strings
    are equal. Values of different types with one string form, as ["1"]
    and [1], are not told apart. *)
Theorem createQueryString_injective (params1 params2 : QueryParams) :
  (forall key, key ∈ map fst params1 ++ map fst params2 ->
     ("&"%char ∉ key) /\ ("="%char ∉ key)) ->
  createQueryString params1 = createQueryString params2 ->
  forall key,
    is_set (get params1 key) = is_set (get params2 key) /\
    (is_set (get params1 key) = true ->
     toString (get params1 key) = toString (get params2 key)) /\
    (forall s1 s2, get params1 key = text s1 -> get params2 key = text s2 -> s1 = s2).
Proof.
  intros Hkeys Hsame.
  set (keys1 := filter (fun key => is_set (get params1 key) = true)
                  (merge_sort str_le (map fst params1))).
  set (keys2 := filter (fun key => is_set (get params2 key) = true)
                  (merge_sort str_le (map fst params2))).
  assert (Hplain : forall params keys,
            (forall key, key ∈ keys -> "&"%char ∉ key) ->
            Forall (fun pair => "&"%char ∉ pair) (map (queryPair params) keys)).
  { intros params keys Hin. apply Forall_forall.
    intros pair (key & -> & Hamp%Hin)%list_elem_of_fmap.
    rewrite queryPair_cons, not_elem_of_app, not_elem_of_cons. split; [done|].
    split; [done|]. apply encodeURIComponent_no_separator. }
  assert (Hplain1 : Forall (fun pair => "&"%char ∉ pair) (map (queryPair params1) keys1)).
  { apply Hplain. intros key Hin%set_keys_elem_of.
    apply Hkeys, elem_of_app. left. by apply get_set_elem_of. }
  assert (Hplain2 : Forall (fun pair => "&"%char ∉ pair) (map (queryPair params2) keys2)).
  { apply Hplain. intros key Hin%set_keys_elem_of.
    apply Hkeys, elem_of_app. right. by apply get_set_elem_of. }
  assert (Hpairs : map (queryPair params1) keys1 = map (queryPair params2) keys2).
  { rewrite !createQueryString_pairs in Hsame. fold keys1 keys2 in Hsame.
    destruct (map (queryPair params1) keys1) as [|pair1 pairs1] eqn:E1,
             (map (queryPair params2) keys2) as [|pair2 pairs2] eqn:E2; try done.
    apply app_inv_head in Hsame. change (lit "&") with ["&"%char] in Hsame.
    apply (f_equal (JS.split "&"%char)) in Hsame.
    by rewrite !split_join in Hsame by done. }
  assert (Hone : forall paramsA paramsB keysA keysB key,
            map (queryPair paramsA) keysA = map (queryPair paramsB) keysB ->
            (forall k, k ∈ keysA <-> is_set (get paramsA k) = true) ->
            (forall k, k ∈ keysB <-> is_set (get paramsB k) = true) ->
            (forall k, k ∈ keysA ++ keysB -> "="%char ∉ k) ->
            is_set (get paramsA key) = true ->
            is_set (get paramsB key) = true /\
            toString (get paramsA key) = toString (get paramsB key)).
  { intros paramsA paramsB keysA keysB key Heq HA HB Hplain' Hset.
    assert (Hin : queryPair paramsA key ∈ map (queryPair paramsB) keysB).
    { rewrite <- Heq. apply list_elem_of_fmap_2. by apply HA. }
    apply list_elem_of_fmap in Hin as (key' & Hpair & Hin').
    rewrite !queryPair_cons in Hpair.
    apply first_segment in Hpair as [-> Hvalue].
    - split; [by apply HB|]. by apply encodeURIComponent_inj.
    - apply Hplain', elem_of_app. left. by apply HA.
    - by apply Hplain', elem_of_app; right. }
  assert (Hequals : forall k, k ∈ keys1 ++ keys2 -> "="%char ∉ k).
  { intros k [Hin%set_keys_elem_of|Hin%set_keys_elem_of]%elem_of_app;
      apply Hkeys, elem_of_app; [left|right]; by apply get_set_elem_of. }
  assert (Hequals' : forall k, k ∈ keys2 ++ keys1 -> "="%char ∉ k).
  { intros k Hin. apply Hequals. rewrite elem_of_app in Hin |- *. tauto. }
  assert (H12 : forall key, is_set (get params1 key) = true ->
            is_set (get params2 key) = true /\
            toString (get params1 key) = toString (get params2 key)).
  { intros key. apply (Hone params1 params2 keys1 keys2); try done;
      apply set_keys_elem_of. }
  assert (H21 : forall key, is_set (get params2 key) = true ->
            is_set (get params1 key) = true /\
            toString (get params2 key) = toString (get params1 key)).
  { intros key. apply (Hone params2 params1 keys2 keys1); try done;
      apply set_keys_elem_of. }
  intros key. split; [|split].
  - destruct (is_set (get params1 key)) eqn:E1.
    + symmetry. by apply H12.
    + destruct (is_set (get params2 key)) eqn:E2; [|done].
      destruct (H21 key E2) as [Hset _]. by rewrite E1 in Hset.
  - intros Hset. by apply H12.
  - intros s1 s2 E1 E2. destruct (H12 key) as [_ Hstring]; [by rewrite E1|].
    by rewrite E1, E2 in Hstring.
Qed.

End Query_string_injective.

(** ** Further runs of the model *)

Lemma post_verify_accepts_signed_request_witness :
  exists envelope,
    TAPSigner.signTAPRequest (H := Standin.ed25519) Sample.signerA Sample.now Sample.request
      = Return envelope /\
    Handlers.post_verify (H := Standin.ed25519) (buffer := standin_Buffer_from_base64)
      Sample.signerB (Some (Signature_Input envelope)) (Some (Signature envelope))
      (Some (authority Sample.request)) (Some (path Sample.request))
      (Some Inputs.publicKeyTextA) =
      {| status := 200;
         json := Handlers.VerifyResult true (Some (TAPSigner.getKeyId Sample.signerA))
                   (Some (JS.Number_toString (Sample.now / 1000)))
                   (Some (JS.Number_toString (Sample.now / 1000 + 480))) |}.
Proof.
  eexists. split; [vm_compute; reflexivity|].
  apply (post_verify_accepts_signed_request (H := Standin.ed25519)
           (buffer := standin_Buffer_from_base64) Sample.signerA Sample.signerB
           Sample.now Sample.request).
  - done.
  - done.
  - by vm_compute.
  - repeat split; compute_done.
  - repeat split; compute_done.
  - replace (Buffer_from_base64 Inputs.publicKeyTextA) with (drop 32 Sample.secretKeyA)
      by (vm_compute; reflexivity).
    apply (standin_key_matches Sample.secretKeyA). reflexivity.
  - vm_compute. reflexivity.
Defined.

Lemma verifySignature_rejects_foreign_characters_witness :
  TAPSigner.verifySignature (H := Standin.ed25519) Sample.signerA Sample.base (lit "AA:A") None
    = Return false.
Proof.
  apply (verifySignature_rejects_foreign_characters (H := Standin.ed25519) Sample.signerA
           Sample.base (lit "AA:A") None) with (c := ":"%char).
  - compute_done.
  - reflexivity.
  - done.
  - reflexivity.
Defined.

Lemma post_verify_default_key_rejects_witness :
  length (TAPSigner.getPublicKey Sample.signerA) = 44%nat /\
  exists params : gmap str str,
    Handlers.post_verify (H := Standin.ed25519) (buffer := standin_Buffer_from_base64)
      Sample.signerA (Some (lit "keyid=k")) (Some (lit "sig2=:AAAA:"))
      (Some (lit "merchant.example")) (Some (lit "/checkout")) None =
      {| status := 200;
         json := Handlers.VerifyResult false (params !! lit "keyid") (params !! lit "created")
                   (params !! lit "expires") |}.
Proof.
  split; [vm_compute; reflexivity|].
  destruct (post_verify_default_key_rejects (H := Standin.ed25519)
              (buffer := standin_Buffer_from_base64) Sample.signerA (lit "keyid=k")
              (lit "sig2=:AAAA:") (lit "merchant.example") (lit "/checkout") None)
    as (params & _ & Hanswer).
  - reflexivity.
  - vm_compute. lia.
  - done.
  - done.
  - done.
  - done.
  - exists params. exact Hanswer.
Defined.

Lemma post_sign_answers_witness :
  Handlers.post_sign (H := Standin.ed25519) Sample.signerA Sample.now (replicate 64 x00)
    (Some (lit "merchant.example")) (Some (lit "/checkout")) (Some (lit "")) =
    {| status := 400;
       json := Handlers.SignError (lit "Missing required fields: authority, path, tag") |} /\
  Handlers.post_sign (H := Standin.ed25519)
    {| TAPSigner.keyPair := {| publicKey := [x01]; secretKey := [x01] |};
       TAPSigner.keyId := lit "k" |}
    Sample.now (replicate 64 x00)
    (Some (lit "merchant.example")) (Some (lit "/checkout")) (Some (lit "agent-payer-auth")) =
    {| status := 500; json := Handlers.SignError (lit "Failed to sign request") |} /\
  exists signature,
    Handlers.post_sign (H := Standin.ed25519) Sample.signerA Sample.now (replicate 64 x00)
      (Some (lit "merchant.example")) (Some (lit "/checkout"))
      (Some (lit "agent-payer-auth")) =
      {| status := 200;
         json := Handlers.SignResult signature (TAPSigner.getKeyId Sample.signerA)
                   (Base64.Buffer_toString_base64 (replicate 64 x00))
                   (Bs58.encode (publicKey Sample.keyPairA)) |} /\
    Signature_Input signature =
      wire_signature_input 1700000000 (TAPSigner.getKeyId Sample.signerA) 1700000480
        (Base64.Buffer_toString_base64 (replicate 64 x00)) (lit "agent-payer-auth") /\
    TapRoutes.verify (H := Standin.ed25519) Sample.signerB
      (join LF (canonical_lines (lit "merchant.example") (lit "/checkout") 1700000000
                  (TAPSigner.getKeyId Sample.signerA) 1700000480
                  (Base64.Buffer_toString_base64 (replicate 64 x00))
                  (lit "agent-payer-auth")))
      (Signature signature) (publicKey Sample.keyPairA) = Return true.
Proof.
  split; [|split].
  - apply (post_sign_answers (H := Standin.ed25519) Sample.signerA Sample.now
             (replicate 64 x00) (Some (lit "merchant.example")) (Some (lit "/checkout"))
             (Some (lit ""))).
    reflexivity.
  - apply (post_sign_answers (H := Standin.ed25519)
             {| TAPSigner.keyPair := {| publicKey := [x01]; secretKey := [x01] |};
                TAPSigner.keyId := lit "k" |}
             Sample.now (replicate 64 x00) (Some (lit "merchant.example"))
             (Some (lit "/checkout")) (Some (lit "agent-payer-auth"))).
    + reflexivity.
    + cbn. lia.
  - destruct (post_sign_answers (H := Standin.ed25519) Sample.signerA Sample.now
                (replicate 64 x00) (Some (lit "merchant.example")) (Some (lit "/checkout"))
                (Some (lit "agent-payer-auth"))) as (_ & _ & Hok).
    destruct Hok as (sig & _ & Hanswer & _ & _ & Hverify); [reflexivity..|].
    eexists. split; [exact Hanswer|]. split; [reflexivity|].
    apply Hverify. apply (standin_key_matches Sample.secretKeyA). reflexivity.
Defined.

Lemma parseSignatureInput_last_value_wins_witness :
  (exists params,
     TapRoutes.parseSignatureInput (render_fields Inputs.repeated_fields) = Return params /\
     params !! lit "keyid" = Some (lit "kid-2")) /\
  (exists params,
     TapRoutes.parseSignatureInput (lit "__proto__=a;__proto__=b") = Return params /\
     params !! lit "__proto__" = None).
Proof.
  split.
  - destruct (parseSignatureInput_last_value_wins
                [ (lit "keyid", DQ ++ lit "kid-1" ++ DQ); (lit "created", lit "1700000000") ]
                [] (lit "keyid") (DQ ++ lit "kid-2" ++ DQ) [] ∅)
      as [[params [Hparse Hlookup]] _].
    + repeat constructor; compute_done.
    + apply not_elem_of_nil.
    + exists params. split; [exact Hparse|exact Hlookup].
  - destruct (parseSignatureInput_returns (lit "__proto__=a;__proto__=b"))
      as [params Hparse].
    exists params. split; [exact Hparse|].
    apply (parseSignatureInput_last_value_wins [] [] [] [] (lit "__proto__=a;__proto__=b")
             params).
    exact Hparse.
Defined.

Lemma new_restores_exported_key_witness :
  TAPSigner.new Sample.keyPairB (Some (Bs58.encode Sample.secretKeyA)) None =
    Return Sample.signerA /\
  TAPSigner.new Sample.keyPairB (Some (Bs58.encode [x01])) None =
    Throw (Error "bad secret key size") /\
  TAPSigner.new Sample.keyPairB (Some (lit "0")) None = Throw (Error "Non-base58 character").
Proof.
  destruct (new_restores_exported_key Sample.keyPairB Sample.secretKeyA None)
    as (Hrestored & _ & _).
  destruct (new_restores_exported_key Sample.keyPairB [x01] None) as (_ & Hshort & Hchar).
  split; [|split].
  - apply Hrestored. reflexivity.
  - apply Hshort; [done|cbn; lia].
  - apply (Hchar (lit "0") "0"%char); [compute_done|reflexivity].
Defined.

Lemma registry_kids_distinct_witness :
  exists jwks registry,
    Sample.rotated = Return (jwks, registry) /\
    length (VisaKeyRegistry.keys jwks) = 2%nat /\
    registry_well_formed registry /\
    NoDup (map VisaKeyRegistry.kid (VisaKeyRegistry.keys jwks)).
Proof.
  pose (registry :=
    {| VisaKeyRegistry.tapSigner := Sample.signerB;
       VisaKeyRegistry.registeredKeys :=
         [ (TAPSigner.getKeyId Sample.signerA, VisaKeyRegistry.jwk_of Sample.signerA);
           (TAPSigner.getKeyId Sample.signerB, VisaKeyRegistry.jwk_of Sample.signerB) ] |}).
  assert (Hwf : registry_well_formed registry).
  { split.
    - cbn [registry VisaKeyRegistry.registeredKeys map fst]. compute_done.
    - repeat constructor. }
  assert (Hrun : Sample.rotated = VisaKeyRegistry.getJWKS registry)
    by (vm_compute; reflexivity).
  pose proof (getJWKS_returns registry) as Hreturns.
  destruct (registry_kids_distinct registry Hwf) as (Hget & _ & _).
  destruct (Hget _ _ Hreturns) as [Hwf' Hdistinct].
  eexists _, _. split; [rewrite Hrun; exact Hreturns|].
  split; [vm_compute; reflexivity|]. split; [exact Hwf'|exact Hdistinct].
Defined.

Lemma rotateKey_forgets_unserved_key_witness :
  exists registry jwks registry',
    VisaKeyRegistry.rotateKey (fun _ _ => Return tt) (VisaKeyRegistry.new Sample.signerA)
      Sample.signerB = Return (tt, registry) /\
    VisaKeyRegistry.getJWKS registry = Return (jwks, registry') /\
    VisaKeyRegistry.keys jwks = [VisaKeyRegistry.jwk_of Sample.signerB].
Proof.
  eexists. 
  destruct (rotateKey_forgets_unserved_key (fun _ _ => Return tt)
              (VisaKeyRegistry.new Sample.signerA) Sample.signerB tt
              {| VisaKeyRegistry.tapSigner := Sample.signerB;
                 VisaKeyRegistry.registeredKeys :=
                   [(TAPSigner.getKeyId Sample.signerB, VisaKeyRegistry.jwk_of Sample.signerB)] |})
    as (jwks & registry' & Hget & _ & Hkeys & _).
  - unfold VisaKeyRegistry.rotateKey. rewrite ed25519ToJWK_of_signer. reflexivity.
  - exists jwks, registry'. split; [|split; [exact Hget|by apply Hkeys]].
    unfold VisaKeyRegistry.rotateKey. rewrite ed25519ToJWK_of_signer. reflexivity.
Defined.

Lemma xpay_token_fits_other_requests_witness :
  VisaAuth.verifyXPayToken (H := standin_hmac_sha256) Inputs.visaAuth (Sample.now + 1000)
    (VisaAuth.generateXPayToken (H := standin_hmac_sha256) Inputs.visaAuth Sample.now
       (lit "/v1/agents") [] (VisaAuth.body_string (lit "/42")))
    (lit "/v1/agents/42") [] VisaAuth.no_body = Return true.
Proof.
  apply (xpay_token_fits_other_requests (H := standin_hmac_sha256)).
  - reflexivity.
  - vm_compute. discriminate.
Defined.

Lemma verifyXPayToken_accepts_exactly_witness :
  VisaAuth.verifyXPayToken (H := standin_hmac_sha256) Inputs.visaAuth 0
    Inputs.undated_token (lit "/webhook") [] VisaAuth.no_body = Return true /\
  VisaAuth.verifyXPayToken (H := standin_hmac_sha256) Inputs.visaAuth Sample.now
    Inputs.undated_token (lit "/webhook") [] VisaAuth.no_body = Return true.
Proof.
  split.
  - apply (verifyXPayToken_accepts_exactly (H := standin_hmac_sha256) Inputs.visaAuth 0
             Inputs.undated_token (lit "/webhook") [] VisaAuth.no_body).
    exists (lit "never"). split; [reflexivity|]. split; [compute_done|].
    intros tokenTime Hparse. vm_compute in Hparse. discriminate Hparse.
  - apply (verifyXPayToken_accepts_exactly (H := standin_hmac_sha256) Inputs.visaAuth
             Sample.now Inputs.undated_token (lit "/webhook") [] VisaAuth.no_body).
    exists (lit "never"). split; [reflexivity|]. split; [compute_done|].
    intros tokenTime Hparse. vm_compute in Hparse. discriminate Hparse.
Defined.

Lemma createQueryString_canonical_witness :
  VisaAuth.createQueryString Inputs.queryParams = lit "?agent=pocket%20lp&limit=10" /\
  VisaAuth.createQueryString (rev Inputs.queryParams) =
    VisaAuth.createQueryString Inputs.queryParams.
Proof.
  destruct (createQueryString_canonical Inputs.queryParams (rev Inputs.queryParams))
    as (Hperm & _ & _).
  - compute_done.
  - split; [vm_compute; reflexivity|]. symmetry. apply Hperm. apply Permutation_rev.
Defined.

Lemma getMaskedApiKey_shows_short_keys_witness :
  take 6 (VisaAuth.getMaskedApiKey Inputs.visaAuth) = lit "abcdef".
Proof.
  destruct (getMaskedApiKey_shows_short_keys Inputs.visaAuth) as (_ & Hshort & _).
  apply Hshort; [done|cbn; lia].
Defined.

Lemma createQueryString_injective_witness :
  VisaAuth.createQueryString Inputs.one_as_text =
    VisaAuth.createQueryString Inputs.one_as_number /\
  VisaAuth.toString (VisaAuth.get Inputs.one_as_text (lit "a")) =
    VisaAuth.toString (VisaAuth.get Inputs.one_as_number (lit "a")) /\
  VisaAuth.get Inputs.one_as_text (lit "a") <> VisaAuth.get Inputs.one_as_number (lit "a").
Proof.
  split; [reflexivity|]. split; [|discriminate].
  apply (createQueryString_injective Inputs.one_as_text Inputs.one_as_number).
  - apply Forall_forall. repeat constructor; compute_done.
  - reflexivity.
  - reflexivity.
Defined.
